(** * Pairs trading by cointegration: pair selection and the spread state machine

    A shallow embedding of [pair.py], [trading_pair.py] and [main.py].

    Conventions of the embedding.
    - Python floats are read as exact rationals ([Q]): no rounding, no
      infinities.  The correlation of a pair is the one float of the code
      that pandas leaves undefined on ordinary data (a price that has not
      moved, an overlap without rows): it has type [Float], a number or NaN,
      and is compared as Python compares NaN.  Square roots, the
      cointegration test, the OLS fit and the ADF test belong to numpy /
      pandas / statsmodels and enter through the record [Statistics]; each
      statsmodels call may raise, and what it returns is a number.
    - [symbol_data.py] is not part of the sources at hand.  The buffers of an
      instrument, as they are once the bars of an update have been ingested,
      are an input of every update (record [SymbolData]); an instrument is
      named by its symbol, which is also the key of its buffers.
    - [Pairs] objects are shared and mutated in place.  They live in
      [_pair_list]; a reference to a pair object is its position there.
    - The engine talks to the platform through [market_order],
      [calculate_order_quantity] and [debug]; the calls are recorded, in
      order, in the field [transcript] of the engine state. *)

From Stdlib Require Import QArith ZArith List Lia Lqa Permutation.
From stdpp Require Import base list sorting strings.
Import ListNotations.

Open Scope Q_scope.

(** ** Numbers *)

Definition Symbol := string.

(** Python's [x < y] on floats. *)
Definition Qltb (x y : Q) : bool := negb (Qle_bool y x).

Definition Qnat (n : nat) : Q := inject_Z (Z.of_nat n).

(** A float that may be undefined: pandas returns NaN for a correlation it
    cannot compute. *)
Inductive Float := NaN | Num (q : Q).

(** Python's [x < y] when a side may be NaN: every comparison with NaN is
    False. *)
Definition Fltb (x y : Float) : bool :=
  match x, y with
  | Num p, Num q => Qltb p q
  | _, _ => false
  end.

(** The number a float holds when it is not NaN. *)
Definition number (x : Float) : Q :=
  match x with
  | Num q => q
  | NaN => 0
  end.

(** The [<] that [list.sort] applies to the keys. *)
Class Less (K : Type) := less : K -> K -> bool.

#[global] Instance Q_less : Less Q := Qltb.

#[global] Instance Float_less : Less Float := Fltb.

Definition Qsum (l : list Q) : Q := fold_right Qplus 0 l.

(** ** Python containers *)

Module Py.

(** [itertools.combinations(l, 2)]. *)
Fixpoint combinations2 {A} (l : list A) : list (A * A) :=
  match l with
  | [] => []
  | x :: t => map (pair x) t ++ combinations2 t
  end.

(** Keys of a dict built by inserting [l] in order: a repeated key keeps
    its first position. *)
Fixpoint dict_keys (seen l : list Symbol) : list Symbol :=
  match l with
  | [] => []
  | k :: t =>
      if bool_decide (k ∈ seen) then dict_keys seen t
      else k :: dict_keys (k :: seen) t
  end.

(** [list.sort(key=...)] compares keys with [<] only and is stable; with
    [reverse=True] elements with equal keys keep their original order as
    well.  On keys that [<] orders (numbers) the result is the one stable
    sorted arrangement, which insertion computes.  With NaN among the keys
    the arrangement [list.sort] leaves depends on the run detection and
    merging of the interpreter: what is proved below about the order of a
    sorted list is stated for keys that are numbers, and what is proved for
    all keys uses only that the result is a rearrangement. *)
Section Sort.
Context {A K : Type} `{Less K} (key : A -> K).

Fixpoint insert_by (x : A) (l : list A) : list A :=
  match l with
  | [] => [x]
  | y :: l' =>
      if less (key y) (key x) then y :: insert_by x l' else x :: l
  end.

Fixpoint sort_by (l : list A) : list A :=
  match l with
  | [] => []
  | x :: l' => insert_by x (sort_by l')
  end.

Definition sort (reverse : bool) (l : list A) : list A :=
  if reverse then rev (sort_by (rev l)) else sort_by l.
End Sort.

(** An insertion-ordered dict keyed by object identity. *)
Section Dict.
Context {V : Type}.

Definition contains (d : list (nat * V)) (k : nat) : bool :=
  existsb (Nat.eqb k) (map fst d).

(** [d[k] = v] *)
Fixpoint setitem (d : list (nat * V)) (k : nat) (v : V) : list (nat * V) :=
  match d with
  | [] => [(k, v)]
  | (k', v') :: d' =>
      if Nat.eqb k k' then (k, v) :: d' else (k', v') :: setitem d' k v
  end.

(** [d.pop(k)]: [None] stands for [KeyError]. *)
Fixpoint pop (d : list (nat * V)) (k : nat) : option (list (nat * V)) :=
  match d with
  | [] => None
  | (k', v') :: d' =>
      if Nat.eqb k k' then Some d'
      else match pop d' k with
           | Some d'' => Some ((k', v') :: d'')
           | None => None
           end
  end.
End Dict.

End Py.

(** ** Exceptions *)

Inductive Exception :=
| StatsError       (* raised inside statsmodels (singular design, constant input, ...) *)
| AttributeError   (* attribute read on [None], or attribute never assigned *)
| KeyError
| NameError
| DanglingReference. (* a reference outside [_pair_list]; no Python counterpart *)

Inductive Res (A : Type) :=
| Return (x : A)
| Raise (e : Exception).
Arguments Return {A} x.
Arguments Raise {A} e.

(** ** The instrument buffers (interface of [symbol_data.py]) *)

Record SymbolData := {
  is_ready : bool;
  prices_0_close : Q;          (* prices[0].close, the latest close *)
  series : list Q;             (* series.values.flatten() *)
  data_frame : list (Z * Q)    (* data_frame.droplevel([0]): time -> close, by increasing time *)
}.

(** ** numpy, pandas and statsmodels *)

Record OLSResults := {
  params : Q * Q;              (* (Intercept, slope) *)
  resid : list Q
}.

Record Statistics := {
  sqrt : Q -> Q;
  (* statsmodels.tsa.stattools.coint(y0, y1, trend="n", maxlag=0): (t, pvalue) *)
  coint : list Q -> list Q -> Res (Q * Q);
  (* statsmodels.formula.api.ols("a ~ b", data).fit() *)
  ols_fit : list (Z * (Q * Q)) -> Res OLSResults;
  (* statsmodels.tsa.stattools.adfuller(x, autolag="BIC"): (adf, pvalue) *)
  adfuller : list Q -> Res (Q * Q)
}.

Module np.
Definition mean (l : list Q) : Q := Qsum l / Qnat (length l).

Definition std (lib : Statistics) (l : list Q) : Q :=
  let m := mean l in
  sqrt lib (mean (map (fun x => (x - m) * (x - m)) l)).
End np.

Module pd.

(** [pd.concat([x, y], axis=1)]: outer join of two frames on their index. *)
Fixpoint concat (x y : list (Z * Q)) : list (Z * (option Q * option Q)) :=
  match x with
  | [] => map (fun r => (fst r, (None, Some (snd r)))) y
  | (t1, v1) :: x' =>
      (fix inner (y : list (Z * Q)) : list (Z * (option Q * option Q)) :=
         match y with
         | [] => map (fun r => (fst r, (Some (snd r), None))) x
         | (t2, v2) :: y' =>
             match (t1 ?= t2)%Z with
             | Lt => (t1, (Some v1, None)) :: concat x' y
             | Eq => (t1, (Some v1, Some v2)) :: concat x' y'
             | Gt => (t2, (None, Some v2)) :: inner y'
             end
         end) y
  end.

(** [DataFrame.dropna()]: rows with a missing entry are dropped. *)
Fixpoint dropna (df : list (Z * (option Q * option Q))) : list (Z * (Q * Q)) :=
  match df with
  | [] => []
  | (t, (Some u, Some v)) :: df' => (t, (u, v)) :: dropna df'
  | _ :: df' => dropna df'
  end.

(** Pearson's coefficient of two columns of equal length, as
    [DataFrame.corr()] computes it: NaN when there is no row, and NaN when
    the divisor is zero (a constant column, or a single row). *)
Definition pearson (lib : Statistics) (xs ys : list Q) : Float :=
  let mx := np.mean xs in
  let my := np.mean ys in
  let dx := map (fun x => x - mx) xs in
  let dy := map (fun y => y - my) ys in
  let cov := Qsum (zip_with Qmult dx dy) in
  let vx := Qsum (zip_with Qmult dx dx) in
  let vy := Qsum (zip_with Qmult dy dy) in
  let divisor := sqrt lib (vx * vy) in
  if Nat.ltb (length xs) 1 then NaN
  else if Qeq_bool divisor 0 then NaN
  else Num (cov / divisor).

(** [DataFrame.corr()] of a frame with two columns: the 2x2 matrix. *)
Definition corr (lib : Statistics) (df : list (Z * (Q * Q))) : list (list Float) :=
  let c0 := map (fun r => fst (snd r)) df in
  let c1 := map (fun r => snd (snd r)) df in
  [ [pearson lib c0 c0; pearson lib c0 c1];
    [pearson lib c1 c0; pearson lib c1 c1] ].

(** [m.iloc[i][j]] *)
Definition iloc (m : list (list Float)) (i j : nat) : Float :=
  nth j (nth i m []) NaN.

End pd.

(** ** pair.py *)

Module pair.

Record Pairs := {
  a : Symbol;
  b : Symbol;
  name : string;
  model : option OLSResults;
  mean_error : Q;
  epsilon : Q;
  stationary_p : option Q     (* not assigned by the constructor *)
}.

Definition __init__ (a b : Symbol) : Pairs :=
  {| a := a; b := b; name := a +:+ ":" +:+ b;
     model := None; mean_error := 0; epsilon := 0; stationary_p := None |}.

Section Methods.
Variable lib : Statistics.
Variable buffers : Symbol -> SymbolData.

Definition _data_frame (self : Pairs) : list (Z * (Q * Q)) :=
  pd.dropna (pd.concat (data_frame (buffers (a self)))
                       (data_frame (buffers (b self)))).

Definition correlation (self : Pairs) : Float :=
  pd.iloc (pd.corr lib (_data_frame self)) 0 1.

(** The method mutates [self]: the object after the call is returned
    next to the result, also when the call raises. *)
Definition cointegration_test (self : Pairs) : Pairs * Res bool :=
  match coint lib (series (buffers (a self))) (series (buffers (b self))) with
  | Raise e => (self, Raise e)
  | Return coint_test =>
      if Qle_bool 0.05 (snd coint_test) then (self, Return false)
      else
        match ols_fit lib (_data_frame self) with
        | Raise e => (self, Raise e)
        | Return fit =>
            let self1 :=
              {| a := a self; b := b self; name := name self;
                 model := Some fit;
                 mean_error := mean_error self;
                 epsilon := epsilon self;
                 stationary_p := stationary_p self |} in
            match adfuller lib (resid fit) with
            | Raise e => (self1, Raise e)
            | Return adf =>
                ({| a := a self; b := b self; name := name self;
                    model := Some fit;
                    mean_error := np.mean (resid fit);
                    epsilon := np.std lib (resid fit);
                    stationary_p := Some (snd adf) |},
                 Return true)
            end
        end
  end.
End Methods.

End pair.

(** ** trading_pair.py *)

Record OrderTicket := {
  ticket_symbol : Symbol;
  quantity : Q
}.

Module trading_pair.

Record TradingPair := {
  ticket_a : OrderTicket;
  ticket_b : OrderTicket;
  model_intercept : Q;
  model_slope : Q;
  mean_error : Q;
  epsilon : Q
}.

Definition __init__ (ticket_a ticket_b : OrderTicket)
    (intercept slope mean_error epsilon : Q) : TradingPair :=
  {| ticket_a := ticket_a; ticket_b := ticket_b;
     model_intercept := intercept; model_slope := slope;
     mean_error := mean_error; epsilon := epsilon |}.

End trading_pair.

(** ** main.py *)

Module main.
Import pair trading_pair.

(** The class attributes of [PairsTrading]. *)
Record Config := {
  _symbols : list Symbol;
  _num_bar : Z;
  _interval : Z;
  _pair_num : positive;
  _leverage : Q;
  _min_corr_threshold : Q;
  _open_size : Q;
  _close_size : Q;
  _stop_loss_size : Q
}.

Definition class_attributes : Config :=
  {| _symbols :=
       [ "ING"; "TBC"; "BMA"; "PB"; "FBC"; "STL"; "FCF"; "PFS"; "BOH"; "SCNB";
         "BK"; "CMA"; "AF"; "PNC"; "KB"; "SHG"; "BSAC"; "CIB"; "BBD"; "BSBR" ]%string;
     _num_bar := 390 * 21 * 3;
     _interval := 10;
     _pair_num := 10;
     _leverage := 1;
     _min_corr_threshold := 0.9;
     _open_size := 2.32;
     _close_size := 0.5;
     _stop_loss_size := 6 |}.

(** What the engine sends to the platform. *)
Inductive Message :=
| No_selected_pair
| Close (pair : nat)                       (* 'Close {pair.name}' *)
| Long_and_short (long_qty : Q) (long_symbol : Symbol)
                 (short_qty : Q) (short_symbol : Symbol).

Inductive Event :=
| MarketOrder (symbol : Symbol) (quantity : Q)
| Debug (message : Message).

(** The platform service used for sizing; its answer may depend on
    everything sent so far and on the current prices. *)
Record QCAlgorithm := {
  calculate_order_quantity :
    list Event -> (Symbol -> SymbolData) -> Symbol -> Q -> Q
}.

(** One call of [on_data]: the clock and the buffers after ingestion. *)
Record Update := {
  time : Z;                   (* minutes since datetime.min *)
  buffers : Symbol -> SymbolData
}.

Definition datetime_min : Z := 0.
Definition timedelta_days (d : Z) : Z := (d * 24 * 60)%Z.

(** The engine object. *)
Record PairsTrading := {
  _symbol_data : list Symbol;                  (* keys, in insertion order *)
  _pair_list : list Pairs;
  _selected_pair : list nat;
  _trading_pairs : list (nat * TradingPair);
  _regenerate_time : Z;
  transcript : list Event
}.

Definition set_pair_list (s : PairsTrading) (l : list Pairs) : PairsTrading :=
  {| _symbol_data := _symbol_data s; _pair_list := l;
     _selected_pair := _selected_pair s; _trading_pairs := _trading_pairs s;
     _regenerate_time := _regenerate_time s; transcript := transcript s |}.

Definition set_selected_pair (s : PairsTrading) (l : list nat) : PairsTrading :=
  {| _symbol_data := _symbol_data s; _pair_list := _pair_list s;
     _selected_pair := l; _trading_pairs := _trading_pairs s;
     _regenerate_time := _regenerate_time s; transcript := transcript s |}.

Definition set_trading_pairs (s : PairsTrading) (d : list (nat * TradingPair))
    : PairsTrading :=
  {| _symbol_data := _symbol_data s; _pair_list := _pair_list s;
     _selected_pair := _selected_pair s; _trading_pairs := d;
     _regenerate_time := _regenerate_time s; transcript := transcript s |}.

Definition set_regenerate_time (s : PairsTrading) (t : Z) : PairsTrading :=
  {| _symbol_data := _symbol_data s; _pair_list := _pair_list s;
     _selected_pair := _selected_pair s; _trading_pairs := _trading_pairs s;
     _regenerate_time := t; transcript := transcript s |}.

Definition emit (s : PairsTrading) (e : Event) : PairsTrading :=
  {| _symbol_data := _symbol_data s; _pair_list := _pair_list s;
     _selected_pair := _selected_pair s; _trading_pairs := _trading_pairs s;
     _regenerate_time := _regenerate_time s; transcript := transcript s ++ [e] |}.

(** *** State and exceptions *)

Definition M (A : Type) : Type := PairsTrading -> PairsTrading * Res A.

Definition ret {A} (x : A) : M A := fun s => (s, Return x).

Definition raise {A} (e : Exception) : M A := fun s => (s, Raise e).

Definition bind {A B} (m : M A) (k : A -> M B) : M B :=
  fun s =>
    match m s with
    | (s', Return x) => k x s'
    | (s', Raise e) => (s', Raise e)
    end.

Notation "x <- m ;; k" := (bind m (fun x => k))
  (at level 100, m at next level, right associativity).
Notation "m ;; k" := (bind m (fun _ => k))
  (at level 100, right associativity).

Definition get : M PairsTrading := fun s => (s, Return s).

Definition modify (f : PairsTrading -> PairsTrading) : M unit :=
  fun s => (f s, Return tt).

Fixpoint for_each {A} (body : A -> M unit) (l : list A) : M unit :=
  match l with
  | [] => ret tt
  | x :: l' => body x ;; for_each body l'
  end.

Fixpoint map_m {A B} (f : A -> M B) (l : list A) : M (list B) :=
  match l with
  | [] => ret []
  | x :: l' => y <- f x ;; ys <- map_m f l' ;; ret (y :: ys)
  end.

(** The object behind a reference. *)
Definition deref (pair : nat) : M Pairs :=
  fun s =>
    match _pair_list s !! pair with
    | Some p => (s, Return p)
    | None => (s, Raise DanglingReference)
    end.

Definition getattr {A} (x : option A) : M A :=
  match x with
  | Some v => ret v
  | None => raise AttributeError
  end.

(** *** Platform calls *)

Definition market_order (symbol : Symbol) (quantity : Q) : M OrderTicket :=
  fun s => (emit s (MarketOrder symbol quantity),
            Return {| ticket_symbol := symbol; quantity := quantity |}).

Definition debug (m : Message) : M unit :=
  fun s => (emit s (Debug m), Return tt).

Section Engine.
Variable cfg : Config.
Variable lib : Statistics.
Variable qc : QCAlgorithm.

Definition initialize (warm_up : Symbol -> SymbolData) : PairsTrading :=
  let keys := Py.dict_keys [] (_symbols cfg) in
  {| _symbol_data := keys;
     _pair_list :=
       map (fun p => pair.__init__ (fst p) (snd p))
         (filter (fun p => is_ready (warm_up (fst p)) && is_ready (warm_up (snd p)))
                 (Py.combinations2 keys));
     _selected_pair := [];
     _trading_pairs := [];
     _regenerate_time := datetime_min;
     transcript := [] |}.

Section OnData.
Variable data : Update.

(** The first loop of [_generate_pairs], over the objects of
    [_pair_list]; [i] is the reference of the head of [pairs]. *)
Fixpoint select_loop (i : nat) (pairs : list Pairs) (selected_pair : list nat)
    : list Pairs * Res (list nat) :=
  match pairs with
  | [] => ([], Return selected_pair)
  | self :: rest =>
      if Fltb (correlation lib (buffers data) self) (Num (_min_corr_threshold cfg))
      then
        let '(rest', r) := select_loop (S i) rest selected_pair in
        (self :: rest', r)
      else
        let '(self', coint) := cointegration_test lib (buffers data) self in
        match coint with
        | Raise e => (self' :: rest, Raise e)
        | Return false =>
            let '(rest', r) := select_loop (S i) rest selected_pair in
            (self' :: rest', r)
        | Return true =>
            match stationary_p self' with
            | None => (self' :: rest, Raise AttributeError)
            | Some p =>
                let '(rest', r) :=
                  select_loop (S i) rest
                    (if Qltb p 0.05 then selected_pair ++ [i] else selected_pair) in
                (self' :: rest', r)
            end
        end
  end.

(** Keys of the two sorts; [list.sort] computes the key of every
    element before it compares any. *)
Definition key_correlation (pair : nat) : M (Float * nat) :=
  p <- deref pair ;;
  ret (correlation lib (buffers data) p, pair).

Definition key_stationary_p (pair : nat) : M (Q * nat) :=
  p <- deref pair ;;
  sp <- getattr (stationary_p p) ;;
  ret (sp, pair).

Definition _generate_pairs : M (list nat) :=
  fun s =>
    let '(pairs', r) := select_loop 0 (_pair_list s) [] in
    let s1 := set_pair_list s pairs' in
    match r with
    | Raise e => (s1, Raise e)
    | Return selected_pair =>
        if Nat.eqb (length selected_pair) 0 then
          (debug No_selected_pair ;; ret []) s1
        else
          (keyed <- map_m key_correlation selected_pair ;;
           let by_corr := map snd (Py.sort fst true keyed) in
           let capped :=
             if Nat.ltb (Pos.to_nat (_pair_num cfg)) (length by_corr)
             then firstn (Pos.to_nat (_pair_num cfg)) by_corr
             else by_corr in
           keyed' <- map_m key_stationary_p capped ;;
           ret (map snd (Py.sort fst false keyed'))) s1
    end.

Definition regenerate : M unit :=
  s <- get ;;
  if (_regenerate_time s <? time data)%Z then
    selected <- _generate_pairs ;;
    modify (fun s => set_selected_pair s selected) ;;
    modify (fun s => set_regenerate_time s (time data + timedelta_days 5)%Z)
  else ret tt.

Definition pop_trading_pair (pair : nat) : M unit :=
  fun s =>
    match Py.pop (_trading_pairs s) pair with
    | Some d => (set_trading_pairs s d, Return tt)
    | None => (s, Raise KeyError)
    end.

(** The four statements that close a position. *)
Definition liquidate (pair : nat) (p : Pairs) (trading_pair : TradingPair)
    : M unit :=
  market_order (a p) (- quantity (ticket_a trading_pair)) ;;
  market_order (b p) (- quantity (ticket_b trading_pair)) ;;
  pop_trading_pair pair ;;
  debug (Close pair).

Definition frozen_error (p : Pairs) (trading_pair : TradingPair) : Q :=
  prices_0_close (buffers data (a p))
  - (model_intercept trading_pair
     + model_slope trading_pair * prices_0_close (buffers data (b p))).

(** Body of the loop "closing existing position". *)
Definition close_position (item : nat * TradingPair) : M unit :=
  let pair := fst item in
  let trading_pair := snd item in
  s <- get ;;
  p <- deref pair ;;
  if negb (existsb (Nat.eqb pair) (_selected_pair s)) then
    liquidate pair p trading_pair
  else
    let error := frozen_error p trading_pair in
    let mean_error := trading_pair.(trading_pair.mean_error) in
    let epsilon := trading_pair.(trading_pair.epsilon) in
    if Qltb 0 (quantity (ticket_a trading_pair))
       && (Qltb (mean_error - _close_size cfg * epsilon) error
           || Qltb error (mean_error - _stop_loss_size cfg * epsilon))
    then liquidate pair p trading_pair
    else if Qltb (quantity (ticket_a trading_pair)) 0
            && (Qltb error (mean_error + _close_size cfg * epsilon)
                || Qltb (mean_error + _stop_loss_size cfg * epsilon) error)
    then liquidate pair p trading_pair
    else ret tt.

Definition live_error (p : Pairs) (m : OLSResults) : Q :=
  prices_0_close (buffers data (a p))
  - (fst (params m) + snd (params m) * prices_0_close (buffers data (b p))).

Definition order_quantity (symbol : Symbol) (target : Q) : M Q :=
  fun s => (s, Return (calculate_order_quantity qc (transcript s)
                         (buffers data) symbol target)).

Definition target : Q :=
  _leverage cfg / inject_Z (Z.pos (_pair_num cfg)) / 2.

Definition neg_target : Q :=
  (- _leverage cfg) / inject_Z (Z.pos (_pair_num cfg)) / 2.

Definition record_position (pair : nat) (p : Pairs) (m : OLSResults)
    (ticket_a ticket_b : OrderTicket) : M unit :=
  modify (fun s =>
    set_trading_pairs s
      (Py.setitem (_trading_pairs s) pair
         (trading_pair.__init__ ticket_a ticket_b
            (fst (params m)) (snd (params m))
            p.(pair.mean_error) p.(pair.epsilon)))).

(** Body of the loop "entry"; [symbol] is the variable left behind by
    the ingestion loop at the top of [on_data]. *)
Definition open_position (symbol : option Symbol) (pair : nat) : M unit :=
  p <- deref pair ;;
  m <- getattr (model p) ;;
  let error := live_error p m in
  s <- get ;;
  if negb (Py.contains (_trading_pairs s) pair) then
    if Qltb error (p.(pair.mean_error) - _open_size cfg * p.(pair.epsilon)) then
      sym <- match symbol with Some x => ret x | None => raise NameError end ;;
      qty_a <- order_quantity sym target ;;
      qty_b <- order_quantity sym neg_target ;;
      ticket_a <- market_order (a p) qty_a ;;
      ticket_b <- market_order (b p) qty_b ;;
      record_position pair p m ticket_a ticket_b ;;
      debug (Long_and_short qty_a (a p) qty_b (b p))
    else if Qltb (p.(pair.mean_error) + _open_size cfg * p.(pair.epsilon)) error then
      sym <- match symbol with Some x => ret x | None => raise NameError end ;;
      qty_a <- order_quantity sym neg_target ;;
      qty_b <- order_quantity sym target ;;
      ticket_a <- market_order (a p) qty_a ;;
      ticket_b <- market_order (b p) qty_b ;;
      record_position pair p m ticket_a ticket_b ;;
      debug (Long_and_short qty_b (b p) qty_a (a p))
    else ret tt
  else ret tt.

Definition close_positions : M unit :=
  s <- get ;;
  for_each close_position (_trading_pairs s).

Definition open_positions (symbol : option Symbol) : M unit :=
  s <- get ;;
  for_each (open_position symbol) (_selected_pair s).

Definition on_data : M unit :=
  s <- get ;;
  let symbol := last (_symbol_data s) in
  regenerate ;;
  close_positions ;;
  open_positions symbol.

End OnData.

(** Successive updates; the algorithm stops at the first exception. *)
Definition run (updates : list Update) : M unit :=
  for_each on_data updates.

End Engine.

End main.

(** * Vocabulary of the statements *)

Import pair trading_pair main.

(** Exchange of the two columns of a frame. *)
Definition swap_row (r : Z * (Q * Q)) : Z * (Q * Q) :=
  (fst r, (snd (snd r), fst (snd r))).

Definition swap_opt_row (r : Z * (option Q * option Q)) : Z * (option Q * option Q) :=
  (fst r, (snd (snd r), fst (snd r))).

(** The object left by a complete run of [cointegration_test]. *)
Definition fitted (lib : Statistics) (self : Pairs) (fit : OLSResults) (adf : Q * Q)
    : Pairs :=
  {| a := a self; b := b self; name := name self;
     model := Some fit;
     pair.mean_error := np.mean (resid fit);
     pair.epsilon := np.std lib (resid fit);
     stationary_p := Some (snd adf) |}.

(** Orders on the key of a sort. *)
Definition ascending {A} (key : A -> Q) (x y : A) : Prop := key x <= key y.
Definition descending {A} (key : A -> Q) (x y : A) : Prop := key y <= key x.

(** ** States and transitions *)

(** [s] with the open positions replaced by [d] and [evs] sent to the
    platform. *)
Definition update_book (s : PairsTrading) (d : list (nat * TradingPair))
    (evs : list Event) : PairsTrading :=
  {| _symbol_data := _symbol_data s; _pair_list := _pair_list s;
     _selected_pair := _selected_pair s; _trading_pairs := d;
     _regenerate_time := _regenerate_time s;
     transcript := transcript s ++ evs |}.

(** What was sent to the platform between [s] and [s']. *)
Definition emitted (s s' : PairsTrading) : list Event :=
  drop (length (transcript s)) (transcript s').

Definition is_close (pair : nat) (e : Event) : bool :=
  match e with
  | Debug (Close k) => Nat.eqb k pair
  | _ => false
  end.

Definition is_entry (e : Event) : bool :=
  match e with
  | Debug (Long_and_short _ _ _ _) => true
  | _ => false
  end.

(** Number of close transitions of [pair] in a stretch of transcript. *)
Definition closes (pair : nat) (evs : list Event) : nat :=
  length (filter (fun e => is_close pair e = true) evs).

(** The pairs with an open position. *)
Definition open_pairs (s : PairsTrading) : list nat := map fst (_trading_pairs s).

Definition active (s : PairsTrading) (pair : nat) : bool :=
  existsb (Nat.eqb pair) (_selected_pair s).

Inductive Side := LongSpread | ShortSpread.

(** The state of a position, as the exit logic reads it. *)
Definition long_spread (tp : TradingPair) : Prop := 0 < quantity (ticket_a tp).
Definition short_spread (tp : TradingPair) : Prop := quantity (ticket_a tp) < 0.

(** The exit and stop-loss bands around a frozen snapshot. *)
Definition exit_long (cfg : Config) (tp : TradingPair) (error : Q) : Prop :=
  tp.(trading_pair.mean_error) - _close_size cfg * tp.(trading_pair.epsilon) < error
  \/ error < tp.(trading_pair.mean_error) - _stop_loss_size cfg * tp.(trading_pair.epsilon).

Definition exit_short (cfg : Config) (tp : TradingPair) (error : Q) : Prop :=
  error < tp.(trading_pair.mean_error) + _close_size cfg * tp.(trading_pair.epsilon)
  \/ tp.(trading_pair.mean_error) + _stop_loss_size cfg * tp.(trading_pair.epsilon) < error.

Definition exit_rule (cfg : Config) (tp : TradingPair) (error : Q) : Prop :=
  (long_spread tp /\ exit_long cfg tp error)
  \/ (short_spread tp /\ exit_short cfg tp error).

(** The same decision, as the code computes it. *)
Definition exits (cfg : Config) (tp : TradingPair) (error : Q) : bool :=
  let mean_error := tp.(trading_pair.mean_error) in
  let epsilon := tp.(trading_pair.epsilon) in
  (Qltb 0 (quantity (ticket_a tp))
   && (Qltb (mean_error - _close_size cfg * epsilon) error
       || Qltb error (mean_error - _stop_loss_size cfg * epsilon)))
  || (Qltb (quantity (ticket_a tp)) 0
      && (Qltb error (mean_error + _close_size cfg * epsilon)
          || Qltb (mean_error + _stop_loss_size cfg * epsilon) error)).

(** Does the closing loop close this entry of the book?  The decision reads
    the active set, the instruments of the pair, the prices and the entry. *)
Definition closing (cfg : Config) (data : Update) (pairs : list Pairs)
    (selected : list nat) (item : nat * TradingPair) : bool :=
  match pairs !! fst item with
  | Some p =>
      negb (existsb (Nat.eqb (fst item)) selected)
      || exits cfg (snd item) (frozen_error data p (snd item))
  | None => false
  end.

Definition close_events (p : Pairs) (pair : nat) (tp : TradingPair) : list Event :=
  [ MarketOrder (a p) (- quantity (ticket_a tp));
    MarketOrder (b p) (- quantity (ticket_b tp));
    Debug (Close pair) ].

Definition closing_events (cfg : Config) (data : Update) (pairs : list Pairs)
    (selected : list nat) (item : nat * TradingPair) : list Event :=
  match pairs !! fst item with
  | Some p =>
      if closing cfg data pairs selected item
      then close_events p (fst item) (snd item) else []
  | None => []
  end.

(** The entry bands around the live model. *)
Definition enter_long (cfg : Config) (p : Pairs) (error : Q) : Prop :=
  error < p.(pair.mean_error) - _open_size cfg * p.(pair.epsilon).

Definition enter_short (cfg : Config) (p : Pairs) (error : Q) : Prop :=
  p.(pair.mean_error) + _open_size cfg * p.(pair.epsilon) < error.

(** The branch taken by the entry logic. *)
Definition entry_side (cfg : Config) (p : Pairs) (error : Q) : option Side :=
  if Qltb error (p.(pair.mean_error) - _open_size cfg * p.(pair.epsilon))
  then Some LongSpread
  else if Qltb (p.(pair.mean_error) + _open_size cfg * p.(pair.epsilon)) error
  then Some ShortSpread
  else None.

(** Target weights of the two legs. *)
Definition weight_a (cfg : Config) (side : Side) : Q :=
  match side with LongSpread => target cfg | ShortSpread => neg_target cfg end.

Definition weight_b (cfg : Config) (side : Side) : Q :=
  match side with LongSpread => neg_target cfg | ShortSpread => target cfg end.

(** The position created by an entry: both quantities are asked for before
    the first order is sent. *)
Definition entered (cfg : Config) (qc : QCAlgorithm) (data : Update) (sym : Symbol)
    (p : Pairs) (m : OLSResults) (side : Side) (s : PairsTrading) : TradingPair :=
  let qty_a := calculate_order_quantity qc (transcript s) (buffers data) sym
                 (weight_a cfg side) in
  let qty_b := calculate_order_quantity qc (transcript s) (buffers data) sym
                 (weight_b cfg side) in
  trading_pair.__init__
    {| ticket_symbol := a p; quantity := qty_a |}
    {| ticket_symbol := b p; quantity := qty_b |}
    (fst (params m)) (snd (params m)) p.(pair.mean_error) p.(pair.epsilon).

Definition entry_events (side : Side) (p : Pairs) (tp : TradingPair) : list Event :=
  let qty_a := quantity (ticket_a tp) in
  let qty_b := quantity (ticket_b tp) in
  [ MarketOrder (a p) qty_a; MarketOrder (b p) qty_b;
    Debug (match side with
           | LongSpread => Long_and_short qty_a (a p) qty_b (b p)
           | ShortSpread => Long_and_short qty_b (b p) qty_a (a p)
           end) ].

(** What the entry loop may do to a state: positions are added at the end
    of the book, for active pairs, and nothing sent is a close. *)
Definition extends (s s' : PairsTrading) : Prop :=
  exists added evs,
    s' = update_book s (_trading_pairs s ++ added) evs
    /\ (forall k, k ∈ map fst added -> k ∈ _selected_pair s)
    /\ NoDup (map fst (_trading_pairs s ++ added))
    /\ (forall e, e ∈ evs -> forall k, is_close k e = false).

(** ** Selection *)

Section SelectionVocabulary.
Variable cfg : Config.
Variable lib : Statistics.
Variable data : Update.

(** The test [correlation < threshold] of the first loop is False: the
    correlation is a number that is at least the threshold, or it is NaN. *)
Definition not_below (threshold : Q) (c : Float) : Prop :=
  match c with
  | NaN => True
  | Num q => threshold <= q
  end.

(** A candidate passes the two filters of [_generate_pairs]. *)
Definition eligible (p : Pairs) : Prop :=
  not_below (_min_corr_threshold cfg) (correlation lib (buffers data) p)
  /\ exists p' sp,
       cointegration_test lib (buffers data) p = (p', Return true)
       /\ stationary_p p' = Some sp /\ sp < 0.05.

(** The same test, as the first loop computes it. *)
Definition survivor (p : Pairs) : bool :=
  negb (Fltb (correlation lib (buffers data) p) (Num (_min_corr_threshold cfg)))
  && match cointegration_test lib (buffers data) p with
     | (p', Return true) =>
         match stationary_p p' with
         | Some sp => Qltb sp 0.05
         | None => false
         end
     | _ => false
     end.

(** The object after the first loop has gone over it. *)
Definition tested (p : Pairs) : Pairs :=
  if Fltb (correlation lib (buffers data) p) (Num (_min_corr_threshold cfg)) then p
  else fst (cointegration_test lib (buffers data) p).

Fixpoint survivors (i : nat) (pairs : list Pairs) : list nat :=
  match pairs with
  | [] => []
  | p :: rest =>
      if survivor p then i :: survivors (S i) rest else survivors (S i) rest
  end.

Definition corr_of (pairs : list Pairs) (k : nat) : Float :=
  match pairs !! k with
  | Some p => correlation lib (buffers data) p
  | None => NaN
  end.

Definition stationary_p_of (pairs : list Pairs) (k : nat) : Q :=
  match pairs !! k with
  | Some p => default 0 (stationary_p p)
  | None => 0
  end.

Definition cap (l : list nat) : list nat :=
  if Nat.ltb (Pos.to_nat (_pair_num cfg)) (length l)
  then firstn (Pos.to_nat (_pair_num cfg)) l else l.

(** The two sorts and the cut between them. *)
Definition ranked (pairs : list Pairs) (selected : list nat) : list nat :=
  Py.sort (stationary_p_of pairs) false
    (cap (Py.sort (corr_of pairs) true selected)).

(** [p'] is [p] after zero or one call, complete or interrupted, of
    [cointegration_test]. *)
Definition evolves (p p' : Pairs) : Prop :=
  p' = p \/ exists r, cointegration_test lib (buffers data) p = (p', r).
End SelectionVocabulary.

(** The state after the closing loop. *)
Definition after_closing (cfg : Config) (data : Update) (s : PairsTrading)
    : PairsTrading :=
  update_book s
    (filter (fun it => closing cfg data (_pair_list s) (_selected_pair s) it = false)
            (_trading_pairs s))
    (flat_map (closing_events cfg data (_pair_list s) (_selected_pair s))
              (_trading_pairs s)).

(** The branch the entry logic takes for the pair behind a reference, read
    off the live model. *)
Definition entry_signal (cfg : Config) (data : Update) (pairs : list Pairs)
    (pair : nat) : option Side :=
  match pairs !! pair with
  | Some p =>
      match model p with
      | Some m => entry_side cfg p (live_error data p m)
      | None => None
      end
  | None => None
  end.

(** A platform whose sizing follows the sign of the weight it is given. *)
Definition sign_faithful (qc : QCAlgorithm) : Prop :=
  forall tr quotes i w,
    (0 < w -> 0 < calculate_order_quantity qc tr quotes i w)
    /\ (w < 0 -> calculate_order_quantity qc tr quotes i w < 0).

(** ** Well-formed engine states *)

Record wf (s : PairsTrading) : Prop := {
  wf_book_nodup : NoDup (open_pairs s);
  wf_book_valid : forall k, k ∈ open_pairs s -> is_Some (_pair_list s !! k);
  wf_selected : forall k, k ∈ _selected_pair s ->
    exists p m, _pair_list s !! k = Some p /\ model p = Some m;
  wf_symbol : _pair_list s <> [] -> _symbol_data s <> []
}.

(** No statistics routine raises. *)
Definition quiet (lib : Statistics) : Prop :=
  (forall x y, exists r, coint lib x y = Return r)
  /\ (forall df, exists r, ols_fit lib df = Return r)
  /\ (forall x, exists r, adfuller lib x = Return r).

(** ** Accounts of orders and positions *)

(** The two instruments of a candidate. *)
Definition instruments (p : Pairs) : Symbol * Symbol := (a p, b p).

(** Quantity ordered on [sym] by one call to the platform. *)
Definition ordered (sym : Symbol) (e : Event) : Q :=
  match e with
  | MarketOrder i q => if String.eqb i sym then q else 0
  | Debug _ => 0
  end.

(** Net quantity ordered on [sym] over a transcript. *)
Definition net (sym : Symbol) (evs : list Event) : Q :=
  Qsum (map (ordered sym) evs).

Definition leg (sym : Symbol) (t : OrderTicket) : Q :=
  if String.eqb (ticket_symbol t) sym then quantity t else 0.

(** Quantity of [sym] recorded in the tickets of one position. *)
Definition position_on (sym : Symbol) (it : nat * TradingPair) : Q :=
  leg sym (ticket_a (snd it)) + leg sym (ticket_b (snd it)).

(** Quantity of [sym] recorded in the tickets of the open positions. *)
Definition held (sym : Symbol) (d : list (nat * TradingPair)) : Q :=
  Qsum (map (position_on sym) d).

(** The tickets of every position are on the instruments of its pair. *)
Definition tickets_match (pairs : list Pairs) (d : list (nat * TradingPair)) : Prop :=
  forall k tp p, (k, tp) ∈ d -> pairs !! k = Some p ->
    ticket_symbol (ticket_a tp) = a p /\ ticket_symbol (ticket_b tp) = b p.

(** One of the statistics routines called by [cointegration_test] on [p]
    raises [e]. *)
Definition raised_by (lib : Statistics) (data : Update) (p : Pairs) (e : Exception)
    : Prop :=
  coint lib (series (buffers data (a p))) (series (buffers data (b p))) = Raise e
  \/ ols_fit lib (_data_frame (buffers data) p) = Raise e
  \/ exists fit, ols_fit lib (_data_frame (buffers data) p) = Return fit
               /\ adfuller lib (resid fit) = Raise e.

(** A frame indexed by strictly increasing times. *)
Definition increasing (f : list (Z * Q)) : Prop :=
  StronglySorted Z.lt (map fst f).

(** ** Sample data *)

Module sample.

(** A square root that is exact on squares of fractions. *)
Definition rational_sqrt (x : Q) : Q :=
  let r := Qred x in Z.sqrt (Qnum r) # Pos.sqrt (Qden r).

Definition frame : list (Z * Q) := [(1%Z, 1); (2%Z, 2); (3%Z, 3)].

Definition instrument (close : Q) : SymbolData :=
  {| is_ready := true; prices_0_close := close;
     series := [1; 2; 3]; data_frame := frame |}.

(** Instrument "A" closes at [pa], every other one at [pb]. *)
Definition quotes (pa pb : Q) : Symbol -> SymbolData :=
  fun s => instrument (if String.eqb s "A" then pa else pb).

Definition AB : Pairs := pair.__init__ "A" "B".

Definition fit : OLSResults := {| params := (0, 1); resid := [1; -1] |}.

(** Every test passes; the residuals have mean 0 and deviation 1. *)
Definition lib : Statistics :=
  {| sqrt := rational_sqrt;
     coint := fun _ _ => Return (-4, 0.01);
     ols_fit := fun _ => Return fit;
     adfuller := fun _ => Return (-4, 0.01) |}.

(** The residual test raises. *)
Definition lib_adf_raises : Statistics :=
  {| sqrt := rational_sqrt;
     coint := fun _ _ => Return (-4, 0.01);
     ols_fit := fun _ => Return fit;
     adfuller := fun _ => Raise StatsError |}.

(** The regression fits exactly: every residual is 0. *)
Definition exact_fit : OLSResults := {| params := (0, 1); resid := [0; 0] |}.

Definition lib_exact_fit : Statistics :=
  {| sqrt := rational_sqrt;
     coint := fun _ _ => Return (-4, 0.01);
     ols_fit := fun _ => Return exact_fit;
     adfuller := fun _ => Return (-4, 0.01) |}.

(** The class attributes, on the two instruments "A" and "B". *)
Definition cfg : Config :=
  {| _symbols := ["A"; "B"]%string;
     _num_bar := _num_bar class_attributes;
     _interval := _interval class_attributes;
     _pair_num := _pair_num class_attributes;
     _leverage := _leverage class_attributes;
     _min_corr_threshold := _min_corr_threshold class_attributes;
     _open_size := _open_size class_attributes;
     _close_size := _close_size class_attributes;
     _stop_loss_size := _stop_loss_size class_attributes |}.

(** A platform that turns a weight [w] into [1000 * w] shares. *)
Definition qc : QCAlgorithm :=
  {| calculate_order_quantity := fun _ _ _ w => Qred (w * 1000) |}.

(** The update at minute [t] in which "A" closes at [pa] and "B" at 0:
    with the regression of [fit], the error of the pair is [pa]. *)
Definition tick (t : Z) (pa : Q) : Update :=
  {| time := t; buffers := quotes pa 0 |}.

(** A platform with lots of 10 shares for "A" and of 1000 for the others. *)
Definition qc_lots : QCAlgorithm :=
  {| calculate_order_quantity :=
       fun _ _ i w => Qred (w * (if String.eqb i "A" then 10 else 1000)) |}.

Definition start : PairsTrading := initialize cfg (quotes 0 0).

(** The pair "A:B" once [lib] has fitted it: mean_error 0, epsilon 1. *)
Definition live : Pairs :=
  Eval vm_compute in fitted lib AB fit (-4, 0.01).

(** [start] after the updates with errors 0 and 1: the pair is active
    and flat. *)
Definition flat : PairsTrading :=
  {| _symbol_data := ["A"; "B"]%string;
     _pair_list := [live];
     _selected_pair := [0%nat];
     _trading_pairs := [];
     _regenerate_time := 7201;
     transcript := [] |}.

(** The position opened by the third update, with error 2.5. *)
Definition short : TradingPair :=
  trading_pair.__init__
    {| ticket_symbol := "A"; quantity := -50 |}
    {| ticket_symbol := "B"; quantity := 50 |}
    0 1 live.(pair.mean_error) live.(pair.epsilon).

Definition holding : PairsTrading :=
  {| _symbol_data := ["A"; "B"]%string;
     _pair_list := [live];
     _selected_pair := [0%nat];
     _trading_pairs := [(0%nat, short)];
     _regenerate_time := 7201;
     transcript := [ MarketOrder "A" (-50); MarketOrder "B" 50;
                     Debug (Long_and_short 50 "B" (-50) "A") ] |}.

(** An instrument whose close has not moved over the window. *)
Definition still : SymbolData :=
  {| is_ready := true; prices_0_close := 5;
     series := [5; 5; 5]; data_frame := [(1%Z, 5); (2%Z, 5); (3%Z, 5)] |}.

(** The update at minute [t] in which "A" has not moved and the other
    instruments are as in [quotes 0 0]. *)
Definition tick_still (t : Z) : Update :=
  {| time := t;
     buffers := fun s => if String.eqb s "A" then still else instrument 0 |}.

(** The two series are no longer cointegrated. *)
Definition lib_unrelated : Statistics :=
  {| sqrt := rational_sqrt;
     coint := fun _ _ => Return (-1, 0.5);
     ols_fit := fun _ => Return fit;
     adfuller := fun _ => Return (-4, 0.01) |}.

End sample.

(** * Properties *)

(** ** Comparisons *)

Lemma Qltb_lt (x y : Q) : Qltb x y = true <-> x < y.
Proof.
  unfold Qltb. rewrite negb_true_iff. split; intros H.
  - apply Qnot_le_lt. intros Hle. apply Qle_bool_iff in Hle. congruence.
  - destruct (Qle_bool y x) eqn:E; [|reflexivity].
    apply Qle_bool_iff in E. exfalso. exact (Qlt_not_le _ _ H E).
Qed.

Lemma Qltb_ge (x y : Q) : Qltb x y = false <-> y <= x.
Proof.
  unfold Qltb. rewrite negb_false_iff. apply Qle_bool_iff.
Qed.

(** The first loop's test on a correlation that may be NaN. *)
Lemma Fltb_below (threshold : Q) (c : Float) :
  Fltb c (Num threshold) = true <-> exists q, c = Num q /\ q < threshold.
Proof.
  destruct c as [|q]; cbn.
  - split; [discriminate|]. intros (q & Hq & _). discriminate.
  - rewrite Qltb_lt. split; [eauto|]. intros (q' & [= <-] & H). exact H.
Qed.

Lemma Fltb_not_below (threshold : Q) (c : Float) :
  Fltb c (Num threshold) = false <-> not_below threshold c.
Proof.
  destruct c as [|q]; cbn; [tauto|]. apply Qltb_ge.
Qed.

(** Multiplication of fractions commutes on the nose, not only up to [==]. *)
Lemma Qmult_comm_eq (x y : Q) : x * y = y * x.
Proof.
  destruct x as [xn xd], y as [yn yd]. unfold Qmult. cbn [Qnum Qden].
  f_equal; [apply Z.mul_comm | apply Pos.mul_comm].
Qed.

(** ** Correlation *)

Section Correlation.
Variable lib : Statistics.

Lemma concat_nil_r (x : list (Z * Q)) :
  pd.concat x [] = map (fun r => (fst r, (Some (snd r), None))) x.
Proof. destruct x as [|[t v] x]; reflexivity. Qed.

Lemma concat_swap (x y : list (Z * Q)) :
  pd.concat y x = map swap_opt_row (pd.concat x y).
Proof.
  revert y. induction x as [|[t1 v1] x IHx]; intros y.
  - rewrite concat_nil_r. cbn [pd.concat]. rewrite map_map. reflexivity.
  - induction y as [|[t2 v2] y IHy].
    + cbn. f_equal. rewrite map_map. reflexivity.
    + cbn [pd.concat]. rewrite (Z.compare_antisym t1 t2).
      destruct (t1 ?= t2)%Z eqn:E; cbn [CompOpp map].
      * apply Z.compare_eq in E. subst t2.
        unfold swap_opt_row at 1. cbn [fst snd]. f_equal. apply IHx.
      * unfold swap_opt_row at 1. cbn [fst snd]. f_equal.
        rewrite <- IHx. reflexivity.
      * unfold swap_opt_row at 1. cbn [fst snd]. f_equal. exact IHy.
Qed.

Lemma dropna_swap (df : list (Z * (option Q * option Q))) :
  pd.dropna (map swap_opt_row df) = map swap_row (pd.dropna df).
Proof.
  induction df as [|[t [[u|] [v|]]] df IH]; cbn; rewrite ?IH; reflexivity.
Qed.

Lemma zip_with_Qmult_comm (xs ys : list Q) :
  zip_with Qmult xs ys = zip_with Qmult ys xs.
Proof.
  revert ys. induction xs as [|x xs IH]; intros [|y ys]; cbn; try reflexivity.
  rewrite (Qmult_comm_eq x y), IH. reflexivity.
Qed.

Lemma pearson_sym (xs ys : list Q) :
  length xs = length ys -> pd.pearson lib xs ys = pd.pearson lib ys xs.
Proof.
  intros Hlen. unfold pd.pearson. cbv zeta. rewrite Hlen.
  rewrite (zip_with_Qmult_comm (map _ xs) (map _ ys)).
  set (vx := Qsum (zip_with Qmult (map _ xs) (map _ xs))).
  set (vy := Qsum (zip_with Qmult (map _ ys) (map _ ys))).
  rewrite (Qmult_comm_eq vx vy). reflexivity.
Qed.

Lemma data_frame_swap (buffers : Symbol -> SymbolData) (x y : Symbol) :
  _data_frame buffers (pair.__init__ y x)
  = map swap_row (_data_frame buffers (pair.__init__ x y)).
Proof.
  unfold _data_frame. cbn [a b pair.__init__].
  rewrite concat_swap. apply dropna_swap.
Qed.

(** C10.  The correlation of a pair does not depend on which of its two
    instruments comes first: the pair built from [(x, y)] and the pair
    built from [(y, x)] see the same synchronised rows (rows where one of
    the two series has no observation are dropped in both), and Pearson's
    coefficient of these rows is the same: the same number, or NaN for
    both. *)
Theorem correlation_symmetric (buffers : Symbol -> SymbolData) (x y : Symbol) :
  _data_frame buffers (pair.__init__ y x)
    = map swap_row (_data_frame buffers (pair.__init__ x y))
  /\ correlation lib buffers (pair.__init__ x y)
     = correlation lib buffers (pair.__init__ y x).
Proof.
  split; [apply data_frame_swap|].
  unfold correlation. rewrite data_frame_swap.
  unfold pd.corr, pd.iloc. cbn [nth].
  rewrite !map_map. cbn [swap_row fst snd].
  apply pearson_sym. rewrite !length_map. reflexivity.
Qed.

End Correlation.

(** ** The cointegration test *)

Section CointegrationTest.
Variable lib : Statistics.
Variable buffers : Symbol -> SymbolData.

(** C9, as the code has it.  [cointegration_test] answers false, and
    leaves the object as it was, whenever the cointegration p-value is at
    least 0.05, and only then.  It answers true only once the regression
    and the residual test have both been computed, and then model,
    stationary_p, mean_error and epsilon are those of this run.  There is no
    handler: a statistics routine that raises makes the call raise; in that
    case mean_error, epsilon and stationary_p keep their values, and the
    model does as well unless it is the residual test that raised, which
    happens after the new regression has been stored. *)
Theorem cointegration_test_outcomes (self : Pairs) :
  let sa := series (buffers (a self)) in
  let sb := series (buffers (b self)) in
  let r := cointegration_test lib buffers self in
  (forall cv, coint lib sa sb = Return cv -> 0.05 <= snd cv ->
     r = (self, Return false))
  /\ (forall self', r = (self', Return false) ->
        self' = self /\ exists cv, coint lib sa sb = Return cv /\ 0.05 <= snd cv)
  /\ (forall self', r = (self', Return true) ->
        exists cv fit adf,
          coint lib sa sb = Return cv /\ snd cv < 0.05
          /\ ols_fit lib (_data_frame buffers self) = Return fit
          /\ adfuller lib (resid fit) = Return adf
          /\ self' = fitted lib self fit adf)
  /\ (forall self' e, r = (self', Raise e) ->
        self'.(pair.mean_error) = self.(pair.mean_error)
        /\ self'.(pair.epsilon) = self.(pair.epsilon)
        /\ stationary_p self' = stationary_p self
        /\ (self' = self
            \/ exists fit, ols_fit lib (_data_frame buffers self) = Return fit
                  /\ adfuller lib (resid fit) = Raise e
                  /\ model self' = Some fit)).
Proof.
  cbv zeta. unfold cointegration_test.
  destruct (coint lib _ _) as [cv|e0] eqn:Hc.
  - destruct (Qle_bool 0.05 (snd cv)) eqn:Hp.
    + apply Qle_bool_iff in Hp.
      split; [intros cv' [= <-] _; reflexivity|].
      split; [intros self' [= <-]; split; [reflexivity|eauto]|].
      split; intros; discriminate.
    + assert (Hlt : snd cv < 0.05).
      { apply Qltb_lt. unfold Qltb. rewrite Hp. reflexivity. }
      split.
      { intros cv' [= <-] Hge. exfalso. exact (Qlt_not_le _ _ Hlt Hge). }
      destruct (ols_fit lib _) as [fit|e1] eqn:Ho.
      * destruct (adfuller lib (resid fit)) as [adf|e2] eqn:Ha.
        -- split; [intros; discriminate|].
           split; [|intros; discriminate].
           intros self' [= <-]. exists cv, fit, adf. repeat split; auto.
        -- split; [intros; discriminate|].
           split; [intros; discriminate|].
           intros self' e [= <- <-]. cbn. repeat split; auto.
           right. exists fit. auto.
      * split; [intros; discriminate|].
        split; [intros; discriminate|].
        intros self' e [= <- <-]. repeat split; auto.
  - split; [intros; discriminate|].
    split; [intros; discriminate|].
    split; [intros; discriminate|].
    intros self' e [= <- <-]. repeat split; auto.
Qed.

End CointegrationTest.

(** The run on which C9, as the spec words it, fails: the residual test
    raises, the call raises instead of answering false, and the object
    already carries the new regression. *)
Lemma cointegration_test_not_fail_closed :
  let r := cointegration_test sample.lib_adf_raises (sample.quotes 1 1) sample.AB in
  adfuller sample.lib_adf_raises (resid sample.fit) = Raise StatsError
  /\ r <> (sample.AB, Return false)
  /\ snd r = Raise StatsError
  /\ model (fst r) = Some sample.fit
  /\ model sample.AB = None.
Proof.
  cbv zeta. repeat split. intros H. discriminate H.
Qed.

(** The complete run of the test on the sample pair. *)
Lemma cointegration_test_outcomes_witness :
  cointegration_test sample.lib (sample.quotes 1 1) sample.AB
  = (fitted sample.lib sample.AB sample.fit (-4, 0.01), Return true)
  /\ exists cv fit adf,
       coint sample.lib [1; 2; 3] [1; 2; 3] = Return cv /\ snd cv < 0.05
       /\ ols_fit sample.lib (_data_frame (sample.quotes 1 1) sample.AB) = Return fit
       /\ adfuller sample.lib (resid fit) = Return adf
       /\ fitted sample.lib sample.AB sample.fit (-4, 0.01)
          = fitted sample.lib sample.AB fit adf.
Proof.
  split; [reflexivity|].
  exact (proj1 (proj2 (proj2
    (cointegration_test_outcomes sample.lib (sample.quotes 1 1) sample.AB)))
    _ eq_refl).
Defined.

(** ** Bookkeeping *)

Lemma update_book_id (s : PairsTrading) : update_book s (_trading_pairs s) [] = s.
Proof. destruct s. unfold update_book. cbn. rewrite app_nil_r. reflexivity. Qed.

Lemma update_book_twice (s : PairsTrading) d1 e1 d2 e2 :
  update_book (update_book s d1 e1) d2 e2 = update_book s d2 (e1 ++ e2).
Proof. unfold update_book. cbn. rewrite app_assoc. reflexivity. Qed.

Lemma emitted_update_book (s : PairsTrading) d evs :
  emitted s (update_book s d evs) = evs.
Proof. unfold emitted. cbn. apply drop_app_length. Qed.

Lemma emitted_refl (s : PairsTrading) : emitted s s = [].
Proof. unfold emitted. apply drop_all. Qed.

Lemma contains_elem_of {V} (d : list (nat * V)) (k : nat) :
  Py.contains d k = true <-> k ∈ map fst d.
Proof.
  unfold Py.contains. rewrite existsb_exists. split.
  - intros (x & Hin & Heq). apply Nat.eqb_eq in Heq. subst x.
    apply list_elem_of_In. exact Hin.
  - intros Hin. exists k. split; [apply list_elem_of_In; exact Hin|apply Nat.eqb_refl].
Qed.

Lemma active_elem_of (s : PairsTrading) (k : nat) :
  active s k = true <-> k ∈ _selected_pair s.
Proof.
  unfold active. rewrite existsb_exists. split.
  - intros (x & Hin & Heq). apply Nat.eqb_eq in Heq. subst x.
    apply list_elem_of_In. exact Hin.
  - intros Hin. exists k. split; [apply list_elem_of_In; exact Hin|apply Nat.eqb_refl].
Qed.

Lemma pop_app {V} (done l : list (nat * V)) (k : nat) (v : V) :
  k ∉ map fst done -> Py.pop (done ++ (k, v) :: l) k = Some (done ++ l).
Proof.
  induction done as [|[k' v'] done IH]; intros Hk; cbn.
  - rewrite Nat.eqb_refl. reflexivity.
  - cbn in Hk. apply not_elem_of_cons in Hk as [Hne Hk].
    destruct (Nat.eqb_spec k k') as [->|_]; [congruence|].
    rewrite (IH Hk). reflexivity.
Qed.

Lemma pop_keys {V} (d d' : list (nat * V)) (k : nat) :
  Py.pop d k = Some d' ->
  exists done v l, d = done ++ (k, v) :: l /\ d' = done ++ l /\ k ∉ map fst done.
Proof.
  revert d'. induction d as [|[k' v'] d IH]; intros d' H; cbn in H; [discriminate|].
  destruct (Nat.eqb_spec k k') as [->|Hne].
  - injection H as <-. exists [], v', d. repeat split; auto. cbn. apply not_elem_of_nil.
  - destruct (Py.pop d k) as [d''|] eqn:E; [|discriminate].
    injection H as <-. destruct (IH _ eq_refl) as (done & v & l & -> & -> & Hk).
    exists ((k', v') :: done), v, l. repeat split; auto.
    cbn. apply not_elem_of_cons. auto.
Qed.

Lemma pop_elem_of {V} (d : list (nat * V)) (k : nat) :
  k ∈ map fst d -> is_Some (Py.pop d k).
Proof.
  induction d as [|[k' v'] d IH]; cbn; intros H.
  - apply elem_of_nil in H. contradiction.
  - destruct (Nat.eqb_spec k k') as [->|Hne]; [eauto|].
    apply elem_of_cons in H as [->|H]; [congruence|].
    destruct (IH H) as [d'' ->]. eauto.
Qed.

Lemma setitem_fresh {V} (d : list (nat * V)) (k : nat) (v : V) :
  k ∉ map fst d -> Py.setitem d k v = d ++ [(k, v)].
Proof.
  induction d as [|[k' v'] d IH]; cbn; intros H; [reflexivity|].
  apply not_elem_of_cons in H as [Hne H].
  destruct (Nat.eqb_spec k k') as [->|_]; [congruence|].
  rewrite (IH H). reflexivity.
Qed.

Lemma setitem_keys {V} (d : list (nat * V)) (k : nat) (v : V) :
  map fst (Py.setitem d k v)
  = if Py.contains d k then map fst d else map fst d ++ [k].
Proof.
  destruct (Py.contains d k) eqn:E.
  - apply contains_elem_of in E.
    induction d as [|[k' v'] d IH]; cbn in *.
    + apply elem_of_nil in E. contradiction.
    + destruct (Nat.eqb_spec k k') as [->|Hne]; [reflexivity|].
      apply elem_of_cons in E as [->|E]; [congruence|].
      cbn. rewrite (IH E). reflexivity.
  - rewrite setitem_fresh.
    + rewrite map_app. reflexivity.
    + intros H. apply contains_elem_of in H. congruence.
Qed.

(** ** The closing loop *)

Section Closing.
Variable cfg : Config.
Variable data : Update.

Lemma exits_spec (tp : TradingPair) (error : Q) :
  exits cfg tp error = true <-> exit_rule cfg tp error.
Proof.
  unfold exits, exit_rule, exit_long, exit_short, long_spread, short_spread.
  cbv zeta.
  rewrite orb_true_iff, !andb_true_iff, !orb_true_iff, !Qltb_lt.
  reflexivity.
Qed.

Lemma liquidate_spec (s : PairsTrading) (pair : nat) (p : Pairs)
    (tp : TradingPair) (d : list (nat * TradingPair)) :
  Py.pop (_trading_pairs s) pair = Some d ->
  liquidate pair p tp s = (update_book s d (close_events p pair tp), Return tt).
Proof.
  intros H. unfold liquidate, bind, market_order, pop_trading_pair, debug.
  cbn. rewrite H. unfold update_book, emit, set_trading_pairs, close_events. cbn.
  rewrite <- !app_assoc. reflexivity.
Qed.

Lemma close_position_spec (s : PairsTrading) (pair : nat) (p : Pairs)
    (tp : TradingPair) :
  _pair_list s !! pair = Some p ->
  close_position cfg data (pair, tp) s
  = if closing cfg data (_pair_list s) (_selected_pair s) (pair, tp)
    then liquidate pair p tp s else (s, Return tt).
Proof.
  intros Hp. unfold close_position, closing, bind, get, deref. cbn [fst snd].
  rewrite Hp. unfold exits. cbv zeta.
  destruct (existsb (Nat.eqb pair) (_selected_pair s)); cbn [negb orb]; [|reflexivity].
  destruct (Qltb 0 (quantity (ticket_a tp)) && _)%bool; cbn [orb]; [reflexivity|].
  destruct (Qltb (quantity (ticket_a tp)) 0 && _)%bool; reflexivity.
Qed.

(** The loop over a snapshot [l] of the book, started when the book is
    [done ++ l]: the entries that close are removed, the others stay. *)
Lemma close_loop_spec (l done : list (nat * TradingPair)) (s : PairsTrading) :
  _trading_pairs s = done ++ l ->
  NoDup (map fst (done ++ l)) ->
  (forall k, k ∈ map fst l -> is_Some (_pair_list s !! k)) ->
  for_each (close_position cfg data) l s
  = (update_book s
       (done ++ filter (fun it => closing cfg data (_pair_list s) (_selected_pair s) it = false) l)
       (flat_map (closing_events cfg data (_pair_list s) (_selected_pair s)) l),
     Return tt).
Proof.
  revert done s. induction l as [|[k tp] l IH]; intros done s Hd Hnd Hv.
  - cbn. unfold ret. rewrite <- Hd, update_book_id. reflexivity.
  - cbn [for_each]. unfold bind at 1.
    destruct (Hv k) as [p Hp]; [cbn; apply elem_of_cons; auto|].
    rewrite (close_position_spec _ _ _ _ Hp).
    cbn [flat_map]. unfold closing_events at 1. cbn [fst snd]. rewrite Hp.
    rewrite filter_cons.
    destruct (closing cfg data (_pair_list s) (_selected_pair s) (k, tp)) eqn:Hc.
    + assert (Hk : k ∉ map fst done).
      { rewrite map_app in Hnd. apply NoDup_app in Hnd as (_ & Hdis & _).
        intros Hin. apply (Hdis _ Hin). cbn. apply elem_of_cons. auto. }
      rewrite (liquidate_spec _ _ _ _ (done ++ l)).
      2:{ rewrite Hd. apply pop_app. exact Hk. }
      rewrite (IH done); cbn [update_book _trading_pairs _pair_list _selected_pair].
      * rewrite update_book_twice. destruct (decide (true = false)); [discriminate|].
        reflexivity.
      * reflexivity.
      * rewrite !map_app in *. cbn in Hnd.
        apply NoDup_app in Hnd as (H1 & H2 & H3).
        apply NoDup_cons in H3 as [_ H3].
        apply NoDup_app. repeat split; auto.
        intros x Hx Hx'. apply (H2 x Hx). apply elem_of_cons. auto.
      * intros k' Hk'. apply Hv. cbn. apply elem_of_cons. auto.
    + rewrite (IH (done ++ [(k, tp)])).
      * destruct (decide (false = false)); [|congruence].
        rewrite <- app_assoc. reflexivity.
      * rewrite <- app_assoc. exact Hd.
      * rewrite <- app_assoc. exact Hnd.
      * intros k' Hk'. apply Hv. cbn. apply elem_of_cons. auto.
Qed.

Lemma close_positions_spec (s : PairsTrading) :
  NoDup (open_pairs s) ->
  (forall k, k ∈ open_pairs s -> is_Some (_pair_list s !! k)) ->
  close_positions cfg data s
  = (update_book s
       (filter (fun it => closing cfg data (_pair_list s) (_selected_pair s) it = false)
               (_trading_pairs s))
       (flat_map (closing_events cfg data (_pair_list s) (_selected_pair s))
                 (_trading_pairs s)),
     Return tt).
Proof.
  intros Hnd Hv. unfold close_positions, bind, get.
  apply (close_loop_spec (_trading_pairs s) [] s); auto.
Qed.

End Closing.

(** ** The entry loop *)

Section Entry.
Variable cfg : Config.
Variable qc : QCAlgorithm.
Variable data : Update.

Lemma entry_side_long (p : Pairs) (error : Q) :
  entry_side cfg p error = Some LongSpread <-> enter_long cfg p error.
Proof.
  unfold entry_side, enter_long.
  destruct (Qltb error _) eqn:E.
  - apply Qltb_lt in E. split; auto.
  - apply Qltb_ge in E. split.
    + destruct (Qltb _ error); discriminate.
    + intros H. exfalso. exact (Qlt_not_le _ _ H E).
Qed.

Lemma entry_side_short (p : Pairs) (error : Q) :
  entry_side cfg p error = Some ShortSpread
  <-> enter_short cfg p error /\ ~ enter_long cfg p error.
Proof.
  unfold entry_side, enter_long, enter_short.
  destruct (Qltb error _) eqn:E.
  - apply Qltb_lt in E. split; [discriminate|]. intros [_ H]. contradiction.
  - apply Qltb_ge in E.
    destruct (Qltb _ error) eqn:E'.
    + apply Qltb_lt in E'. split; auto. intros _. split; auto.
      intros H. exact (Qlt_not_le _ _ H E).
    + apply Qltb_ge in E'. split; [discriminate|].
      intros [H _]. exfalso. exact (Qlt_not_le _ _ H E').
Qed.

Lemma entry_side_none (p : Pairs) (error : Q) :
  entry_side cfg p error = None
  <-> ~ enter_long cfg p error /\ ~ enter_short cfg p error.
Proof.
  unfold entry_side, enter_long, enter_short.
  destruct (Qltb error _) eqn:E.
  - apply Qltb_lt in E. split; [discriminate|]. intros [H _]. contradiction.
  - apply Qltb_ge in E.
    destruct (Qltb _ error) eqn:E'.
    + apply Qltb_lt in E'. split; [discriminate|]. intros [_ H]. contradiction.
    + apply Qltb_ge in E'. split; auto. intros _.
      split; intros H; [exact (Qlt_not_le _ _ H E)|exact (Qlt_not_le _ _ H E')].
Qed.

Lemma open_position_spec (s : PairsTrading) (pair : nat) (p : Pairs)
    (m : OLSResults) (sym : Symbol) :
  _pair_list s !! pair = Some p ->
  model p = Some m ->
  open_position cfg qc data (Some sym) pair s
  = if Py.contains (_trading_pairs s) pair then (s, Return tt)
    else match entry_side cfg p (live_error data p m) with
         | Some side =>
             let tp := entered cfg qc data sym p m side s in
             (update_book s (Py.setitem (_trading_pairs s) pair tp)
                (entry_events side p tp), Return tt)
         | None => (s, Return tt)
         end.
Proof.
  intros Hp Hm.
  unfold open_position, bind, deref, getattr, get. rewrite Hp, Hm.
  unfold ret at 1. cbn iota beta.
  destruct (Py.contains (_trading_pairs s) pair); cbn [negb]; [reflexivity|].
  unfold entry_side.
  destruct (Qltb (live_error data p m) _); [|destruct (Qltb _ (live_error data p m))];
    unfold ret, order_quantity, market_order, record_position, modify, debug,
      entered, entry_events, update_book, emit, set_trading_pairs,
      trading_pair.__init__, weight_a, weight_b;
    cbn; rewrite <- ?app_assoc; reflexivity.
Qed.

Lemma extends_refl (s : PairsTrading) : NoDup (open_pairs s) -> extends s s.
Proof.
  intros H. exists [], []. rewrite app_nil_r, update_book_id.
  repeat split; auto.
  - cbn. intros k Hk. apply elem_of_nil in Hk. contradiction.
  - intros e He. apply elem_of_nil in He. contradiction.
Qed.

Lemma extends_trans (s1 s2 s3 : PairsTrading) :
  extends s1 s2 -> extends s2 s3 -> extends s1 s3.
Proof.
  intros (a1 & e1 & -> & Hs1 & Hn1 & Hc1) (a2 & e2 & -> & Hs2 & Hn2 & Hc2).
  cbn in *. exists (a1 ++ a2), (e1 ++ e2).
  rewrite update_book_twice, <- app_assoc. repeat split; auto.
  - intros k Hk. rewrite map_app in Hk. apply elem_of_app in Hk as [Hk|Hk]; auto.
  - rewrite app_assoc. exact Hn2.
  - intros e He k. apply elem_of_app in He as [He|He]; auto.
Qed.

Lemma open_position_extends (s : PairsTrading) (pair : nat) (p : Pairs)
    (m : OLSResults) (sym : Symbol) :
  _pair_list s !! pair = Some p ->
  model p = Some m ->
  pair ∈ _selected_pair s ->
  NoDup (open_pairs s) ->
  exists s', open_position cfg qc data (Some sym) pair s = (s', Return tt)
             /\ extends s s'
             /\ forall k, k ∈ open_pairs s'
                  <-> k ∈ open_pairs s
                      \/ (k = pair /\ is_Some (entry_signal cfg data (_pair_list s) k)).
Proof.
  intros Hp Hm Hsel Hnd. rewrite (open_position_spec _ _ _ _ _ Hp Hm).
  assert (Hsig : entry_signal cfg data (_pair_list s) pair
                 = entry_side cfg p (live_error data p m)).
  { unfold entry_signal. rewrite Hp, Hm. reflexivity. }
  destruct (Py.contains (_trading_pairs s) pair) eqn:Hc.
  { eexists; split; [reflexivity|]. split; [apply extends_refl; exact Hnd|].
    intros k. split; [auto|]. intros [H|[-> _]]; [exact H|].
    apply contains_elem_of. exact Hc. }
  destruct (entry_side cfg p (live_error data p m)) as [side|].
  2:{ eexists; split; [reflexivity|]. split; [apply extends_refl; exact Hnd|].
      intros k. split; [auto|]. intros [H|[-> H]]; [exact H|].
      rewrite Hsig in H. destruct H. discriminate. }
  cbv zeta. eexists; split; [reflexivity|].
  assert (Hk : pair ∉ map fst (_trading_pairs s)).
  { intros H. apply contains_elem_of in H. congruence. }
  rewrite (setitem_fresh _ _ _ Hk). split.
  - eexists _, _. split; [reflexivity|]. repeat split.
    + cbn. intros k Hk'. apply list_elem_of_singleton in Hk'. subst k. exact Hsel.
    + rewrite map_app. cbn. apply NoDup_app. repeat split; auto.
      * intros x Hx Hx'. apply list_elem_of_singleton in Hx'. subst x. contradiction.
      * apply NoDup_singleton.
    + intros e He k. unfold entry_events in He. cbv zeta in He.
      repeat (apply elem_of_cons in He as [->|He]; [destruct side; reflexivity|]).
      apply elem_of_nil in He. contradiction.
  - intros k. unfold open_pairs. cbn. rewrite map_app, elem_of_app. cbn.
    rewrite list_elem_of_singleton. split; intros [H|H]; auto.
    + right. subst k. rewrite Hsig. eauto.
    + right. tauto.
Qed.

Lemma open_loop_extends (l : list nat) (s : PairsTrading) (sym : Symbol) :
  (forall k, k ∈ l -> k ∈ _selected_pair s) ->
  (forall k, k ∈ _selected_pair s ->
     exists p m, _pair_list s !! k = Some p /\ model p = Some m) ->
  NoDup (open_pairs s) ->
  exists s', for_each (open_position cfg qc data (Some sym)) l s = (s', Return tt)
             /\ extends s s'
             /\ forall k, k ∈ open_pairs s'
                  <-> k ∈ open_pairs s
                      \/ (k ∈ l /\ is_Some (entry_signal cfg data (_pair_list s) k)).
Proof.
  revert s. induction l as [|k l IH]; intros s Hl Hsel Hnd.
  - eexists; split; [reflexivity|]. split; [apply extends_refl; exact Hnd|].
    intros k. split; [auto|]. intros [H|[H _]]; [exact H|].
    apply elem_of_nil in H. contradiction.
  - destruct (Hsel k) as (p & m & Hp & Hm); [apply Hl, elem_of_cons; auto|].
    destruct (open_position_extends s k p m sym Hp Hm) as (s1 & E1 & X1 & K1); auto.
    { apply Hl, elem_of_cons; auto. }
    cbn [for_each]. unfold bind at 1. rewrite E1.
    pose proof X1 as (added & evs & Es1 & Ha & Hn & Hc).
    destruct (IH s1) as (s2 & E2 & X2 & K2).
    + subst s1. cbn. intros k' Hk'. apply Hl, elem_of_cons; auto.
    + subst s1. cbn. exact Hsel.
    + subst s1. exact Hn.
    + exists s2. split; [exact E2|]. split; [eapply extends_trans; eauto|].
      assert (Hpl : _pair_list s1 = _pair_list s) by (subst s1; reflexivity).
      intros k'. rewrite K2, K1, Hpl, elem_of_cons. split.
      * intros [[H|[-> H]]|[H1 H2]]; auto.
      * intros [H|[[->|H1] H2]]; auto.
Qed.

End Entry.

(** ** Sorting *)

Section Rearranging.
Context {A K : Type} `{Less K} (key : A -> K).

Lemma insert_by_perm (x : A) (l : list A) : Py.insert_by key x l ≡ₚ x :: l.
Proof.
  induction l as [|y l IH]; cbn; [reflexivity|].
  destruct (less (key y) (key x)); [|reflexivity].
  rewrite IH. apply Permutation_swap.
Qed.

Lemma sort_by_perm (l : list A) : Py.sort_by key l ≡ₚ l.
Proof.
  induction l as [|x l IH]; cbn; [reflexivity|].
  rewrite insert_by_perm, IH. reflexivity.
Qed.

Lemma sort_perm (reverse : bool) (l : list A) : Py.sort key reverse l ≡ₚ l.
Proof.
  unfold Py.sort. destruct reverse; [|apply sort_by_perm].
  rewrite <- Permutation_rev, sort_by_perm, <- Permutation_rev. reflexivity.
Qed.

(** Sorting [(key x, x)] on the first component and forgetting the keys
    is sorting on [key]. *)
Lemma insert_decorated (x : A) (l : list A) :
  Py.insert_by fst (key x, x) (map (fun y => (key y, y)) l)
  = map (fun y => (key y, y)) (Py.insert_by key x l).
Proof.
  induction l as [|y l IH]; cbn; [reflexivity|].
  destruct (less (key y) (key x)); cbn; [|reflexivity].
  rewrite IH. reflexivity.
Qed.

Lemma sort_by_decorated (l : list A) :
  Py.sort_by fst (map (fun y => (key y, y)) l)
  = map (fun y => (key y, y)) (Py.sort_by key l).
Proof.
  induction l as [|x l IH]; cbn; [reflexivity|].
  rewrite IH. apply insert_decorated.
Qed.

Lemma sort_decorated (reverse : bool) (l : list A) :
  map snd (Py.sort fst reverse (map (fun y => (key y, y)) l))
  = Py.sort key reverse l.
Proof.
  unfold Py.sort. destruct reverse.
  - rewrite <- map_rev, sort_by_decorated, <- map_rev, map_map, map_id. reflexivity.
  - rewrite sort_by_decorated, map_map, map_id. reflexivity.
Qed.

End Rearranging.

(** Keys that are numbers are sorted as the numbers are. *)
Section NumericKeys.
Context {A : Type} (key : A -> Float).

Lemma insert_by_numeric (x : A) (l : list A) :
  (forall y, y ∈ x :: l -> exists c, key y = Num c) ->
  Py.insert_by key x l = Py.insert_by (fun y => number (key y)) x l.
Proof.
  induction l as [|y l IH]; intros Hnum; cbn; [reflexivity|].
  destruct (Hnum x) as [cx Hx]; [apply elem_of_cons; auto|].
  destruct (Hnum y) as [cy Hy]; [apply elem_of_cons; right; apply elem_of_cons; auto|].
  unfold less, Float_less, Q_less. rewrite Hx, Hy. cbn [Fltb number].
  destruct (Qltb cy cx); [|reflexivity].
  f_equal. apply IH. intros z Hz. apply Hnum.
  apply elem_of_cons in Hz as [->|Hz]; [apply elem_of_cons; auto|].
  apply elem_of_cons. right. apply elem_of_cons. auto.
Qed.

Lemma sort_by_numeric (l : list A) :
  (forall y, y ∈ l -> exists c, key y = Num c) ->
  Py.sort_by key l = Py.sort_by (fun y => number (key y)) l.
Proof.
  induction l as [|x l IH]; intros Hnum; cbn; [reflexivity|].
  rewrite <- IH by (intros y Hy; apply Hnum, elem_of_cons; auto).
  apply insert_by_numeric. intros y Hy. apply Hnum.
  apply elem_of_cons in Hy as [->|Hy]; [apply elem_of_cons; auto|].
  apply elem_of_cons. right. rewrite <- (sort_by_perm key l). exact Hy.
Qed.

Lemma sort_numeric (reverse : bool) (l : list A) :
  (forall y, y ∈ l -> exists c, key y = Num c) ->
  Py.sort key reverse l = Py.sort (fun y => number (key y)) reverse l.
Proof.
  intros Hnum. unfold Py.sort. destruct reverse; [|apply sort_by_numeric, Hnum].
  f_equal. apply sort_by_numeric. intros y Hy. apply Hnum.
  apply list_elem_of_In, in_rev, list_elem_of_In. exact Hy.
Qed.

End NumericKeys.

Section Sorting.
Context {A : Type} (key : A -> Q).

Lemma insert_by_sorted (x : A) (l : list A) :
  StronglySorted (ascending key) l -> StronglySorted (ascending key) (Py.insert_by key x l).
Proof.
  induction l as [|y l IH]; cbn; intros Hs.
  - repeat constructor.
  - apply StronglySorted_cons in Hs as [Hy Hs].
    unfold less, Q_less.
    destruct (Qltb (key y) (key x)) eqn:E.
    + assert (Hyx : key y <= key x) by (apply Qlt_le_weak, Qltb_lt, E).
      apply StronglySorted_cons. split; [|auto].
      rewrite insert_by_perm. constructor; auto.
    + apply Qltb_ge in E.
      apply StronglySorted_cons. split.
      * constructor; [exact E|].
        eapply Forall_impl; [exact Hy|]. intros z Hz. unfold ascending in *.
        eapply Qle_trans; eauto.
      * apply StronglySorted_cons. auto.
Qed.

Lemma sort_by_sorted (l : list A) : StronglySorted (ascending key) (Py.sort_by key l).
Proof.
  induction l as [|x l IH]; cbn; [constructor|]. apply insert_by_sorted, IH.
Qed.

Lemma sorted_rev (l : list A) :
  StronglySorted (ascending key) l -> StronglySorted (descending key) (rev l).
Proof.
  induction l as [|x l IH]; cbn; intros Hs; [constructor|].
  apply StronglySorted_cons in Hs as [Hx Hs].
  apply StronglySorted_app. repeat split; auto.
  - intros y z Hy Hz. apply list_elem_of_singleton in Hz. subst z.
    unfold descending. rewrite Forall_forall in Hx. apply Hx.
    apply list_elem_of_In, in_rev, list_elem_of_In. exact Hy.
  - repeat constructor.
Qed.

Lemma sort_reverse_sorted (l : list A) :
  StronglySorted (descending key) (Py.sort key true l).
Proof. unfold Py.sort. apply sorted_rev, sort_by_sorted. Qed.

End Sorting.

(** ** Selection of the active pairs *)

Section Selection.
Variable cfg : Config.
Variable lib : Statistics.
Variable data : Update.

Lemma correlation_ext (p q : Pairs) :
  a p = a q -> b p = b q ->
  correlation lib (buffers data) p = correlation lib (buffers data) q.
Proof. intros Ha Hb. unfold correlation, _data_frame. rewrite Ha, Hb. reflexivity. Qed.

Lemma cointegration_test_instruments (p : Pairs) :
  let p' := fst (cointegration_test lib (buffers data) p) in
  a p' = a p /\ b p' = b p.
Proof.
  cbv zeta. unfold cointegration_test.
  destruct (coint lib _ _) as [cv|]; [|auto].
  destruct (Qle_bool 0.05 (snd cv)); [auto|].
  destruct (ols_fit lib _) as [fit|]; [|auto].
  destruct (adfuller lib _); auto.
Qed.

Lemma cointegration_test_model (p : Pairs) :
  let p' := fst (cointegration_test lib (buffers data) p) in
  is_Some (model p) -> is_Some (model p').
Proof.
  cbv zeta. unfold cointegration_test.
  destruct (coint lib _ _) as [cv|]; [|auto].
  destruct (Qle_bool 0.05 (snd cv)); [auto|].
  destruct (ols_fit lib _) as [fit|]; [|auto].
  destruct (adfuller lib _); cbn; eauto.
Qed.

Lemma cointegration_test_true (p p' : Pairs) :
  cointegration_test lib (buffers data) p = (p', Return true) ->
  is_Some (model p') /\ is_Some (stationary_p p').
Proof.
  unfold cointegration_test.
  destruct (coint lib _ _) as [cv|]; [|discriminate].
  destruct (Qle_bool 0.05 (snd cv)); [discriminate|].
  destruct (ols_fit lib _) as [fit|]; [|discriminate].
  destruct (adfuller lib _); [|discriminate].
  intros [= <-]. cbn. eauto.
Qed.

Lemma evolves_instruments (p p' : Pairs) :
  evolves lib data p p' -> a p' = a p /\ b p' = b p.
Proof.
  intros [->|[r H]]; [auto|].
  pose proof (cointegration_test_instruments p) as Hi. rewrite H in Hi. exact Hi.
Qed.

Lemma evolves_model (p p' : Pairs) :
  evolves lib data p p' -> is_Some (model p) -> is_Some (model p').
Proof.
  intros [->|[r H]]; [auto|].
  pose proof (cointegration_test_model p) as Hi. rewrite H in Hi. exact Hi.
Qed.

Lemma tested_evolves (p : Pairs) : evolves lib data p (tested cfg lib data p).
Proof.
  unfold tested. destruct (Fltb _ _); [left; reflexivity|].
  right. destruct (cointegration_test lib (buffers data) p) as [p' r]. eauto.
Qed.

Lemma survivor_spec (p : Pairs) :
  survivor cfg lib data p = true <-> eligible cfg lib data p.
Proof.
  unfold survivor, eligible. rewrite andb_true_iff, negb_true_iff, Fltb_not_below.
  apply and_iff_compat_l.
  destruct (cointegration_test lib (buffers data) p) as [p' [[|]|e]].
  - destruct (stationary_p p') as [sp|] eqn:E.
    + rewrite Qltb_lt. split; [intros Hlt; exists p', sp; auto|].
      intros (q & sp' & Hq & Hsp & H).
      assert (q = p') by congruence. subst q.
      assert (sp' = sp) by congruence. subst sp'. exact H.
    + split; [discriminate|]. intros (q & sp' & Hq & Hsp & _).
      assert (q = p') by congruence. subst q. congruence.
  - split; [discriminate|]. intros (q & sp' & H & _). discriminate.
  - split; [discriminate|]. intros (q & sp' & H & _). discriminate.
Qed.

Lemma survivor_tested (p : Pairs) :
  survivor cfg lib data p = true ->
  is_Some (model (tested cfg lib data p))
  /\ is_Some (stationary_p (tested cfg lib data p)).
Proof.
  intros H. pose proof H as H'. apply survivor_spec in H' as [Hc (p' & sp & Ht & _)].
  unfold tested. apply Fltb_not_below in Hc. rewrite Hc, Ht. cbn [fst].
  exact (cointegration_test_true _ _ Ht).
Qed.

Lemma survivors_elem (pairs : list Pairs) (i k : nat) :
  k ∈ survivors cfg lib data i pairs
  <-> exists p, (i <= k)%nat /\ pairs !! (k - i)%nat = Some p
                /\ survivor cfg lib data p = true.
Proof.
  revert i. induction pairs as [|p pairs IH]; intros i; cbn [survivors].
  - split; [intros H; apply elem_of_nil in H; contradiction|].
    intros (p & _ & H & _). discriminate.
  - assert (Hstep : k ∈ survivors cfg lib data (S i) pairs
              <-> exists q, (i < k)%nat /\ (p :: pairs) !! (k - i)%nat = Some q
                            /\ survivor cfg lib data q = true).
    { rewrite IH. split; intros (q & Hle & Hq & Hs); exists q; repeat split;
        auto; try lia.
      - replace (k - i)%nat with (S (k - S i)) by lia. exact Hq.
      - replace (k - i)%nat with (S (k - S i)) in Hq by lia. exact Hq. }
    destruct (survivor cfg lib data p) eqn:Hp.
    + rewrite elem_of_cons, Hstep. split.
      * intros [->|(q & Hle & Hq & Hs)].
        -- exists p. rewrite Nat.sub_diag. auto.
        -- exists q. repeat split; auto. lia.
      * intros (q & Hle & Hq & Hs).
        destruct (decide (k = i)) as [->|Hne]; [auto|].
        right. exists q. repeat split; auto. lia.
    + rewrite Hstep. split.
      * intros (q & Hle & Hq & Hs). exists q. repeat split; auto. lia.
      * intros (q & Hle & Hq & Hs).
        destruct (decide (k = i)) as [->|Hne].
        -- rewrite Nat.sub_diag in Hq. injection Hq as <-. congruence.
        -- exists q. repeat split; auto. lia.
Qed.

Lemma select_loop_evolves (pairs : list Pairs) (i : nat) (acc : list nat) :
  Forall2 (evolves lib data) pairs (fst (select_loop cfg lib data i pairs acc)).
Proof.
  assert (Hrefl : forall l : list Pairs, Forall2 (evolves lib data) l l).
  { intros l. apply Forall2_same_length_lookup. split; [reflexivity|].
    intros k x y Hx Hy. left. congruence. }
  revert i acc. induction pairs as [|p pairs IH]; intros i acc; cbn [select_loop].
  - constructor.
  - destruct (Fltb _ _).
    { specialize (IH (S i) acc). destruct (select_loop _ _ _ _ _ _) as [rest r].
      cbn in *. constructor; [left; reflexivity|exact IH]. }
    destruct (cointegration_test lib (buffers data) p) as [p' [[|]|e]] eqn:Ht.
    + destruct (stationary_p p') as [sp|].
      * match goal with |- context [select_loop _ _ _ ?j pairs ?acc'] =>
          specialize (IH j acc') end.
        destruct (select_loop _ _ _ _ _ _) as [rest r].
        cbn in *. constructor; [right; eauto|exact IH].
      * cbn. constructor; [right; eauto|apply Hrefl].
    + specialize (IH (S i) acc). destruct (select_loop _ _ _ _ _ _) as [rest r].
      cbn in *. constructor; [right; eauto|exact IH].
    + cbn. constructor; [right; eauto|apply Hrefl].
Qed.

Lemma select_loop_return (pairs pairs' : list Pairs) (i : nat) (acc sel : list nat) :
  select_loop cfg lib data i pairs acc = (pairs', Return sel) ->
  pairs' = map (tested cfg lib data) pairs
  /\ sel = acc ++ survivors cfg lib data i pairs.
Proof.
  revert i acc pairs'. induction pairs as [|p pairs IH]; intros i acc pairs';
    cbn [select_loop survivors map].
  - intros [= <- <-]. rewrite app_nil_r. auto.
  - unfold tested, survivor.
    destruct (Fltb _ _); cbn [negb andb].
    { destruct (select_loop _ _ _ _ _ _) as [rest r] eqn:E.
      intros [= <- ->]. destruct (IH _ _ _ E) as [-> ->]. auto. }
    destruct (cointegration_test lib (buffers data) p) as [p' [[|]|e]] eqn:Ht;
      cbn [fst]; [| |discriminate].
    + destruct (stationary_p p') as [sp|]; [|discriminate].
      destruct (select_loop _ _ _ _ _ _) as [rest r] eqn:E.
      intros [= <- ->]. destruct (IH _ _ _ E) as [-> ->].
      destruct (Qltb sp 0.05); [rewrite <- app_assoc|]; auto.
    + destruct (select_loop _ _ _ _ _ _) as [rest r] eqn:E.
      intros [= <- ->]. destruct (IH _ _ _ E) as [-> ->]. auto.
Qed.

(** With statistics that do not raise, the first loop returns. *)
Lemma select_loop_quiet (pairs : list Pairs) (i : nat) (acc : list nat) :
  quiet lib -> exists pairs' sel,
    select_loop cfg lib data i pairs acc = (pairs', Return sel).
Proof.
  intros (Hc & Ho & Ha).
  revert i acc. induction pairs as [|p pairs IH]; intros i acc; cbn [select_loop].
  - eauto.
  - destruct (Fltb _ _).
    { destruct (IH (S i) acc) as (rest & sel & ->). eauto. }
    unfold cointegration_test.
    destruct (Hc (series (buffers data (a p))) (series (buffers data (b p))))
      as [cv ->].
    destruct (Qle_bool 0.05 (snd cv)).
    { destruct (IH (S i) acc) as (rest & sel & ->). eauto. }
    destruct (Ho (_data_frame (buffers data) p)) as [fit ->].
    destruct (Ha (resid fit)) as [adf ->]. cbn [stationary_p].
    match goal with |- context [select_loop _ _ _ ?j pairs ?acc'] =>
      destruct (IH j acc') as (rest & sel & ->) end.
    eauto.
Qed.

End Selection.

Section Regeneration.
Variable cfg : Config.
Variable lib : Statistics.
Variable data : Update.

Lemma map_m_key_correlation (l : list nat) (s : PairsTrading) :
  (forall k, k ∈ l -> is_Some (_pair_list s !! k)) ->
  map_m (key_correlation lib data) l s
  = (s, Return (map (fun k => (corr_of lib data (_pair_list s) k, k)) l)).
Proof.
  induction l as [|k l IH]; intros Hv; [reflexivity|].
  cbn [map_m map]. unfold bind at 1, key_correlation at 1, bind at 1, deref, corr_of at 1.
  destruct (Hv k) as [p Hp]; [apply elem_of_cons; auto|]. rewrite Hp.
  unfold ret at 1. unfold bind at 1. rewrite IH; [reflexivity|].
  intros k' Hk'. apply Hv, elem_of_cons; auto.
Qed.

Lemma map_m_key_stationary_p (l : list nat) (s : PairsTrading) :
  (forall k, k ∈ l ->
     exists p, _pair_list s !! k = Some p /\ is_Some (stationary_p p)) ->
  map_m key_stationary_p l s
  = (s, Return (map (fun k => (stationary_p_of (_pair_list s) k, k)) l)).
Proof.
  induction l as [|k l IH]; intros Hv; [reflexivity|].
  cbn [map_m map].
  unfold bind at 1, key_stationary_p at 1, bind at 1, deref, stationary_p_of at 1.
  destruct (Hv k) as (p & Hp & sp & Hsp); [apply elem_of_cons; auto|]. rewrite Hp.
  unfold bind at 1. rewrite Hsp. cbn [getattr default]. unfold ret at 1 2.
  unfold bind at 1. rewrite IH; [reflexivity|].
  intros k' Hk'. apply Hv, elem_of_cons; auto.
Qed.

Lemma cap_subset (l : list nat) (k : nat) : k ∈ cap cfg l -> k ∈ l.
Proof.
  unfold cap. destruct (Nat.ltb _ _); [|auto].
  intros H. apply elem_of_take in H as (i & Hi & _).
  apply list_elem_of_lookup. eauto.
Qed.

Lemma cap_length (l : list nat) : (length (cap cfg l) <= Pos.to_nat (_pair_num cfg))%nat.
Proof.
  unfold cap. destruct (Nat.ltb_spec (Pos.to_nat (_pair_num cfg)) (length l)).
  - rewrite length_firstn. lia.
  - lia.
Qed.

Lemma ranked_subset (pairs : list Pairs) (sel : list nat) (k : nat) :
  k ∈ ranked cfg lib data pairs sel -> k ∈ sel.
Proof.
  unfold ranked. rewrite sort_perm. intros H. apply cap_subset in H.
  rewrite sort_perm in H. exact H.
Qed.

Lemma ranked_length (pairs : list Pairs) (sel : list nat) :
  (length (ranked cfg lib data pairs sel) <= Pos.to_nat (_pair_num cfg))%nat.
Proof.
  unfold ranked. rewrite (Permutation_length (sort_perm _ _ _)). apply cap_length.
Qed.

Lemma tested_lookup (pairs : list Pairs) (k : nat) :
  k ∈ survivors cfg lib data 0 pairs ->
  exists p, pairs !! k = Some p /\ survivor cfg lib data p = true
            /\ map (tested cfg lib data) pairs !! k = Some (tested cfg lib data p).
Proof.
  intros H. apply survivors_elem in H as (p & _ & Hp & Hs).
  rewrite Nat.sub_0_r in Hp. exists p. repeat split; auto.
  change (map (tested cfg lib data) pairs) with (tested cfg lib data <$> pairs).
  rewrite list_lookup_fmap, Hp. reflexivity.
Qed.

Lemma generate_pairs_spec (s : PairsTrading) :
  _generate_pairs cfg lib data s
  = match select_loop cfg lib data 0 (_pair_list s) [] with
    | (pairs', Raise e) => (set_pair_list s pairs', Raise e)
    | (pairs', Return sel) =>
        if Nat.eqb (length sel) 0
        then (emit (set_pair_list s pairs') (Debug No_selected_pair), Return [])
        else (set_pair_list s pairs', Return (ranked cfg lib data pairs' sel))
    end.
Proof.
  unfold _generate_pairs.
  destruct (select_loop cfg lib data 0 (_pair_list s) []) as [pairs' [sel|e]] eqn:E;
    [|reflexivity].
  destruct (Nat.eqb (length sel) 0); [reflexivity|].
  apply select_loop_return in E as [-> ->]. cbn [app].
  set (s1 := set_pair_list s _).
  assert (Hv : forall k, k ∈ survivors cfg lib data 0 (_pair_list s) ->
            exists p, _pair_list s1 !! k = Some p /\ is_Some (stationary_p p)).
  { intros k Hk. destruct (tested_lookup _ _ Hk) as (p & _ & Hs & Hl).
    exists (tested cfg lib data p). split; [exact Hl|].
    apply survivor_tested, Hs. }
  unfold bind at 1. rewrite map_m_key_correlation.
  2:{ intros k Hk. destruct (Hv k Hk) as (p & -> & _). eauto. }
  rewrite sort_decorated.
  unfold bind at 1. rewrite map_m_key_stationary_p.
  - rewrite sort_decorated. reflexivity.
  - intros k Hk. apply Hv.
    assert (Hk' : k ∈ cap cfg (Py.sort (corr_of lib data (_pair_list s1)) true
                                (survivors cfg lib data 0 (_pair_list s)))) by exact Hk.
    apply cap_subset in Hk'. rewrite sort_perm in Hk'. exact Hk'.
Qed.

Lemma regenerate_spec (s : PairsTrading) :
  regenerate cfg lib data s
  = if (_regenerate_time s <? time data)%Z then
      match _generate_pairs cfg lib data s with
      | (s1, Return sel) =>
          (set_regenerate_time (set_selected_pair s1 sel)
             (time data + timedelta_days 5)%Z, Return tt)
      | (s1, Raise e) => (s1, Raise e)
      end
    else (s, Return tt).
Proof.
  unfold regenerate, bind, get, modify.
  destruct (_regenerate_time s <? time data)%Z; [|reflexivity].
  destruct (_generate_pairs cfg lib data s) as [s1 [sel|e]]; reflexivity.
Qed.

(** What regeneration does to a state, whether it returns or raises. *)
Lemma regenerate_effect (s s1 : PairsTrading) (r : Res unit) :
  regenerate cfg lib data s = (s1, r) ->
  _trading_pairs s1 = _trading_pairs s
  /\ _symbol_data s1 = _symbol_data s
  /\ Forall2 (evolves lib data) (_pair_list s) (_pair_list s1)
  /\ (transcript s1 = transcript s
      \/ transcript s1 = transcript s ++ [Debug No_selected_pair])
  /\ (_selected_pair s1 = _selected_pair s
      \/ forall k, k ∈ _selected_pair s1 ->
           exists p, _pair_list s !! k = Some p
                     /\ survivor cfg lib data p = true
                     /\ _pair_list s1 !! k = Some (tested cfg lib data p)).
Proof.
  assert (Hrefl : Forall2 (evolves lib data) (_pair_list s) (_pair_list s)).
  { apply Forall2_same_length_lookup. split; [reflexivity|].
    intros k x y Hx Hy. left. congruence. }
  rewrite regenerate_spec.
  destruct (_regenerate_time s <? time data)%Z.
  2:{ intros [= <- <-]. repeat split; auto. }
  rewrite generate_pairs_spec.
  pose proof (select_loop_evolves cfg lib data (_pair_list s) 0 []) as Hev.
  destruct (select_loop cfg lib data 0 (_pair_list s) []) as [pairs' [sel|e]] eqn:E.
  - cbn [fst] in Hev. destruct (Nat.eqb (length sel) 0).
    + intros [= <- <-]. cbn. repeat split; auto.
      right. intros k Hk. apply elem_of_nil in Hk. contradiction.
    + intros [= <- <-]. cbn. repeat split; auto.
      right. intros k Hk. apply ranked_subset in Hk.
      apply select_loop_return in E as [-> ->]. cbn [app] in Hk.
      destruct (tested_lookup _ _ Hk) as (p & Hp & Hs & Hl). eauto.
  - cbn [fst] in Hev. intros [= <- <-]. cbn. repeat split; auto.
Qed.

Lemma regenerate_wf (s s1 : PairsTrading) (r : Res unit) :
  wf s -> regenerate cfg lib data s = (s1, r) -> wf s1.
Proof.
  intros [Hnd Hbv Hsel Hsym] H.
  apply regenerate_effect in H as (Hb & Hsd & Hev & _ & Hs).
  pose proof (Forall2_length _ _ _ Hev) as Hlen.
  split.
  - unfold open_pairs. rewrite Hb. exact Hnd.
  - unfold open_pairs. rewrite Hb. intros k Hk.
    apply lookup_lt_is_Some. rewrite <- Hlen. apply lookup_lt_is_Some. auto.
  - destruct Hs as [Hs|Hs].
    + rewrite Hs. intros k Hk. destruct (Hsel k Hk) as (p & m & Hp & Hm).
      destruct (Forall2_lookup_l _ _ _ _ _ Hev Hp) as (p' & Hp' & He).
      destruct (evolves_model lib data _ _ He) as [m' Hm']; [eauto|].
      eauto.
    + intros k Hk. destruct (Hs k Hk) as (p & Hp & Hsv & Hl).
      destruct (survivor_tested cfg lib data p Hsv) as [[m Hm] _]. eauto.
  - rewrite Hsd. intros Hne. apply Hsym. intros Hnil. apply Hne.
    rewrite Hnil in Hlen. destruct (_pair_list s1); [reflexivity|discriminate].
Qed.

(** Regeneration raises only if a statistics routine does. *)
Lemma regenerate_quiet (s : PairsTrading) :
  quiet lib -> exists s1, regenerate cfg lib data s = (s1, Return tt).
Proof.
  intros Hq. rewrite regenerate_spec.
  destruct (_regenerate_time s <? time data)%Z; [|eauto].
  rewrite generate_pairs_spec.
  destruct (select_loop_quiet cfg lib data (_pair_list s) 0 [] Hq) as (pairs' & sel & ->).
  destruct (Nat.eqb (length sel) 0); eauto.
Qed.

End Regeneration.

(** ** One update *)

Section Update.
Variable cfg : Config.
Variable lib : Statistics.
Variable qc : QCAlgorithm.
Variable data : Update.

Lemma for_each_invariant {A} (P : PairsTrading -> Prop) (body : A -> M unit)
    (l : list A) (s : PairsTrading) :
  (forall x s, P s -> P (fst (body x s))) ->
  P s -> P (fst (for_each body l s)).
Proof.
  intros Hb. revert s. induction l as [|x l IH]; intros s Hs; [exact Hs|].
  cbn [for_each]. unfold bind. specialize (Hb x s Hs).
  destruct (body x s) as [s1 [[]|e]]; cbn [fst] in *; auto.
Qed.

(** Whatever happens, one pass of the closing loop leaves the book as it
    is or pops the entry of its pair. *)
Lemma close_position_shape (item : nat * TradingPair) (s : PairsTrading) :
  exists d evs,
    fst (close_position cfg data item s) = update_book s d evs
    /\ (d = _trading_pairs s \/ Py.pop (_trading_pairs s) (fst item) = Some d).
Proof.
  destruct item as [k tp].
  destruct (_pair_list s !! k) as [p|] eqn:Hp.
  - rewrite (close_position_spec cfg data s k p tp Hp).
    destruct (closing _ _ _ _ _).
    + destruct (Py.pop (_trading_pairs s) k) as [d|] eqn:Hd.
      * rewrite (liquidate_spec s k p tp d Hd). eauto.
      * unfold liquidate, bind, market_order, pop_trading_pair. cbn. rewrite Hd.
        exists (_trading_pairs s), [MarketOrder (a p) (- quantity (ticket_a tp));
                                    MarketOrder (b p) (- quantity (ticket_b tp))].
        split; [|auto]. cbn. unfold update_book, emit. cbn.
        rewrite <- app_assoc. reflexivity.
    + exists (_trading_pairs s), []. rewrite update_book_id. auto.
  - unfold close_position, bind, get, deref. cbn [fst]. rewrite Hp. cbn.
    exists (_trading_pairs s), []. rewrite update_book_id. auto.
Qed.

(** Whatever happens, one pass of the entry loop leaves the book as it is
    or adds a position for its pair, which had none; it closes nothing. *)
Lemma open_position_shape (symbol : option Symbol) (pair : nat) (s : PairsTrading) :
  exists d evs,
    fst (open_position cfg qc data symbol pair s) = update_book s d evs
    /\ (d = _trading_pairs s
        \/ exists tp, d = _trading_pairs s ++ [(pair, tp)] /\ pair ∉ open_pairs s)
    /\ (forall e, e ∈ evs -> forall k, is_close k e = false).
Proof.
  assert (Hsame : exists d evs,
            s = update_book s d evs
            /\ (d = _trading_pairs s
                \/ exists tp, d = _trading_pairs s ++ [(pair, tp)] /\ pair ∉ open_pairs s)
            /\ (forall e, e ∈ evs -> forall k, is_close k e = false)).
  { exists (_trading_pairs s), []. rewrite update_book_id. repeat split; auto.
    intros e He. apply elem_of_nil in He. contradiction. }
  destruct (_pair_list s !! pair) as [p|] eqn:Hp.
  2:{ unfold open_position, bind, deref. rewrite Hp. exact Hsame. }
  destruct (model p) as [m|] eqn:Hm.
  2:{ unfold open_position, bind, deref, getattr, raise. rewrite Hp, Hm. exact Hsame. }
  destruct symbol as [sym|].
  - rewrite (open_position_spec cfg qc data s pair p m sym Hp Hm).
    destruct (Py.contains (_trading_pairs s) pair) eqn:Hc; [exact Hsame|].
    destruct (entry_side cfg p (live_error data p m)) as [side|]; [|exact Hsame].
    assert (Hk : pair ∉ open_pairs s).
    { intros H. apply contains_elem_of in H. congruence. }
    cbv zeta. rewrite (setitem_fresh _ _ _ Hk). cbn [fst].
    eexists _, _. split; [reflexivity|]. split; [eauto|].
    intros e He k. unfold entry_events in He. cbv zeta in He.
    repeat (apply elem_of_cons in He as [->|He]; [destruct side; reflexivity|]).
    apply elem_of_nil in He. contradiction.
  - unfold open_position, bind, deref, getattr, get, raise. rewrite Hp, Hm.
    unfold ret at 1. cbn iota beta.
    destruct (negb _); [|exact Hsame].
    destruct (Qltb _ _); [exact Hsame|].
    destruct (Qltb _ _); exact Hsame.
Qed.

Lemma close_position_nodup (item : nat * TradingPair) (s : PairsTrading) :
  NoDup (open_pairs s) -> NoDup (open_pairs (fst (close_position cfg data item s))).
Proof.
  intros Hnd. destruct (close_position_shape item s) as (d & evs & -> & [->|Hd]);
    [exact Hnd|].
  apply pop_keys in Hd as (done & v & l & Hs & -> & _).
  unfold open_pairs in *. cbn. rewrite Hs in Hnd. rewrite map_app in *. cbn in Hnd.
  apply NoDup_app in Hnd as (H1 & H2 & H3). apply NoDup_cons in H3 as [_ H3].
  apply NoDup_app. repeat split; auto.
  intros x Hx Hx'. apply (H2 x Hx). apply elem_of_cons. auto.
Qed.

Lemma open_position_nodup (symbol : option Symbol) (pair : nat) (s : PairsTrading) :
  NoDup (open_pairs s) ->
  NoDup (open_pairs (fst (open_position cfg qc data symbol pair s))).
Proof.
  intros Hnd.
  destruct (open_position_shape symbol pair s) as (d & evs & -> & [->|(tp & -> & Hk)] & _);
    [exact Hnd|].
  unfold open_pairs in *. cbn. rewrite map_app. cbn.
  apply NoDup_app. repeat split; auto.
  - intros x Hx Hx'. apply list_elem_of_singleton in Hx'. subst x. contradiction.
  - apply NoDup_singleton.
Qed.

Lemma regenerate_book (s : PairsTrading) :
  _trading_pairs (fst (regenerate cfg lib data s)) = _trading_pairs s.
Proof.
  destruct (regenerate cfg lib data s) as [s1 r] eqn:E.
  apply regenerate_effect in E as (H & _). exact H.
Qed.

Lemma on_data_nodup (s : PairsTrading) :
  NoDup (open_pairs s) -> NoDup (open_pairs (fst (on_data cfg lib qc data s))).
Proof.
  intros Hnd. unfold on_data, bind at 1, get. unfold bind at 1.
  pose proof (regenerate_book s) as Hb.
  destruct (regenerate cfg lib data s) as [s1 [[]|e]]; cbn [fst] in *.
  2:{ unfold open_pairs. rewrite Hb. exact Hnd. }
  assert (H1 : NoDup (open_pairs s1)) by (unfold open_pairs; rewrite Hb; exact Hnd).
  unfold bind at 1.
  assert (H2 : NoDup (open_pairs (fst (close_positions cfg data s1)))).
  { unfold close_positions, bind, get.
    apply (for_each_invariant (fun s => NoDup (open_pairs s))); auto.
    intros x s0. apply close_position_nodup. }
  destruct (close_positions cfg data s1) as [s2 [[]|e]]; cbn [fst] in *; [|exact H2].
  unfold open_positions, bind, get.
  apply (for_each_invariant (fun s => NoDup (open_pairs s))); auto.
  intros x s0. apply open_position_nodup.
Qed.

(** None of the two trading loops touches the pair objects. *)
Lemma close_position_pairs (item : nat * TradingPair) (s : PairsTrading) :
  _pair_list (fst (close_position cfg data item s)) = _pair_list s.
Proof. destruct (close_position_shape item s) as (d & evs & -> & _). reflexivity. Qed.

Lemma open_position_pairs (symbol : option Symbol) (pair : nat) (s : PairsTrading) :
  _pair_list (fst (open_position cfg qc data symbol pair s)) = _pair_list s.
Proof.
  destruct (open_position_shape symbol pair s) as (d & evs & -> & _). reflexivity.
Qed.

Lemma on_data_pairs (s : PairsTrading) :
  _pair_list (fst (on_data cfg lib qc data s))
  = _pair_list (fst (regenerate cfg lib data s)).
Proof.
  unfold on_data, bind at 1, get. unfold bind at 1.
  destruct (regenerate cfg lib data s) as [s1 [[]|e]]; cbn [fst]; [|reflexivity].
  unfold bind at 1.
  assert (H2 : _pair_list (fst (close_positions cfg data s1)) = _pair_list s1).
  { unfold close_positions, bind, get.
    apply (for_each_invariant (fun s => _pair_list s = _pair_list s1)); auto.
    intros x s0 <-. apply close_position_pairs. }
  destruct (close_positions cfg data s1) as [s2 [[]|e]]; cbn [fst] in *; [|exact H2].
  unfold open_positions, bind, get.
  apply (for_each_invariant (fun s => _pair_list s = _pair_list s1)); auto.
  intros x s0 <-. apply open_position_pairs.
Qed.

End Update.

(** ** Counting close transitions *)

Section Counting.
Variable cfg : Config.
Variable data : Update.

Lemma closes_app (pair : nat) (l1 l2 : list Event) :
  closes pair (l1 ++ l2) = (closes pair l1 + closes pair l2)%nat.
Proof. unfold closes. rewrite filter_app, length_app. reflexivity. Qed.

Lemma closes_none (pair : nat) (evs : list Event) :
  (forall e, e ∈ evs -> forall k, is_close k e = false) -> closes pair evs = 0%nat.
Proof.
  intros H. unfold closes. induction evs as [|e evs IH]; [reflexivity|].
  rewrite filter_cons. destruct (decide (is_close pair e = true)) as [Heq|_].
  - rewrite (H e) in Heq; [discriminate|apply elem_of_cons; auto].
  - apply IH. intros e' He'. apply H, elem_of_cons; auto.
Qed.

Lemma closes_close_events (pair k : nat) (p : Pairs) (tp : TradingPair) :
  closes pair (close_events p k tp) = if Nat.eqb k pair then 1%nat else 0%nat.
Proof.
  unfold closes, close_events. rewrite !filter_cons. cbn [is_close].
  destruct (decide (false = true)); [discriminate|].
  destruct (Nat.eqb k pair); cbn.
  - destruct (decide (true = true)); [reflexivity|congruence].
  - destruct (decide (false = true)); [discriminate|reflexivity].
Qed.

Lemma closes_closing_events (pairs : list Pairs) (sel : list nat) (pair : nat)
    (item : nat * TradingPair) :
  closes pair (closing_events cfg data pairs sel item)
  = if Nat.eqb (fst item) pair && closing cfg data pairs sel item then 1%nat else 0%nat.
Proof.
  unfold closing_events, closing.
  destruct (pairs !! fst item) as [p|]; [|rewrite andb_false_r; reflexivity].
  destruct (_ || _)%bool.
  - rewrite closes_close_events, andb_true_r. reflexivity.
  - rewrite andb_false_r. reflexivity.
Qed.

Lemma closes_closing_absent (pairs : list Pairs) (sel : list nat) (pair : nat)
    (d : list (nat * TradingPair)) :
  pair ∉ map fst d ->
  closes pair (flat_map (closing_events cfg data pairs sel) d) = 0%nat.
Proof.
  induction d as [|[k tp] d IH]; intros Hk; [reflexivity|].
  cbn in Hk. apply not_elem_of_cons in Hk as [Hne Hk].
  cbn [flat_map]. rewrite closes_app, closes_closing_events, (IH Hk). cbn [fst].
  destruct (Nat.eqb_spec k pair) as [->|_]; [congruence|reflexivity].
Qed.

Lemma closes_closing_present (pairs : list Pairs) (sel : list nat) (pair : nat)
    (tp : TradingPair) (d : list (nat * TradingPair)) :
  NoDup (map fst d) -> (pair, tp) ∈ d ->
  closes pair (flat_map (closing_events cfg data pairs sel) d)
  = if closing cfg data pairs sel (pair, tp) then 1%nat else 0%nat.
Proof.
  induction d as [|[k tp'] d IH]; intros Hnd Hin.
  - apply elem_of_nil in Hin. contradiction.
  - cbn in Hnd. apply NoDup_cons in Hnd as [Hk Hnd].
    cbn [flat_map]. rewrite closes_app, closes_closing_events. cbn [fst].
    apply elem_of_cons in Hin as [[= <- <-]|Hin].
    + rewrite Nat.eqb_refl, (closes_closing_absent _ _ _ _ Hk). cbn [andb].
      destruct (closing _ _ _ _ _); reflexivity.
    + assert (Hne : k <> pair).
      { intros ->. apply Hk. apply list_elem_of_fmap. exists (pair, tp). auto. }
      destruct (Nat.eqb_spec k pair) as [->|_]; [congruence|].
      cbn [andb]. apply IH; auto.
Qed.

Lemma closes_closing_le (pairs : list Pairs) (sel : list nat) (pair : nat)
    (d : list (nat * TradingPair)) :
  NoDup (map fst d) ->
  (closes pair (flat_map (closing_events cfg data pairs sel) d) <= 1)%nat.
Proof.
  intros Hnd. destruct (decide (pair ∈ map fst d)) as [Hin|Hout].
  - apply list_elem_of_fmap in Hin as ([k tp] & -> & Hin). cbn [fst].
    rewrite (closes_closing_present _ _ _ _ _ Hnd Hin).
    destruct (closing _ _ _ _ _); lia.
  - rewrite (closes_closing_absent _ _ _ _ Hout). lia.
Qed.

Lemma after_closing_open_pairs (s : PairsTrading) (k : nat) :
  NoDup (open_pairs s) ->
  k ∈ open_pairs (after_closing cfg data s)
  <-> exists tp, (k, tp) ∈ _trading_pairs s
                 /\ closing cfg data (_pair_list s) (_selected_pair s) (k, tp) = false.
Proof.
  intros Hnd. unfold open_pairs, after_closing. cbn. rewrite list_elem_of_fmap. split.
  - intros ([k' tp] & -> & H). apply list_elem_of_filter in H as [H1 H2]. eauto.
  - intros (tp & H1 & H2). exists (k, tp). split; [reflexivity|].
    apply list_elem_of_filter. auto.
Qed.

End Counting.

(** ** Well-formed states are preserved *)

Section WellFormed.
Variable cfg : Config.
Variable lib : Statistics.
Variable qc : QCAlgorithm.

Lemma initialize_wf (warm_up : Symbol -> SymbolData) : wf (initialize cfg warm_up).
Proof.
  split; cbn.
  - apply NoDup_nil_2.
  - intros k Hk. apply elem_of_nil in Hk. contradiction.
  - intros k Hk. apply elem_of_nil in Hk. contradiction.
  - destruct (Py.dict_keys [] (_symbols cfg)); [|discriminate].
    cbn. intros H. contradiction.
Qed.

Lemma after_closing_wf (data : Update) (s : PairsTrading) :
  wf s -> wf (after_closing cfg data s).
Proof.
  intros [Hnd Hbv Hsel Hsym]. split; cbn; auto.
  - unfold open_pairs. cbn.
    apply (sublist_NoDup _ (open_pairs s)); [exact Hnd|].
    apply (fmap_sublist fst), sublist_filter.
  - intros k Hk. apply Hbv. unfold open_pairs in *. cbn in Hk.
    apply list_elem_of_fmap in Hk as (it & -> & Hit).
    apply list_elem_of_filter in Hit as [_ Hit].
    apply list_elem_of_fmap. eauto.
Qed.

Lemma extends_wf (s s' : PairsTrading) : wf s -> extends s s' -> wf s'.
Proof.
  intros [Hnd Hbv Hsel Hsym] (added & evs & -> & Ha & Hn & _). split; cbn; auto.
  intros k Hk. unfold open_pairs in Hk. cbn in Hk. rewrite map_app in Hk.
  apply elem_of_app in Hk as [Hk|Hk]; [auto|].
  destruct (Hsel k (Ha k Hk)) as (p & m & -> & _). eauto.
Qed.

Lemma open_positions_total (data : Update) (s : PairsTrading) :
  wf s ->
  exists s', open_positions cfg qc data (last (_symbol_data s)) s = (s', Return tt)
             /\ extends s s'
             /\ forall k, k ∈ open_pairs s'
                  <-> k ∈ open_pairs s
                      \/ (k ∈ _selected_pair s
                          /\ is_Some (entry_signal cfg data (_pair_list s) k)).
Proof.
  intros [Hnd Hbv Hsel Hsym]. unfold open_positions, bind, get.
  destruct (_selected_pair s) as [|k0 sel] eqn:Es.
  - exists s. split; [reflexivity|]. split; [apply extends_refl; exact Hnd|].
    intros k. split; [auto|]. intros [H|[H _]]; [exact H|].
    apply elem_of_nil in H. contradiction.
  - destruct (last (_symbol_data s)) as [sym|] eqn:El.
    + rewrite <- Es in *. apply open_loop_extends; auto.
    + exfalso. apply last_None in El.
      destruct (Hsel k0) as (p & m & Hp & _); [apply elem_of_cons; auto|].
      apply Hsym; [|exact El]. intros Hnil. rewrite Hnil in Hp. discriminate.
Qed.

Lemma on_data_unfold (data : Update) (s : PairsTrading) :
  on_data cfg lib qc data s
  = match regenerate cfg lib data s with
    | (s1, Return _) =>
        match close_positions cfg data s1 with
        | (s2, Return _) => open_positions cfg qc data (last (_symbol_data s)) s2
        | (s2, Raise e) => (s2, Raise e)
        end
    | (s1, Raise e) => (s1, Raise e)
    end.
Proof.
  unfold on_data, bind, get.
  destruct (regenerate cfg lib data s) as [s1 [[]|e]]; [|reflexivity].
  destruct (close_positions cfg data s1) as [s2 [[]|e]]; reflexivity.
Qed.

(** One update, from a well-formed state: regeneration raises, and the
    update stops there, or the two loops run to their end. *)
Lemma on_data_spec (data : Update) (s : PairsTrading) :
  wf s ->
  exists s1 r1,
    regenerate cfg lib data s = (s1, r1) /\ wf s1
    /\ match r1 with
       | Raise e => on_data cfg lib qc data s = (s1, Raise e)
       | Return _ =>
           exists s',
             on_data cfg lib qc data s = (s', Return tt)
             /\ extends (after_closing cfg data s1) s'
             /\ forall k, k ∈ open_pairs s'
                  <-> k ∈ open_pairs (after_closing cfg data s1)
                      \/ (k ∈ _selected_pair s1
                          /\ is_Some (entry_signal cfg data (_pair_list s1) k))
       end.
Proof.
  intros Hwf.
  destruct (regenerate cfg lib data s) as [s1 r1] eqn:Er.
  pose proof (regenerate_wf cfg lib data s s1 r1 Hwf Er) as Hwf1.
  pose proof (regenerate_effect cfg lib data s s1 r1 Er) as (_ & Hsd & _).
  exists s1, r1. split; [reflexivity|]. split; [exact Hwf1|].
  rewrite on_data_unfold, Er.
  destruct r1 as [[]|e]; [|reflexivity].
  rewrite (close_positions_spec cfg data s1 (wf_book_nodup _ Hwf1) (wf_book_valid _ Hwf1)).
  fold (after_closing cfg data s1).
  destruct (open_positions_total data (after_closing cfg data s1)
              (after_closing_wf data s1 Hwf1)) as (s' & E & X & K).
  cbn [after_closing update_book _symbol_data] in E. rewrite Hsd in E.
  exists s'. split; [exact E|]. split; [exact X|exact K].
Qed.

Lemma on_data_wf (data : Update) (s : PairsTrading) :
  wf s -> wf (fst (on_data cfg lib qc data s)).
Proof.
  intros Hwf. destruct (on_data_spec data s Hwf) as (s1 & [[]|e] & _ & Hwf1 & H).
  - destruct H as (s' & -> & X & _). cbn.
    eapply extends_wf; [|exact X]. apply after_closing_wf, Hwf1.
  - rewrite H. exact Hwf1.
Qed.

Lemma run_wf (updates : list Update) (s : PairsTrading) :
  wf s -> wf (fst (run cfg lib qc updates s)).
Proof.
  unfold run. revert s. induction updates as [|u us IH]; intros s Hwf; [exact Hwf|].
  cbn [for_each]. unfold bind. pose proof (on_data_wf u s Hwf) as H1.
  destruct (on_data cfg lib qc u s) as [s1 [[]|e]]; cbn [fst] in *; auto.
Qed.

(** With statistics that never raise, an update of a well-formed state
    runs to its end. *)
Lemma on_data_quiet (data : Update) (s : PairsTrading) :
  wf s -> quiet lib -> exists s', on_data cfg lib qc data s = (s', Return tt).
Proof.
  intros Hwf Hq. destruct (on_data_spec data s Hwf) as (s1 & r1 & Er & _ & H).
  destruct (regenerate_quiet cfg lib data s Hq) as (s1' & Er').
  rewrite Er in Er'. injection Er' as -> ->.
  destruct H as (s' & E & _). eauto.
Qed.

End WellFormed.

(** ** The transcript of one update *)

Section Transcript.
Variable cfg : Config.
Variable lib : Statistics.
Variable qc : QCAlgorithm.
Variable data : Update.

Lemma emitted_app (s s' : PairsTrading) (evs : list Event) :
  transcript s' = transcript s ++ evs -> emitted s s' = evs.
Proof. intros H. unfold emitted. rewrite H. apply drop_app_length. Qed.

(** An update that regenerates without raising: its transcript is what
    regeneration says, then the closing loop, then the entry loop, and
    only the closing loop closes. *)
Lemma on_data_transcript (s s1 : PairsTrading) :
  wf s ->
  regenerate cfg lib data s = (s1, Return tt) ->
  exists s' pre post,
    on_data cfg lib qc data s = (s', Return tt)
    /\ wf s1
    /\ _trading_pairs s1 = _trading_pairs s
    /\ emitted s s'
       = pre ++ flat_map (closing_events cfg data (_pair_list s1) (_selected_pair s1))
                         (_trading_pairs s)
             ++ post
    /\ (forall e, e ∈ pre -> forall k, is_close k e = false)
    /\ (forall e, e ∈ post -> forall k, is_close k e = false)
    /\ (forall k, k ∈ open_pairs s'
          <-> k ∈ open_pairs (after_closing cfg data s1)
              \/ (k ∈ _selected_pair s1
                  /\ is_Some (entry_signal cfg data (_pair_list s1) k))).
Proof.
  intros Hwf Er.
  destruct (on_data_spec cfg lib qc data s Hwf) as (s1' & r1 & Er' & Hwf1 & H).
  rewrite Er in Er'. injection Er' as <- <-.
  destruct H as (s' & E & X & K).
  pose proof (regenerate_effect cfg lib data s s1 _ Er) as (Hb & _ & _ & Ht & _).
  destruct X as (added & evs & Es' & _ & _ & Hc).
  assert (Hpre : exists pre, transcript s1 = transcript s ++ pre
                   /\ forall e, e ∈ pre -> forall k, is_close k e = false).
  { destruct Ht as [Ht|Ht].
    - exists []. rewrite app_nil_r. split; [exact Ht|].
      intros e He. apply elem_of_nil in He. contradiction.
    - exists [Debug No_selected_pair]. split; [exact Ht|].
      intros e He k. apply list_elem_of_singleton in He. subst e. reflexivity. }
  destruct Hpre as (pre & Hpre & Hpc).
  exists s', pre, evs. split; [exact E|]. split; [exact Hwf1|]. split; [exact Hb|].
  split; [|auto].
  apply emitted_app. rewrite Es'. cbn. rewrite Hpre, Hb, <- !app_assoc. reflexivity.
Qed.

Lemma on_data_closes (s s1 s' : PairsTrading) (pair : nat) :
  wf s ->
  regenerate cfg lib data s = (s1, Return tt) ->
  on_data cfg lib qc data s = (s', Return tt) ->
  closes pair (emitted s s')
  = closes pair (flat_map (closing_events cfg data (_pair_list s1) (_selected_pair s1))
                          (_trading_pairs s)).
Proof.
  intros Hwf Er E.
  destruct (on_data_transcript s s1 Hwf Er) as (s'' & pre & post & E' & _ & _ & Hem & Hp & Hq & _).
  rewrite E in E'. injection E' as <-.
  rewrite Hem, !closes_app, (closes_none pair pre Hp), (closes_none pair post Hq). lia.
Qed.

Lemma closing_events_split (pairs : list Pairs) (sel : list nat) (pair : nat)
    (tp : TradingPair) (p : Pairs) (d : list (nat * TradingPair)) :
  (pair, tp) ∈ d -> pairs !! pair = Some p ->
  closing cfg data pairs sel (pair, tp) = true ->
  exists pre post,
    flat_map (closing_events cfg data pairs sel) d
    = pre ++ close_events p pair tp ++ post.
Proof.
  intros Hin Hp Hc. apply list_elem_of_split in Hin as (d1 & d2 & ->).
  rewrite flat_map_app. cbn [flat_map].
  unfold closing_events at 2. cbn [fst snd]. rewrite Hp, Hc.
  eexists _, _. reflexivity.
Qed.

End Transcript.

(** * The claims *)

(** ** At most one open position per pair *)

Lemma open_position_held (cfg : Config) (qc : QCAlgorithm) (data : Update)
    (symbol : option Symbol) (pair : nat) (s : PairsTrading) :
  pair ∈ open_pairs s -> fst (open_position cfg qc data symbol pair s) = s.
Proof.
  intros Hin. apply contains_elem_of in Hin.
  unfold open_position, bind, deref, getattr, get, raise.
  destruct (_pair_list s !! pair) as [p|]; [|reflexivity].
  destruct (model p) as [m|]; [|reflexivity].
  unfold ret at 1. cbn iota beta. rewrite Hin. reflexivity.
Qed.

(** C1.  In every state the engine goes through, whatever the updates, a
    pair has at most one entry in the book of open positions: this holds
    after any number of updates from the initial state, and each step
    (regeneration, one pass of the closing loop, one pass of the entry loop,
    a whole update) keeps it, whether it returns or raises.  The entry logic
    does nothing at all for a pair that has a position. *)
Theorem one_open_position_per_pair (cfg : Config) (lib : Statistics) (qc : QCAlgorithm) :
  (forall warm_up updates,
     NoDup (open_pairs (fst (run cfg lib qc updates (initialize cfg warm_up)))))
  /\ (forall data s,
        NoDup (open_pairs s) ->
        NoDup (open_pairs (fst (regenerate cfg lib data s)))
        /\ (forall item, NoDup (open_pairs (fst (close_position cfg data item s))))
        /\ (forall symbol pair,
              NoDup (open_pairs (fst (open_position cfg qc data symbol pair s))))
        /\ NoDup (open_pairs (fst (on_data cfg lib qc data s))))
  /\ (forall data symbol pair s,
        pair ∈ open_pairs s ->
        fst (open_position cfg qc data symbol pair s) = s).
Proof.
  split; [|split].
  - intros warm_up updates. unfold run.
    apply (for_each_invariant (fun s => NoDup (open_pairs s))).
    + intros data s. apply on_data_nodup.
    + cbn. apply NoDup_nil_2.
  - intros data s Hnd. repeat split.
    + unfold open_pairs. rewrite regenerate_book. exact Hnd.
    + intros item. apply close_position_nodup, Hnd.
    + intros symbol pair. apply open_position_nodup, Hnd.
    + apply on_data_nodup, Hnd.
  - intros data symbol pair s. apply open_position_held.
Qed.

(** ** Exit and stop-loss *)

Lemma update_book_set_pair_list (s : PairsTrading) (pairs : list Pairs)
    (d : list (nat * TradingPair)) (evs : list Event) :
  update_book (set_pair_list s pairs) d evs = set_pair_list (update_book s d evs) pairs.
Proof. reflexivity. Qed.


(** ** Entry *)

Lemma pair_num_positive (cfg : Config) : 0 < inject_Z (Z.pos (_pair_num cfg)).
Proof. unfold Qlt. cbn. lia. Qed.

Lemma target_positive (cfg : Config) : 0 < _leverage cfg -> 0 < target cfg.
Proof.
  intros H. unfold target, Qdiv.
  apply Qmult_lt_0_compat; [apply Qmult_lt_0_compat; [exact H|]|].
  - apply Qinv_lt_0_compat, pair_num_positive.
  - reflexivity.
Qed.

Lemma neg_target_opp (cfg : Config) : neg_target cfg == - target cfg.
Proof. unfold neg_target, target, Qdiv. ring. Qed.

Lemma neg_target_negative (cfg : Config) : 0 < _leverage cfg -> neg_target cfg < 0.
Proof.
  intros H. rewrite neg_target_opp.
  apply target_positive in H.
  apply (Qopp_lt_compat 0 (target cfg)). exact H.
Qed.

Lemma enter_short_not_long (cfg : Config) (p : Pairs) (error : Q) :
  0 <= _open_size cfg * p.(pair.epsilon) ->
  enter_short cfg p error -> ~ enter_long cfg p error.
Proof.
  unfold enter_short, enter_long.
  generalize (_open_size cfg * p.(pair.epsilon)) (p.(pair.mean_error)).
  intros w mu H0 Hs Hl. lra.
Qed.

(** C3.  For an active pair without a position the entry logic reads the
    live model: with error = priceA - (intercept + slope * priceB) it takes
    the long branch exactly when error < mean_error - openSize * epsilon and
    the short branch exactly when error > mean_error + openSize * epsilon,
    and does nothing otherwise.  The long branch sizes leg A with the
    positive weight and leg B with the negative one, sends one order per leg
    and records the position with a copy of the live model; the short branch
    does the same with the weights exchanged.  On a platform that sizes
    along the sign of the weight this is buy A, sell B, respectively sell A,
    buy B.  After a whole update, an active pair that the closing loop left
    without a position has one exactly when one of the two conditions
    held.  With mean_error = 0, epsilon = 1 and openSize = 2.32, the errors
    0, 1, 2.5 on a flat pair give no trade on the first two updates and open
    the short spread on the third. *)
Theorem entry_uses_live_model (cfg : Config) (lib : Statistics) (qc : QCAlgorithm)
    (data : Update) :
  (forall s pair p m sym,
     _pair_list s !! pair = Some p ->
     model p = Some m ->
     active s pair = true ->
     pair ∉ open_pairs s ->
     0 <= _open_size cfg * p.(pair.epsilon) ->
     let error :=
       prices_0_close (buffers data (a p))
       - (fst (params m) + snd (params m) * prices_0_close (buffers data (b p))) in
     let position side := entered cfg qc data sym p m side s in
     open_position cfg qc data (Some sym) pair s
       = match entry_side cfg p error with
         | Some side =>
             (update_book s (_trading_pairs s ++ [(pair, position side)])
                (entry_events side p (position side)), Return tt)
         | None => (s, Return tt)
         end
     /\ (entry_side cfg p error = Some LongSpread
         <-> error < p.(pair.mean_error) - _open_size cfg * p.(pair.epsilon))
     /\ (entry_side cfg p error = Some ShortSpread
         <-> p.(pair.mean_error) + _open_size cfg * p.(pair.epsilon) < error)
     /\ (entry_side cfg p error = None
         <-> ~ error < p.(pair.mean_error) - _open_size cfg * p.(pair.epsilon)
             /\ ~ p.(pair.mean_error) + _open_size cfg * p.(pair.epsilon) < error)
     /\ (forall side,
           position side
           = trading_pair.__init__
               {| ticket_symbol := a p;
                  quantity := calculate_order_quantity qc (transcript s) (buffers data)
                                sym (weight_a cfg side) |}
               {| ticket_symbol := b p;
                  quantity := calculate_order_quantity qc (transcript s) (buffers data)
                                sym (weight_b cfg side) |}
               (fst (params m)) (snd (params m))
               p.(pair.mean_error) p.(pair.epsilon))
     /\ (sign_faithful qc -> 0 < _leverage cfg ->
         (long_spread (position LongSpread)
          /\ quantity (ticket_b (position LongSpread)) < 0)
         /\ (short_spread (position ShortSpread)
             /\ 0 < quantity (ticket_b (position ShortSpread)))))
  /\ (forall s s1 pair p m,
        wf s ->
        regenerate cfg lib data s = (s1, Return tt) ->
        _pair_list s1 !! pair = Some p ->
        model p = Some m ->
        active s1 pair = true ->
        pair ∉ open_pairs (after_closing cfg data s1) ->
        exists s',
          on_data cfg lib qc data s = (s', Return tt)
          /\ (pair ∈ open_pairs s'
              <-> enter_long cfg p (live_error data p m)
                  \/ enter_short cfg p (live_error data p m)))
  /\ (let s2 := fst (run sample.cfg sample.lib sample.qc
                       [sample.tick 1 0; sample.tick 2 1] sample.start) in
      let s3 := fst (run sample.cfg sample.lib sample.qc
                       [sample.tick 1 0; sample.tick 2 1; sample.tick 3 2.5]
                       sample.start) in
      _open_size sample.cfg = 2.32
      /\ (exists p, _pair_list s2 !! 0%nat = Some p
                    /\ p.(pair.mean_error) == 0 /\ p.(pair.epsilon) == 1)
      /\ _selected_pair s2 = [0%nat]
      /\ transcript s2 = [] /\ _trading_pairs s2 = []
      /\ transcript s3 = [ MarketOrder "A" (-50); MarketOrder "B" 50;
                           Debug (Long_and_short 50 "B" (-50) "A") ]
      /\ exists tp, _trading_pairs s3 = [(0%nat, tp)] /\ short_spread tp).
Proof.
  split; [|split].
  - intros s pair p m sym Hp Hm Hact Hflat Heps. cbv zeta.
    fold (live_error data p m).
    split; [|split; [|split; [|split; [|split]]]].
    + rewrite (open_position_spec cfg qc data s pair p m sym Hp Hm).
      destruct (Py.contains (_trading_pairs s) pair) eqn:Hc.
      { apply contains_elem_of in Hc. contradiction. }
      destruct (entry_side cfg p (live_error data p m)); [|reflexivity].
      cbv zeta. rewrite (setitem_fresh _ _ _ Hflat). reflexivity.
    + apply entry_side_long.
    + rewrite entry_side_short. split; [tauto|]. intros H. split; [exact H|].
      apply enter_short_not_long; assumption.
    + apply entry_side_none.
    + intros side. reflexivity.
    + intros Hsf Hlev. unfold long_spread, short_spread, entered. cbn.
      repeat split.
      * apply Hsf, target_positive, Hlev.
      * apply Hsf, neg_target_negative, Hlev.
      * apply Hsf, neg_target_negative, Hlev.
      * apply Hsf, target_positive, Hlev.
  - intros s s1 pair p m Hwf Er Hp Hm Hact Hflat.
    destruct (on_data_transcript cfg lib qc data s s1 Hwf Er)
      as (s' & pre & post & E & _ & _ & _ & _ & _ & K).
    exists s'. split; [exact E|]. rewrite K.
    assert (Hsig : entry_signal cfg data (_pair_list s1) pair
                   = entry_side cfg p (live_error data p m)).
    { unfold entry_signal. rewrite Hp, Hm. reflexivity. }
    rewrite Hsig. apply active_elem_of in Hact. split.
    + intros [H|[_ [side Hside]]]; [contradiction|].
      destruct side.
      * left. apply entry_side_long. exact Hside.
      * right. apply entry_side_short in Hside. tauto.
    + intros H. right. split; [exact Hact|].
      destruct (entry_side cfg p (live_error data p m)) as [side|] eqn:Hside; [eauto|].
      apply entry_side_none in Hside. tauto.
  - cbv zeta. split; [reflexivity|]. split.
    { eexists. split; [vm_compute; reflexivity|]. split; reflexivity. }
    split; [vm_compute; reflexivity|].
    split; [vm_compute; reflexivity|].
    split; [vm_compute; reflexivity|].
    split; [vm_compute; reflexivity|].
    eexists. split; [vm_compute; reflexivity|]. reflexivity.
Qed.

(** ** Forced close *)

Lemma closing_inactive (cfg : Config) (data : Update) (s : PairsTrading)
    (pair : nat) (tp : TradingPair) (p : Pairs) :
  _pair_list s !! pair = Some p -> active s pair = false ->
  closing cfg data (_pair_list s) (_selected_pair s) (pair, tp) = true.
Proof.
  intros Hp Hact. unfold closing. cbn [fst snd]. rewrite Hp.
  unfold active in Hact. rewrite Hact. reflexivity.
Qed.

(** Running the closing loop a second time on the same prices does nothing. *)
Lemma close_positions_idempotent (cfg : Config) (data : Update) (s : PairsTrading) :
  wf s ->
  close_positions cfg data (after_closing cfg data s)
  = (after_closing cfg data s, Return tt).
Proof.
  intros Hwf. pose proof (after_closing_wf cfg data s Hwf) as Hwf2.
  rewrite (close_positions_spec cfg data _ (wf_book_nodup _ Hwf2) (wf_book_valid _ Hwf2)).
  f_equal. cbn [after_closing update_book _pair_list _selected_pair _trading_pairs].
  set (keep := fun it => closing cfg data (_pair_list s) (_selected_pair s) it = false).
  assert (Hf : forall d : list (nat * TradingPair),
             filter keep (filter keep d) = filter keep d).
  { induction d as [|it d IH]; [reflexivity|].
    rewrite filter_cons. destruct (decide (keep it)) as [Hk|Hk]; [|exact IH].
    rewrite filter_cons. destruct (decide (keep it)); [|contradiction].
    rewrite IH. reflexivity. }
  assert (He : forall d : list (nat * TradingPair),
             flat_map (closing_events cfg data (_pair_list s) (_selected_pair s))
               (filter keep d) = []).
  { induction d as [|it d IH]; [reflexivity|].
    rewrite filter_cons. destruct (decide (keep it)) as [Hk|Hk]; [|exact IH].
    cbn [flat_map]. rewrite IH, app_nil_r.
    unfold closing_events. unfold keep in Hk. rewrite Hk.
    destruct (_pair_list s !! fst it); reflexivity. }
  unfold update_book. cbn. rewrite Hf, He, app_nil_r. reflexivity.
Qed.

(** C4.  A pair that holds a position and is not in the active set is
    closed by the closing loop before any band is looked at: one order per
    leg reverses the recorded quantities and its position is removed.
    Within the update this happens once.  The entry loop only goes over
    active pairs, so the pair is flat when the update ends.  A pair that is
    flat and inactive is left alone, and running the closing loop again on
    the same update does nothing. *)
Theorem forced_close (cfg : Config) (lib : Statistics) (qc : QCAlgorithm)
    (data : Update) :
  (forall s pair tp p d,
     _pair_list s !! pair = Some p ->
     active s pair = false ->
     Py.pop (_trading_pairs s) pair = Some d ->
     close_position cfg data (pair, tp) s
     = (update_book s d
          [ MarketOrder (a p) (- quantity (ticket_a tp));
            MarketOrder (b p) (- quantity (ticket_b tp));
            Debug (Close pair) ],
        Return tt))
  /\ (forall s s1 pair tp,
        wf s ->
        regenerate cfg lib data s = (s1, Return tt) ->
        (pair, tp) ∈ _trading_pairs s ->
        active s1 pair = false ->
        exists s' p pre post,
          on_data cfg lib qc data s = (s', Return tt)
          /\ _pair_list s1 !! pair = Some p
          /\ emitted s s' = pre ++ close_events p pair tp ++ post
          /\ closes pair (emitted s s') = 1%nat
          /\ pair ∉ open_pairs s')
  /\ (forall s s1 pair,
        wf s ->
        regenerate cfg lib data s = (s1, Return tt) ->
        pair ∉ open_pairs s ->
        active s1 pair = false ->
        exists s',
          on_data cfg lib qc data s = (s', Return tt)
          /\ closes pair (emitted s s') = 0%nat
          /\ pair ∉ open_pairs s')
  /\ (forall s,
        wf s ->
        close_positions cfg data (after_closing cfg data s)
        = (after_closing cfg data s, Return tt)).
Proof.
  split; [|split; [|split]].
  - intros s pair tp p d Hp Hact Hd.
    rewrite (close_position_spec cfg data s pair p tp Hp).
    rewrite (closing_inactive cfg data s pair tp p Hp Hact).
    apply liquidate_spec. exact Hd.
  - intros s s1 pair tp Hwf Er Hin Hact.
    destruct (on_data_transcript cfg lib qc data s s1 Hwf Er)
      as (s' & pre & post & E & Hwf1 & Hb & Hem & Hpre & Hpost & K).
    assert (Hk : pair ∈ open_pairs s1).
    { unfold open_pairs. rewrite Hb. apply list_elem_of_fmap. exists (pair, tp). auto. }
    destruct (wf_book_valid _ Hwf1 pair Hk) as [p Hp].
    pose proof (closing_inactive cfg data s1 pair tp p Hp Hact) as Hc.
    destruct (closing_events_split cfg data _ _ pair tp p _ Hin Hp Hc) as (pre' & post' & Hsp).
    exists s', p, (pre ++ pre'), (post' ++ post).
    split; [exact E|]. split; [exact Hp|]. split; [|split].
    + rewrite Hem, Hsp, <- !app_assoc. reflexivity.
    + rewrite (on_data_closes cfg lib qc data s s1 s' pair Hwf Er E).
      rewrite (closes_closing_present cfg data _ _ pair tp _ (wf_book_nodup _ Hwf) Hin), Hc.
      reflexivity.
    + rewrite K. intros [H|[H _]].
      * apply after_closing_open_pairs in H as (tp' & _ & Hc'); [|apply Hwf1].
        rewrite (closing_inactive cfg data s1 pair tp' p Hp Hact) in Hc'. discriminate.
      * apply active_elem_of in H. congruence.
  - intros s s1 pair Hwf Er Hflat Hact.
    destruct (on_data_transcript cfg lib qc data s s1 Hwf Er)
      as (s' & pre & post & E & Hwf1 & Hb & Hem & Hpre & Hpost & K).
    exists s'. split; [exact E|]. split.
    + rewrite (on_data_closes cfg lib qc data s s1 s' pair Hwf Er E).
      apply closes_closing_absent. exact Hflat.
    + rewrite K. intros [H|[H _]].
      * apply after_closing_open_pairs in H as (tp' & Hin & _); [|apply Hwf1].
        apply Hflat. unfold open_pairs. rewrite <- Hb.
        apply list_elem_of_fmap. exists (pair, tp'). auto.
      * apply active_elem_of in H. congruence.
  - intros s. apply close_positions_idempotent.
Qed.

(** ** The selection rule *)

Section SelectionRule.
Variable cfg : Config.
Variable lib : Statistics.
Variable data : Update.

Lemma corr_of_tested (pairs : list Pairs) (k : nat) (p : Pairs) :
  pairs !! k = Some p ->
  corr_of lib data (map (tested cfg lib data) pairs) k
  = correlation lib (buffers data) p.
Proof.
  intros Hp. unfold corr_of.
  change (map (tested cfg lib data) pairs) with (tested cfg lib data <$> pairs).
  rewrite list_lookup_fmap, Hp. cbn.
  destruct (evolves_instruments lib data _ _ (tested_evolves cfg lib data p)) as [Ha Hb].
  apply correlation_ext; assumption.
Qed.

(** The members of the capped list are the first [_pair_num] of the list
    sorted by decreasing correlation: whoever is cut correlates no better
    than whoever is kept. *)
Lemma cap_full {K} `{Less K} (key : nat -> K) (sel : list nat) (k : nat) :
  k ∈ sel ->
  k ∉ cap cfg (Py.sort key true sel) ->
  length (cap cfg (Py.sort key true sel)) = Pos.to_nat (_pair_num cfg).
Proof.
  intros Hk Hout. unfold cap in *.
  assert (Hk' : k ∈ Py.sort key true sel) by (rewrite sort_perm; exact Hk).
  destruct (Nat.ltb_spec (Pos.to_nat (_pair_num cfg)) (length (Py.sort key true sel)))
    as [Hlt|Hge]; [|contradiction].
  rewrite length_firstn. lia.
Qed.

Lemma cap_top (key : nat -> Q) (sel : list nat) (k j : nat) :
  k ∈ sel ->
  k ∉ cap cfg (Py.sort key true sel) ->
  j ∈ cap cfg (Py.sort key true sel) ->
  key k <= key j.
Proof.
  intros Hk Hout Hj. unfold cap in *.
  pose proof (sort_reverse_sorted key sel) as Hs.
  assert (Hk' : k ∈ Py.sort key true sel) by (rewrite sort_perm; exact Hk).
  destruct (Nat.ltb_spec (Pos.to_nat (_pair_num cfg)) (length (Py.sort key true sel)))
    as [Hlt|Hge]; [|contradiction].
  rewrite <- (firstn_skipn (Pos.to_nat (_pair_num cfg)) (Py.sort key true sel)) in Hs, Hk'.
  apply elem_of_app in Hk' as [Hk'|Hk']; [contradiction|].
  exact (StronglySorted_app_1_elem_of _ _ _ _ _ Hs Hj Hk').
Qed.

(** The same when the keys are floats none of which is NaN. *)
Lemma cap_top_defined (key : nat -> Float) (sel : list nat) (k j : nat) (c d : Q) :
  (forall i, i ∈ sel -> exists x, key i = Num x) ->
  k ∈ sel ->
  k ∉ cap cfg (Py.sort key true sel) ->
  j ∈ cap cfg (Py.sort key true sel) ->
  key k = Num c -> key j = Num d ->
  c <= d.
Proof.
  intros Hnum Hk Hout Hj Hc Hd.
  rewrite (sort_numeric key true sel Hnum) in Hout, Hj.
  pose proof (cap_top (fun i => number (key i)) sel k j Hk Hout Hj) as Hle.
  cbn beta in Hle. rewrite Hc, Hd in Hle. exact Hle.
Qed.

Lemma generate_pairs_return (s s' : PairsTrading) (selected : list nat) :
  _generate_pairs cfg lib data s = (s', Return selected) ->
  let sel := survivors cfg lib data 0 (_pair_list s) in
  let pairs' := map (tested cfg lib data) (_pair_list s) in
  _pair_list s' = pairs'
  /\ ((sel = [] /\ selected = [])
      \/ (sel <> [] /\ selected = ranked cfg lib data pairs' sel)).
Proof.
  rewrite generate_pairs_spec. cbv zeta.
  destruct (select_loop cfg lib data 0 (_pair_list s) []) as [pairs' [sel|e]] eqn:E;
    [|discriminate].
  apply select_loop_return in E as [-> ->]. cbn [app].
  destruct (survivors cfg lib data 0 (_pair_list s)) as [|k0 sel0] eqn:Es; cbn.
  - intros [= <- <-]. auto.
  - intros [= <- <-]. split; [reflexivity|]. right. split; [discriminate|reflexivity].
Qed.



End SelectionRule.

(** ** Epsilon *)

Section Epsilon.
Variable cfg : Config.
Variable lib : Statistics.
Variable qc : QCAlgorithm.
Hypothesis sqrt_nonneg : forall x, 0 <= sqrt lib x.

Lemma cointegration_test_epsilon (buffers : Symbol -> SymbolData) (p : Pairs) :
  0 <= p.(pair.epsilon) ->
  0 <= (fst (cointegration_test lib buffers p)).(pair.epsilon).
Proof.
  intros H. unfold cointegration_test.
  destruct (coint lib _ _) as [cv|]; [|exact H].
  destruct (Qle_bool 0.05 (snd cv)); [exact H|].
  destruct (ols_fit lib _) as [fit|]; [|exact H].
  destruct (adfuller lib _); [|exact H].
  cbn. unfold np.std. apply sqrt_nonneg.
Qed.

Lemma evolves_epsilon (data : Update) (p p' : Pairs) :
  evolves lib data p p' -> 0 <= p.(pair.epsilon) -> 0 <= p'.(pair.epsilon).
Proof.
  intros [->|[r H]] Hp; [exact Hp|].
  pose proof (cointegration_test_epsilon (buffers data) p Hp) as H'.
  rewrite H in H'. exact H'.
Qed.

Lemma on_data_epsilon (data : Update) (s : PairsTrading) :
  Forall (fun p => 0 <= p.(pair.epsilon)) (_pair_list s) ->
  Forall (fun p => 0 <= p.(pair.epsilon)) (_pair_list (fst (on_data cfg lib qc data s))).
Proof.
  intros H. rewrite on_data_pairs.
  destruct (regenerate cfg lib data s) as [s1 r] eqn:Er.
  apply regenerate_effect in Er as (_ & _ & Hev & _). cbn [fst].
  rewrite Forall_forall in *. intros p' Hp'.
  apply list_elem_of_lookup in Hp' as [k Hk].
  destruct (Forall2_lookup_r _ _ _ _ _ Hev Hk) as (p & Hp & He).
  apply (evolves_epsilon data p p' He). apply H.
  apply list_elem_of_lookup. eauto.
Qed.

Lemma run_epsilon (warm_up : Symbol -> SymbolData) (updates : list Update) :
  Forall (fun p => 0 <= p.(pair.epsilon))
    (_pair_list (fst (run cfg lib qc updates (initialize cfg warm_up)))).
Proof.
  unfold run.
  apply (for_each_invariant (fun s => Forall (fun p => 0 <= p.(pair.epsilon)) (_pair_list s))).
  - intros data s. apply on_data_epsilon.
  - cbn. apply Forall_forall. intros p Hp.
    apply list_elem_of_fmap in Hp as (xy & -> & _). cbn. lra.
Qed.

End Epsilon.

Lemma entry_side_zero_epsilon (cfg : Config) (p : Pairs) (error : Q) :
  p.(pair.epsilon) == 0 ->
  (entry_side cfg p error = None <-> error == p.(pair.mean_error)).
Proof.
  intros He. rewrite entry_side_none. unfold enter_long, enter_short.
  rewrite He. generalize (_open_size cfg) (p.(pair.mean_error)). intros o mu.
  split.
  - intros [H1 H2]. lra.
  - intros H. split; lra.
Qed.

(** C5, as the code has it.  Epsilon is never negative: it starts at 0 and
    is only ever replaced by a standard deviation.  The entry logic has no
    test on epsilon.  For an active, flat pair with epsilon = 0 the two entry
    bands meet at mean_error, and the pair opens a position exactly when its
    error differs from mean_error: long when below, short when above. *)
Theorem epsilon_nonnegative_without_guard (cfg : Config) (lib : Statistics)
    (qc : QCAlgorithm) :
  ((forall x, 0 <= sqrt lib x) ->
   forall warm_up updates,
     Forall (fun p => 0 <= p.(pair.epsilon))
       (_pair_list (fst (run cfg lib qc updates (initialize cfg warm_up)))))
  /\ (forall data s pair p m sym,
        _pair_list s !! pair = Some p ->
        model p = Some m ->
        active s pair = true ->
        pair ∉ open_pairs s ->
        p.(pair.epsilon) == 0 ->
        let error := live_error data p m in
        let position side := entered cfg qc data sym p m side s in
        open_position cfg qc data (Some sym) pair s
          = match entry_side cfg p error with
            | Some side =>
                (update_book s (_trading_pairs s ++ [(pair, position side)])
                   (entry_events side p (position side)), Return tt)
            | None => (s, Return tt)
            end
        /\ (entry_side cfg p error = Some LongSpread <-> error < p.(pair.mean_error))
        /\ (entry_side cfg p error = Some ShortSpread <-> p.(pair.mean_error) < error)
        /\ (entry_side cfg p error = None <-> error == p.(pair.mean_error))).
Proof.
  split.
  - intros Hsqrt warm_up updates. apply run_epsilon. exact Hsqrt.
  - intros data s pair p m sym Hp Hm Hact Hflat He. cbv zeta.
    split; [|split; [|split]].
    + rewrite (open_position_spec cfg qc data s pair p m sym Hp Hm).
      destruct (Py.contains (_trading_pairs s) pair) eqn:Hc.
      { apply contains_elem_of in Hc. contradiction. }
      destruct (entry_side cfg p (live_error data p m)); [|reflexivity].
      cbv zeta. rewrite (setitem_fresh _ _ _ Hflat). reflexivity.
    + rewrite entry_side_long. unfold enter_long. rewrite He.
      generalize (_open_size cfg) (p.(pair.mean_error)) (live_error data p m).
      intros o mu e. split; intros H; lra.
    + rewrite entry_side_short. unfold enter_long, enter_short. rewrite He.
      generalize (_open_size cfg) (p.(pair.mean_error)) (live_error data p m).
      intros o mu e. split; [intros [H _]|intros H; split]; lra.
    + apply entry_side_zero_epsilon. exact He.
Qed.

(** The run on which C5, as the spec words it, fails: the regression fits
    exactly, epsilon is 0, the pair is selected, and on the same update it
    opens a position. *)
Lemma zero_epsilon_pair_enters :
  let s := fst (run sample.cfg sample.lib_exact_fit sample.qc [sample.tick 1 1]
                  sample.start) in
  (exists p, _pair_list s !! 0%nat = Some p /\ p.(pair.epsilon) = 0)
  /\ active s 0 = true
  /\ open_pairs sample.start = []
  /\ open_pairs s = [0%nat]
  /\ transcript s = [ MarketOrder "A" (-50); MarketOrder "B" 50;
                      Debug (Long_and_short 50 "B" (-50) "A") ].
Proof.
  cbv zeta. split; [eexists; split; vm_compute; reflexivity|].
  repeat split; vm_compute; reflexivity.
Qed.

(** ** Sizing of the legs *)

(** C6, as the code has it.  On every entry one order is sent per leg, A
    first, and the position records the two quantities.  Each quantity is the
    platform's answer for a weight: leverage / pair_num / 2 for the leg that
    is bought and the opposite for the leg that is sold, where pair_num is
    the configured cap on the number of active pairs, whatever the size of
    the active set at that moment. *)
Theorem leg_sizing (cfg : Config) (qc : QCAlgorithm) (data : Update)
    (s : PairsTrading) (pair : nat) (p : Pairs) (m : OLSResults) (sym : Symbol)
    (side : Side) :
  _pair_list s !! pair = Some p ->
  model p = Some m ->
  pair ∉ open_pairs s ->
  entry_side cfg p (live_error data p m) = Some side ->
  let per_leg := _leverage cfg / inject_Z (Z.pos (_pair_num cfg)) / 2 in
  exists s' qty_a qty_b msg tp,
    open_position cfg qc data (Some sym) pair s = (s', Return tt)
    /\ emitted s s' = [MarketOrder (a p) qty_a; MarketOrder (b p) qty_b; Debug msg]
    /\ _trading_pairs s' = _trading_pairs s ++ [(pair, tp)]
    /\ quantity (ticket_a tp) = qty_a
    /\ quantity (ticket_b tp) = qty_b
    /\ (exists i w,
          qty_a = calculate_order_quantity qc (transcript s) (buffers data) i w
          /\ w == match side with LongSpread => per_leg | ShortSpread => - per_leg end)
    /\ (exists i w,
          qty_b = calculate_order_quantity qc (transcript s) (buffers data) i w
          /\ w == match side with LongSpread => - per_leg | ShortSpread => per_leg end).
Proof.
  intros Hp Hm Hflat Hside. cbv zeta.
  rewrite (open_position_spec cfg qc data s pair p m sym Hp Hm).
  destruct (Py.contains (_trading_pairs s) pair) eqn:Hc.
  { apply contains_elem_of in Hc. contradiction. }
  rewrite Hside. cbv zeta. rewrite (setitem_fresh _ _ _ Hflat).
  eexists _, _, _, _, _. split; [reflexivity|].
  split; [rewrite emitted_update_book; reflexivity|].
  split; [reflexivity|]. split; [reflexivity|]. split; [reflexivity|].
  split; eexists sym, _; (split; [reflexivity|]); destruct side; cbn [weight_a weight_b];
    try reflexivity; apply neg_target_opp.
Qed.

(** The entry on which C6, as the spec words it, fails: one pair is active,
    yet the weight is 1 / 10 / 2 and not 1 / 1 / 2, and the quantity of leg
    "A" is the one the platform gives for "B". *)
Lemma sizing_counterexample :
  let s2 := fst (run sample.cfg sample.lib sample.qc_lots
                   [sample.tick 1 0; sample.tick 2 1] sample.start) in
  let s3 := fst (on_data sample.cfg sample.lib sample.qc_lots (sample.tick 3 2.5) s2) in
  let quantity_for i w :=
    calculate_order_quantity sample.qc_lots (transcript s2)
      (buffers (sample.tick 3 2.5)) i w in
  let by_active_pairs :=
    _leverage sample.cfg / Qnat (length (_selected_pair s2)) / 2 in
  length (_selected_pair s2) = 1%nat
  /\ emitted s2 s3 = [ MarketOrder "A" (-50); MarketOrder "B" 50;
                       Debug (Long_and_short 50 "B" (-50) "A") ]
  /\ quantity_for "A"%string (- by_active_pairs) = -5
  /\ quantity_for "A"%string (neg_target sample.cfg) = -(1 # 2)
  /\ quantity_for "B"%string (neg_target sample.cfg) = -50
  /\ ~ -50 == -5.
Proof.
  cbv zeta. repeat split; try (vm_compute; reflexivity).
  intros H. vm_compute in H. discriminate H.
Qed.

(** ** Close transitions within one update *)

Lemma book_functional {V} (d : list (nat * V)) (k : nat) (v1 v2 : V) :
  NoDup (map fst d) -> (k, v1) ∈ d -> (k, v2) ∈ d -> v1 = v2.
Proof.
  induction d as [|[k' v'] d IH]; intros Hnd H1 H2.
  - apply elem_of_nil in H1. contradiction.
  - cbn in Hnd. apply NoDup_cons in Hnd as [Hk Hnd].
    apply elem_of_cons in H1 as [H1|H1]; apply elem_of_cons in H2 as [H2|H2].
    + congruence.
    + exfalso. apply Hk. apply list_elem_of_fmap. exists (k, v2).
      split; [cbn; congruence|exact H2].
    + exfalso. apply Hk. apply list_elem_of_fmap. exists (k, v1).
      split; [cbn; congruence|exact H1].
    + apply IH; auto.
Qed.

(** C7, as the code has it.  Within one update a pair is closed at most
    once.  A pair that holds a position and is active is closed exactly once
    when its exit rule holds, whether the error came back inside the close
    band, went through the stop-loss band, or both, and is not closed when
    the rule does not hold.  The entry loop runs after the closing loop and
    looks at the book as the closing loop left it: a pair closed in an
    update is opened again in the same update exactly when the live model
    gives an entry signal.  This is the case after every stop-loss exit
    while the live model is still the one frozen in the position, epsilon is
    positive and openSize < stopLossSize. *)
Theorem one_close_per_update (cfg : Config) (lib : Statistics) (qc : QCAlgorithm)
    (data : Update) (s s1 : PairsTrading) :
  wf s ->
  regenerate cfg lib data s = (s1, Return tt) ->
  exists s',
    on_data cfg lib qc data s = (s', Return tt)
    /\ (forall pair, (closes pair (emitted s s') <= 1)%nat)
    /\ (forall pair tp p,
          (pair, tp) ∈ _trading_pairs s ->
          active s1 pair = true ->
          _pair_list s1 !! pair = Some p ->
          let error := frozen_error data p tp in
          (exit_rule cfg tp error ->
             closes pair (emitted s s') = 1%nat
             /\ (pair ∈ open_pairs s'
                 <-> is_Some (entry_signal cfg data (_pair_list s1) pair)))
          /\ (~ exit_rule cfg tp error ->
                closes pair (emitted s s') = 0%nat /\ pair ∈ open_pairs s'))
    /\ (forall pair tp p m,
          (pair, tp) ∈ _trading_pairs s ->
          active s1 pair = true ->
          _pair_list s1 !! pair = Some p ->
          model p = Some m ->
          model_intercept tp = fst (params m) ->
          model_slope tp = snd (params m) ->
          tp.(trading_pair.mean_error) = p.(pair.mean_error) ->
          tp.(trading_pair.epsilon) = p.(pair.epsilon) ->
          _open_size cfg < _stop_loss_size cfg ->
          0 < tp.(trading_pair.epsilon) ->
          let error := frozen_error data p tp in
          let mean_error := tp.(trading_pair.mean_error) in
          let epsilon := tp.(trading_pair.epsilon) in
          (long_spread tp /\ error < mean_error - _stop_loss_size cfg * epsilon)
          \/ (short_spread tp /\ mean_error + _stop_loss_size cfg * epsilon < error) ->
          closes pair (emitted s s') = 1%nat /\ pair ∈ open_pairs s').
Proof.
  intros Hwf Er.
  destruct (on_data_transcript cfg lib qc data s s1 Hwf Er)
    as (s' & pre & post & E & Hwf1 & Hb & Hem & Hpre & Hpost & K).
  exists s'. split; [exact E|].
  assert (Hcount : forall pair,
            closes pair (emitted s s')
            = closes pair (flat_map (closing_events cfg data (_pair_list s1)
                                       (_selected_pair s1)) (_trading_pairs s))).
  { intros pair. apply (on_data_closes cfg lib qc data s s1 s' pair Hwf Er E). }
  assert (Hnd : NoDup (map fst (_trading_pairs s))) by apply Hwf.
  assert (Hbody : forall pair tp p,
            (pair, tp) ∈ _trading_pairs s ->
            active s1 pair = true ->
            _pair_list s1 !! pair = Some p ->
            (exit_rule cfg tp (frozen_error data p tp) ->
               closes pair (emitted s s') = 1%nat
               /\ (pair ∈ open_pairs s'
                   <-> is_Some (entry_signal cfg data (_pair_list s1) pair)))
            /\ (~ exit_rule cfg tp (frozen_error data p tp) ->
                  closes pair (emitted s s') = 0%nat /\ pair ∈ open_pairs s')).
  { intros pair tp p Hin Hact Hp.
    assert (Hcl : closing cfg data (_pair_list s1) (_selected_pair s1) (pair, tp)
                  = exits cfg tp (frozen_error data p tp)).
    { unfold closing. cbn [fst snd]. rewrite Hp. unfold active in Hact. rewrite Hact.
      reflexivity. }
    pose proof (closes_closing_present cfg data (_pair_list s1) (_selected_pair s1)
                  pair tp _ Hnd Hin) as Hc.
    rewrite Hcl in Hc. rewrite Hcount, Hc.
    split; intros Hx.
    - apply exits_spec in Hx as Hx'. rewrite Hx'. split; [reflexivity|].
      rewrite K. split.
      + intros [H|[_ H]]; [|exact H].
        apply after_closing_open_pairs in H as (tp' & Hin' & Hc'); [|apply Hwf1].
        rewrite Hb in Hin'.
        assert (tp' = tp) by (apply (book_functional _ pair tp' tp Hnd); auto).
        subst tp'. rewrite Hcl, Hx' in Hc'. discriminate.
      + intros H. right. split; [apply active_elem_of; exact Hact|exact H].
    - assert (Hx' : exits cfg tp (frozen_error data p tp) = false).
      { apply not_true_is_false. intros H. apply exits_spec in H. contradiction. }
      rewrite Hx'. split; [reflexivity|].
      rewrite K. left. apply after_closing_open_pairs; [apply Hwf1|].
      exists tp. rewrite Hb. split; [exact Hin|]. rewrite Hcl. exact Hx'. }
  split; [|split].
  - intros pair. rewrite Hcount. apply closes_closing_le. exact Hnd.
  - intros pair tp p Hin Hact Hp. cbv zeta. apply Hbody; assumption.
  - intros pair tp p m Hin Hact Hp Hm Hi Hsl Hmu Hep Hos Hpos. cbv zeta. intros Hstop.
    destruct (Hbody pair tp p Hin Hact Hp) as [Hyes _].
    assert (Herr : live_error data p m = frozen_error data p tp).
    { unfold live_error, frozen_error. rewrite Hi, Hsl. reflexivity. }
    assert (Hband : _open_size cfg * tp.(trading_pair.epsilon)
                    < _stop_loss_size cfg * tp.(trading_pair.epsilon)).
    { apply Qmult_lt_compat_r; assumption. }
    assert (Hrule : exit_rule cfg tp (frozen_error data p tp)).
    { unfold exit_rule, exit_long, exit_short. tauto. }
    destruct (Hyes Hrule) as [Hone Hre]. split; [exact Hone|].
    apply Hre. unfold entry_signal. rewrite Hp, Hm, Herr.
    destruct (entry_side cfg p (frozen_error data p tp)) as [side|] eqn:Hside; [eauto|].
    exfalso. apply entry_side_none in Hside. unfold enter_long, enter_short in Hside.
    rewrite <- Hmu, <- Hep in Hside.
    revert Hband Hstop Hside.
    generalize (_open_size cfg * tp.(trading_pair.epsilon))
               (_stop_loss_size cfg * tp.(trading_pair.epsilon))
               (tp.(trading_pair.mean_error)) (frozen_error data p tp).
    intros o st mu e H1 [[_ H2]|[_ H2]] [H3 H4]; lra.
Qed.

(** The run on which C7, as the spec words it, fails: closeSize < openSize <
    stopLossSize, the short spread is stopped out at error 7, and the same
    update opens it again. *)
Lemma close_and_reopen_in_one_update :
  let s4 := fst (on_data sample.cfg sample.lib sample.qc (sample.tick 4 7)
                   sample.holding) in
  fst (run sample.cfg sample.lib sample.qc
         [sample.tick 1 0; sample.tick 2 1; sample.tick 3 2.5] sample.start)
  = sample.holding
  /\ _close_size sample.cfg < _open_size sample.cfg
  /\ _open_size sample.cfg < _stop_loss_size sample.cfg
  /\ open_pairs sample.holding = [0%nat]
  /\ emitted sample.holding s4
     = [ MarketOrder "A" 50; MarketOrder "B" (-50); Debug (Close 0);
         MarketOrder "A" (-50); MarketOrder "B" 50;
         Debug (Long_and_short 50 "B" (-50) "A") ]
  /\ closes 0 (emitted sample.holding s4) = 1%nat
  /\ length (filter (fun e => is_entry e = true) (emitted sample.holding s4)) = 1%nat
  /\ open_pairs s4 = [0%nat].
Proof.
  cbv zeta. repeat split; vm_compute; reflexivity.
Qed.

(** ** The sample states *)

Lemma flat_reachable :
  fst (run sample.cfg sample.lib sample.qc [sample.tick 1 0; sample.tick 2 1]
         sample.start) = sample.flat.
Proof. vm_compute. reflexivity. Qed.

Lemma holding_reachable :
  fst (run sample.cfg sample.lib sample.qc
         [sample.tick 1 0; sample.tick 2 1; sample.tick 3 2.5] sample.start)
  = sample.holding.
Proof. vm_compute. reflexivity. Qed.

Lemma flat_wf : wf sample.flat.
Proof. rewrite <- flat_reachable. apply run_wf, initialize_wf. Qed.

Lemma holding_wf : wf sample.holding.
Proof. rewrite <- holding_reachable. apply run_wf, initialize_wf. Qed.

Lemma rational_sqrt_nonneg (x : Q) : 0 <= sample.rational_sqrt x.
Proof.
  unfold sample.rational_sqrt, Qle. cbn.
  pose proof (Z.sqrt_nonneg (Qnum (Qred x))). lia.
Qed.

(** ** Instances on the sample states *)

(** On the state that holds the short spread the entry logic leaves the
    pair alone. *)
Lemma one_open_position_per_pair_witness :
  0%nat ∈ open_pairs sample.holding
  /\ fst (open_position sample.cfg sample.qc (sample.tick 4 7) (Some "B"%string) 0
            sample.holding) = sample.holding.
Proof.
  split; [apply list_elem_of_here|].
  apply (proj2 (proj2 (one_open_position_per_pair sample.cfg sample.lib sample.qc))).
  apply list_elem_of_here.
Defined.


(** On the flat pair the short branch is taken when the error is 2.5. *)
Lemma entry_uses_live_model_witness :
  entry_side sample.cfg sample.live (2.5 - (0 + 1 * 0)) = Some ShortSpread.
Proof.
  refine (proj2 (proj1 (proj2 (proj2 (proj1
    (entry_uses_live_model sample.cfg sample.lib sample.qc (sample.tick 3 2.5))
    sample.flat 0%nat sample.live sample.fit "B"%string _ _ _ _ _)))) _).
  - reflexivity.
  - reflexivity.
  - reflexivity.
  - apply not_elem_of_nil.
  - vm_compute. discriminate.
  - vm_compute. reflexivity.
Defined.

(** The short spread is closed when regeneration drops the pair. *)
Lemma forced_close_witness :
  let data := sample.tick 8000 2.5 in
  let s1 := fst (regenerate sample.cfg sample.lib_unrelated data sample.holding) in
  active s1 0 = false
  /\ exists s' p pre post,
       on_data sample.cfg sample.lib_unrelated sample.qc data sample.holding
       = (s', Return tt)
       /\ _pair_list s1 !! 0%nat = Some p
       /\ emitted sample.holding s' = pre ++ close_events p 0 sample.short ++ post
       /\ closes 0 (emitted sample.holding s') = 1%nat
       /\ 0%nat ∉ open_pairs s'.
Proof.
  cbv zeta. split; [vm_compute; reflexivity|].
  refine (proj1 (proj2
    (forced_close sample.cfg sample.lib_unrelated sample.qc (sample.tick 8000 2.5)))
    sample.holding _ 0%nat sample.short holding_wf _ _ _).
  - vm_compute. reflexivity.
  - apply list_elem_of_here.
  - vm_compute. reflexivity.
Defined.

(** Epsilon stays non-negative along the sample run. *)
Lemma epsilon_nonnegative_without_guard_witness :
  (forall x, 0 <= sqrt sample.lib x)
  /\ Forall (fun p => 0 <= p.(pair.epsilon))
       (_pair_list (fst (run sample.cfg sample.lib sample.qc
                           [sample.tick 1 0; sample.tick 2 1] sample.start))).
Proof.
  split; [exact rational_sqrt_nonneg|].
  exact (proj1 (epsilon_nonnegative_without_guard sample.cfg sample.lib sample.qc)
           rational_sqrt_nonneg (sample.quotes 0 0) [sample.tick 1 0; sample.tick 2 1]).
Defined.

(** The sizes of the two legs in the entry of the third update. *)
Lemma leg_sizing_witness :
  let per_leg := _leverage sample.cfg / inject_Z (Z.pos (_pair_num sample.cfg)) / 2 in
  exists s' qty_a qty_b msg tp,
    open_position sample.cfg sample.qc (sample.tick 3 2.5) (Some "B"%string) 0 sample.flat
    = (s', Return tt)
    /\ emitted sample.flat s'
       = [MarketOrder "A" qty_a; MarketOrder "B" qty_b; Debug msg]
    /\ _trading_pairs s' = [(0%nat, tp)]
    /\ quantity (ticket_a tp) = qty_a
    /\ quantity (ticket_b tp) = qty_b
    /\ (exists i w,
          qty_a = calculate_order_quantity sample.qc [] (sample.quotes 2.5 0) i w
          /\ w == - per_leg)
    /\ (exists i w,
          qty_b = calculate_order_quantity sample.qc [] (sample.quotes 2.5 0) i w
          /\ w == per_leg).
Proof.
  refine (leg_sizing sample.cfg sample.qc (sample.tick 3 2.5) sample.flat 0%nat
            sample.live sample.fit "B"%string ShortSpread _ _ _ _).
  - reflexivity.
  - reflexivity.
  - apply not_elem_of_nil.
  - vm_compute. reflexivity.
Defined.

(** At most one close in the update that stops the short spread out. *)
Lemma one_close_per_update_witness :
  exists s',
    on_data sample.cfg sample.lib sample.qc (sample.tick 4 7) sample.holding
    = (s', Return tt)
    /\ forall pair, (closes pair (emitted sample.holding s') <= 1)%nat.
Proof.
  destruct (one_close_per_update sample.cfg sample.lib sample.qc (sample.tick 4 7)
              sample.holding sample.holding holding_wf eq_refl)
    as (s' & E & H & _).
  exists s'. split; [exact E|exact H].
Defined.



(** * Further properties *)

(** ** The candidates *)

Lemma dict_keys_spec (l seen : list Symbol) :
  NoDup (Py.dict_keys seen l)
  /\ forall x, x ∈ Py.dict_keys seen l <-> x ∈ l /\ x ∉ seen.
Proof.
  revert seen. induction l as [|k l IH]; intros seen; cbn [Py.dict_keys].
  - split; [apply NoDup_nil_2|]. intros x. split.
    + intros H. apply elem_of_nil in H. contradiction.
    + intros [H _]. exact H.
  - destruct (bool_decide_reflect (k ∈ seen)) as [Hin|Hout].
    + destruct (IH seen) as [Hnd Hmem]. split; [exact Hnd|].
      intros x. rewrite Hmem, elem_of_cons. split; [tauto|].
      intros [[->|H] Hx]; [contradiction|auto].
    + destruct (IH (k :: seen)) as [Hnd Hmem]. split.
      * apply NoDup_cons. split; [|exact Hnd].
        rewrite Hmem, elem_of_cons. tauto.
      * intros x. rewrite !elem_of_cons, Hmem, elem_of_cons. split.
        -- intros [->|[H1 H2]]; [auto|tauto].
        -- intros [[->|H1] H2]; [auto|].
           destruct (decide (x = k)) as [->|Hne]; [auto|]. right. tauto.
Qed.

Lemma dict_keys_distinct (l seen : list Symbol) :
  NoDup l -> (forall x, x ∈ l -> x ∉ seen) -> Py.dict_keys seen l = l.
Proof.
  revert seen. induction l as [|k l IH]; intros seen Hnd Hs; [reflexivity|].
  cbn [Py.dict_keys]. apply NoDup_cons in Hnd as [Hk Hnd].
  destruct (bool_decide_reflect (k ∈ seen)) as [Hin|Hout].
  - exfalso. apply (Hs k); [apply elem_of_cons; auto|exact Hin].
  - f_equal. apply IH; [exact Hnd|].
    intros x Hx. rewrite elem_of_cons. intros [->|H]; [contradiction|].
    apply (Hs x); [apply elem_of_cons; auto|exact H].
Qed.

Lemma combinations2_elem {A} (l : list A) (x y : A) :
  (x, y) ∈ Py.combinations2 l
  <-> exists i j, (i < j)%nat /\ l !! i = Some x /\ l !! j = Some y.
Proof.
  induction l as [|z l IH]; cbn [Py.combinations2].
  - split; [intros H; apply elem_of_nil in H; contradiction|].
    intros (i & j & _ & H & _). discriminate.
  - rewrite elem_of_app, IH. split.
    + intros [H|(i & j & Hij & Hi & Hj)].
      * apply list_elem_of_fmap in H as (y' & [= -> ->] & Hy).
        apply list_elem_of_lookup in Hy as [j Hj].
        exists 0%nat, (S j). repeat split; [lia|exact Hj].
      * exists (S i), (S j). repeat split; [lia|exact Hi|exact Hj].
    + intros (i & j & Hij & Hi & Hj).
      destruct j as [|j]; [lia|]. cbn in Hj.
      destruct i as [|i].
      * left. cbn in Hi. injection Hi as ->.
        apply list_elem_of_fmap. exists y. split; [reflexivity|].
        apply list_elem_of_lookup. eauto.
      * right. exists i, j. repeat split; [lia|exact Hi|exact Hj].
Qed.

Lemma combinations2_NoDup {A} (l : list A) : NoDup l -> NoDup (Py.combinations2 l).
Proof.
  induction l as [|z l IH]; intros Hnd; cbn [Py.combinations2]; [apply NoDup_nil_2|].
  apply NoDup_cons in Hnd as [Hz Hnd].
  apply NoDup_app. repeat split.
  - apply (NoDup_fmap_2 (pair z)). exact Hnd.
  - intros [x y] H1 H2.
    apply list_elem_of_fmap in H1 as (y' & [= -> ->] & _).
    apply combinations2_elem in H2 as (i & j & _ & Hi & _).
    apply Hz. apply list_elem_of_lookup. eauto.
  - apply IH, Hnd.
Qed.

Lemma combinations2_length {A} (l : list A) :
  (2 * length (Py.combinations2 l) = length l * (length l - 1))%nat.
Proof.
  induction l as [|z l IH]; [reflexivity|].
  cbn [Py.combinations2 length]. rewrite length_app, length_map.
  replace (S (length l) - 1)%nat with (length l) by lia.
  destruct (length l) as [|n] eqn:E; [cbn in *; lia|].
  replace (S n - 1)%nat with n in IH by lia. nia.
Qed.

Lemma initialize_instruments (cfg : Config) (warm_up : Symbol -> SymbolData) :
  map instruments (_pair_list (initialize cfg warm_up))
  = filter (fun p => is_ready (warm_up (fst p)) && is_ready (warm_up (snd p)))
      (Py.combinations2 (Py.dict_keys [] (_symbols cfg))).
Proof.
  cbn [initialize _pair_list]. rewrite map_map.
  etransitivity; [|apply map_id]. apply map_ext. intros [x y]. reflexivity.
Qed.

Lemma filter_all {A} (P : A -> Prop) `{forall x, Decision (P x)} (l : list A) :
  (forall x, x ∈ l -> P x) -> filter P l = l.
Proof.
  induction l as [|x l IH]; intros Hl; [reflexivity|].
  rewrite filter_cons. destruct (decide (P x)) as [_|Hn].
  - f_equal. apply IH. intros y Hy. apply Hl, elem_of_cons. auto.
  - exfalso. apply Hn, Hl, elem_of_cons. auto.
Qed.

(** X1.  [initialize] creates one candidate for every two distinct tickers
    that are both ready after warm-up, in the order of the ticker list, the
    earlier ticker as instrument A: no candidate pairs an instrument with
    itself, no two candidates have the same two instruments in either order,
    a ticker listed twice counts once, and every candidate starts without a
    model.  When all n tickers are ready there are n (n - 1) / 2 candidates. *)
Theorem candidates_of_initialize (cfg : Config) (warm_up : Symbol -> SymbolData) :
  let keys := Py.dict_keys [] (_symbols cfg) in
  let pairs := _pair_list (initialize cfg warm_up) in
  NoDup keys
  /\ (forall x, x ∈ keys <-> x ∈ _symbols cfg)
  /\ NoDup (map instruments pairs)
  /\ (forall x y,
        (x, y) ∈ map instruments pairs
        <-> exists i j, (i < j)%nat /\ keys !! i = Some x /\ keys !! j = Some y
                        /\ is_ready (warm_up x) = true
                        /\ is_ready (warm_up y) = true)
  /\ (forall p, p ∈ pairs ->
        a p <> b p
        /\ ((b p, a p) ∉ map instruments pairs)
        /\ p = pair.__init__ (a p) (b p))
  /\ ((forall x, x ∈ keys -> is_ready (warm_up x) = true) ->
      (2 * length pairs = length keys * (length keys - 1))%nat).
Proof.
  cbv zeta.
  destruct (dict_keys_spec (_symbols cfg) []) as [Hnd Hkeys].
  assert (Hmem : forall x y,
            (x, y) ∈ map instruments (_pair_list (initialize cfg warm_up))
            <-> exists i j, (i < j)%nat
                  /\ Py.dict_keys [] (_symbols cfg) !! i = Some x
                  /\ Py.dict_keys [] (_symbols cfg) !! j = Some y
                  /\ is_ready (warm_up x) = true /\ is_ready (warm_up y) = true).
  { intros x y. rewrite initialize_instruments, list_elem_of_filter, combinations2_elem.
    cbn [fst snd]. rewrite andb_True, !Is_true_true. split.
    - intros [[H1 H2] (i & j & Hij & Hi & Hj)]. exists i, j. auto.
    - intros (i & j & Hij & Hi & Hj & H1 & H2). split; [auto|]. exists i, j. auto. }
  split; [exact Hnd|]. split.
  { intros x. rewrite Hkeys. split; [tauto|]. intros H. split; [exact H|].
    apply not_elem_of_nil. }
  split.
  { rewrite initialize_instruments. apply NoDup_filter, combinations2_NoDup, Hnd. }
  split; [exact Hmem|]. split.
  - intros p Hp.
    assert (Hi : instruments p ∈ map instruments (_pair_list (initialize cfg warm_up))).
    { apply list_elem_of_fmap. eauto. }
    unfold instruments in Hi. apply Hmem in Hi as (i & j & Hij & Hi & Hj & _).
    split; [|split].
    + intros Heq. rewrite Heq in Hi.
      pose proof (NoDup_lookup _ _ _ _ Hnd Hi Hj). lia.
    + intros H'. apply Hmem in H' as (i' & j' & Hij' & Hi' & Hj' & _).
      pose proof (NoDup_lookup _ _ _ _ Hnd Hi Hj').
      pose proof (NoDup_lookup _ _ _ _ Hnd Hj Hi'). lia.
    + cbn [initialize _pair_list] in Hp.
      apply list_elem_of_fmap in Hp as ([x y] & -> & _). reflexivity.
  - intros Hall.
    rewrite <- (length_map instruments), initialize_instruments, filter_all.
    + apply combinations2_length.
    + intros [x y] Hxy. apply combinations2_elem in Hxy as (i & j & _ & Hi & Hj).
      cbn [fst snd]. apply andb_True. split; apply Is_true_true, Hall;
        apply list_elem_of_lookup; eauto.
Qed.

(** ** The candidates never change *)

Lemma evolves_instruments_list (lib : Statistics) (data : Update)
    (pairs pairs' : list Pairs) :
  Forall2 (evolves lib data) pairs pairs' ->
  map instruments pairs' = map instruments pairs.
Proof.
  induction 1 as [|p p' l l' He _ IH]; [reflexivity|].
  cbn. rewrite IH. unfold instruments.
  destruct (evolves_instruments lib data p p' He) as [-> ->]. reflexivity.
Qed.

Lemma on_data_instruments (cfg : Config) (lib : Statistics) (qc : QCAlgorithm)
    (data : Update) (s : PairsTrading) :
  map instruments (_pair_list (fst (on_data cfg lib qc data s)))
  = map instruments (_pair_list s).
Proof.
  rewrite on_data_pairs.
  destruct (regenerate cfg lib data s) as [s1 r] eqn:Er.
  apply regenerate_effect in Er as (_ & _ & Hev & _).
  exact (evolves_instruments_list lib data _ _ Hev).
Qed.

(** X2.  The candidate list is fixed once and for all by [initialize]:
    whatever the updates, and whether they return or raise, [on_data] adds no
    candidate, drops none and never changes the two instruments of one.  An
    instrument that was not ready at warm-up is therefore in no pair for the
    whole run, however much history it gathers later. *)
Theorem candidates_are_fixed (cfg : Config) (lib : Statistics) (qc : QCAlgorithm)
    (warm_up : Symbol -> SymbolData) (updates : list Update) :
  let s' := fst (run cfg lib qc updates (initialize cfg warm_up)) in
  map instruments (_pair_list s') = map instruments (_pair_list (initialize cfg warm_up))
  /\ length (_pair_list s') = length (_pair_list (initialize cfg warm_up))
  /\ forall p, p ∈ _pair_list s' ->
       is_ready (warm_up (a p)) = true /\ is_ready (warm_up (b p)) = true.
Proof.
  cbv zeta.
  assert (H : map instruments
                (_pair_list (fst (run cfg lib qc updates (initialize cfg warm_up))))
              = map instruments (_pair_list (initialize cfg warm_up))).
  { unfold run.
    apply (for_each_invariant
             (fun s => map instruments (_pair_list s)
                       = map instruments (_pair_list (initialize cfg warm_up)))).
    - intros data s Hs. rewrite on_data_instruments. exact Hs.
    - reflexivity. }
  split; [exact H|]. split.
  - rewrite <- (length_map instruments), H, length_map. reflexivity.
  - intros p Hp.
    assert (Hi : instruments p ∈ map instruments (_pair_list (initialize cfg warm_up))).
    { rewrite <- H. apply list_elem_of_fmap. eauto. }
    rewrite initialize_instruments in Hi. apply list_elem_of_filter in Hi as [Hr _].
    cbn [fst snd instruments] in Hr. apply andb_True in Hr as [H1 H2].
    split; apply Is_true_true; assumption.
Qed.

(** ** The active set *)

Section ActiveSet.
Variable cfg : Config.
Variable lib : Statistics.
Variable data : Update.

Lemma survivors_NoDup (pairs : list Pairs) (i : nat) :
  NoDup (survivors cfg lib data i pairs).
Proof.
  revert i. induction pairs as [|p pairs IH]; intros i; cbn [survivors].
  - apply NoDup_nil_2.
  - destruct (survivor cfg lib data p); [|apply IH].
    apply NoDup_cons. split; [|apply IH].
    intros H. apply survivors_elem in H as (q & Hle & _). lia.
Qed.

Lemma survivors_length (pairs : list Pairs) (i : nat) :
  length (survivors cfg lib data i pairs)
  = length (filter (fun p => survivor cfg lib data p = true) pairs).
Proof.
  revert i. induction pairs as [|p pairs IH]; intros i; cbn [survivors]; [reflexivity|].
  rewrite filter_cons. destruct (survivor cfg lib data p) eqn:E.
  - destruct (decide (true = true)); [|congruence]. cbn. rewrite IH. reflexivity.
  - destruct (decide (false = true)); [discriminate|]. apply IH.
Qed.

Lemma cap_length_min (l : list nat) :
  length (cap cfg l) = Nat.min (Pos.to_nat (_pair_num cfg)) (length l).
Proof.
  unfold cap. destruct (Nat.ltb_spec (Pos.to_nat (_pair_num cfg)) (length l)).
  - rewrite length_firstn. reflexivity.
  - lia.
Qed.

Lemma cap_NoDup (l : list nat) : NoDup l -> NoDup (cap cfg l).
Proof.
  unfold cap. destruct (Nat.ltb _ _); [|auto].
  intros H. apply (sublist_NoDup _ l); [exact H|apply sublist_take].
Qed.

Lemma ranked_NoDup (pairs : list Pairs) (sel : list nat) :
  NoDup sel -> NoDup (ranked cfg lib data pairs sel).
Proof.
  intros H. unfold ranked. rewrite sort_perm. apply cap_NoDup.
  rewrite sort_perm. exact H.
Qed.

Lemma ranked_length_min (pairs : list Pairs) (sel : list nat) :
  length (ranked cfg lib data pairs sel)
  = Nat.min (Pos.to_nat (_pair_num cfg)) (length sel).
Proof.
  unfold ranked.
  rewrite (Permutation_length (sort_perm _ _ _)), cap_length_min.
  rewrite (Permutation_length (sort_perm _ _ _)). reflexivity.
Qed.

(** X3.  When [_generate_pairs] returns, the list it returns has no pair
    twice, has exactly min (pair_num, number of candidates passing the
    filters) members, and is in order of increasing stationary_p, each member
    with a stationary_p below 0.05 set in this cycle. *)
Theorem active_set_order (s s' : PairsTrading) (selected : list nat) :
  _generate_pairs cfg lib data s = (s', Return selected) ->
  NoDup selected
  /\ length selected
     = Nat.min (Pos.to_nat (_pair_num cfg))
         (length (filter (fun p => survivor cfg lib data p = true) (_pair_list s)))
  /\ StronglySorted (ascending (stationary_p_of (_pair_list s'))) selected
  /\ forall k, k ∈ selected ->
       exists p sp,
         _pair_list s' !! k = Some p /\ stationary_p p = Some sp
         /\ stationary_p_of (_pair_list s') k = sp /\ sp < 0.05.
Proof.
  intros H. apply generate_pairs_return in H as [Hpl Hsel]. cbv zeta in Hsel.
  rewrite <- survivors_length with (i := 0%nat).
  set (sel := survivors cfg lib data 0 (_pair_list s)) in *.
  assert (Hfit : forall k, k ∈ sel ->
            exists p sp, _pair_list s' !! k = Some p /\ stationary_p p = Some sp
                         /\ stationary_p_of (_pair_list s') k = sp /\ sp < 0.05).
  { intros k Hk. destruct (tested_lookup cfg lib data _ _ Hk) as (p & Hp & Hs & Hl).
    apply survivor_spec in Hs as Hel. destruct Hel as [Hc (p' & sp & Ht & Hsp & Hlt)].
    exists p', sp. unfold stationary_p_of. rewrite Hpl, Hl.
    assert (Htp : tested cfg lib data p = p').
    { unfold tested. apply Fltb_not_below in Hc. rewrite Hc, Ht. reflexivity. }
    rewrite Htp, Hsp. auto. }
  destruct Hsel as [[Hnil ->]|[_ ->]].
  - rewrite Hnil. cbn. split; [apply NoDup_nil_2|]. split; [lia|].
    split; [constructor|]. intros k Hk. apply elem_of_nil in Hk. contradiction.
  - split; [apply ranked_NoDup, survivors_NoDup|].
    split; [apply ranked_length_min|]. split.
    + unfold ranked, Py.sort. rewrite Hpl. apply sort_by_sorted.
    + intros k Hk. apply Hfit. apply ranked_subset in Hk. exact Hk.
Qed.

End ActiveSet.

(** ** The regeneration schedule *)

Section Schedule.
Variable cfg : Config.
Variable lib : Statistics.
Variable qc : QCAlgorithm.
Variable data : Update.

(** The two trading loops touch the book and the transcript only. *)
Lemma on_data_frame (s : PairsTrading) :
  let s1 := fst (regenerate cfg lib data s) in
  let s' := fst (on_data cfg lib qc data s) in
  _selected_pair s' = _selected_pair s1
  /\ _regenerate_time s' = _regenerate_time s1
  /\ _symbol_data s' = _symbol_data s1.
Proof.
  cbv zeta. rewrite on_data_unfold.
  destruct (regenerate cfg lib data s) as [s1 [[]|e]]; cbn [fst]; [|auto].
  set (P := fun s0 : PairsTrading =>
              _selected_pair s0 = _selected_pair s1
              /\ _regenerate_time s0 = _regenerate_time s1
              /\ _symbol_data s0 = _symbol_data s1).
  assert (H2 : P (fst (close_positions cfg data s1))).
  { unfold close_positions, bind, get. apply (for_each_invariant P).
    - intros x s0 Hs0.
      destruct (close_position_shape cfg data x s0) as (d & evs & -> & _). exact Hs0.
    - unfold P. auto. }
  destruct (close_positions cfg data s1) as [s2 [[]|e]]; cbn [fst] in *; [|exact H2].
  unfold open_positions, bind, get. apply (for_each_invariant P); [|exact H2].
  intros x s0 Hs0.
  destruct (open_position_shape cfg qc data (last (_symbol_data s)) x s0)
    as (d & evs & -> & _).
  exact Hs0.
Qed.

Lemma generate_pairs_frame (s s1 : PairsTrading) (r : Res (list nat)) :
  _generate_pairs cfg lib data s = (s1, r) ->
  _selected_pair s1 = _selected_pair s
  /\ _regenerate_time s1 = _regenerate_time s
  /\ _trading_pairs s1 = _trading_pairs s
  /\ _symbol_data s1 = _symbol_data s.
Proof.
  rewrite generate_pairs_spec.
  destruct (select_loop cfg lib data 0 (_pair_list s) []) as [pairs' [sel|e]].
  - destruct (Nat.eqb (length sel) 0); intros [= <- <-]; cbn; auto.
  - intros [= <- <-]. cbn. auto.
Qed.

(** X4.  The active set changes on schedule only.  An update whose time is
    not after [_regenerate_time] leaves the active set, the pair objects and
    the schedule as they are.  An update whose time is after it runs
    [_generate_pairs]: if that returns, the active set is the returned list
    and the next regeneration is due five days later; if it raises, the
    update raises, and neither the active set nor the schedule has moved. *)
Theorem regeneration_schedule (s : PairsTrading) :
  let s' := fst (on_data cfg lib qc data s) in
  ((time data <= _regenerate_time s)%Z ->
     _selected_pair s' = _selected_pair s
     /\ _pair_list s' = _pair_list s
     /\ _regenerate_time s' = _regenerate_time s)
  /\ ((_regenerate_time s < time data)%Z ->
      forall s1 r, _generate_pairs cfg lib data s = (s1, r) ->
        match r with
        | Return selected =>
            _selected_pair s' = selected
            /\ _pair_list s' = _pair_list s1
            /\ _regenerate_time s' = (time data + 7200)%Z
        | Raise e =>
            on_data cfg lib qc data s = (s1, Raise e)
            /\ _selected_pair s1 = _selected_pair s
            /\ _regenerate_time s1 = _regenerate_time s
        end).
Proof.
  cbv zeta. pose proof (on_data_frame s) as Hf. cbv zeta in Hf.
  pose proof (on_data_pairs cfg lib qc data s) as Hp.
  rewrite regenerate_spec in Hf, Hp. split.
  - intros Hle. apply Z.ltb_ge in Hle. rewrite Hle in Hf, Hp. cbn [fst] in *. tauto.
  - intros Hlt s1 r Hg. pose proof (generate_pairs_frame s s1 r Hg) as (Hs & Ht & _).
    apply Z.ltb_lt in Hlt. rewrite Hlt, Hg in Hf, Hp.
    destruct r as [selected|e]; cbn [fst] in *.
    + destruct Hf as (-> & -> & _). rewrite Hp. cbn. auto.
    + split; [|auto]. rewrite on_data_unfold, regenerate_spec, Hlt, Hg. reflexivity.
Qed.

End Schedule.

(** ** What regeneration sends *)

(** X5.  [_generate_pairs] sends no order and leaves the book, the active
    set and the schedule to its caller.  When it returns it has logged 'No
    selected pair', once, if no candidate passes the filters, and then it
    returns the empty list; it has logged nothing if some candidate passes.
    When it raises it has logged nothing. *)
Theorem generate_pairs_side_effects (cfg : Config) (lib : Statistics) (data : Update)
    (s s' : PairsTrading) (r : Res (list nat)) :
  _generate_pairs cfg lib data s = (s', r) ->
  let passing := filter (fun p => survivor cfg lib data p = true) (_pair_list s) in
  _trading_pairs s' = _trading_pairs s
  /\ _selected_pair s' = _selected_pair s
  /\ _regenerate_time s' = _regenerate_time s
  /\ match r with
     | Return selected =>
         (passing = [] -> selected = [] /\ emitted s s' = [Debug No_selected_pair])
         /\ (passing <> [] -> emitted s s' = [])
     | Raise e => emitted s s' = []
     end.
Proof.
  intros H. cbv zeta.
  destruct (generate_pairs_frame cfg lib data s s' r H) as (Hs & Ht & Hb & _).
  split; [exact Hb|]. split; [exact Hs|]. split; [exact Ht|].
  rewrite generate_pairs_spec in H.
  destruct (select_loop cfg lib data 0 (_pair_list s) []) as [pairs' [sel|e]] eqn:E.
  - apply select_loop_return in E as [-> ->]. cbn [app] in H.
    pose proof (survivors_length cfg lib data (_pair_list s) 0) as Hlen.
    destruct (survivors cfg lib data 0 (_pair_list s)) as [|k0 sel0]; cbn in H, Hlen.
    + injection H as <- <-. split.
      * intros _. split; [reflexivity|]. apply emitted_app. reflexivity.
      * intros Hne. exfalso. apply Hne.
        destruct (filter _ (_pair_list s)); [reflexivity|discriminate].
    + injection H as <- <-. split.
      * intros Hnil. rewrite Hnil in Hlen. discriminate.
      * intros _. apply emitted_app. cbn. rewrite app_nil_r. reflexivity.
  - injection H as <- <-. apply emitted_app. cbn. rewrite app_nil_r. reflexivity.
Qed.

(** ** Invariants of a run *)

Section RunInvariants.
Variable cfg : Config.
Variable lib : Statistics.
Variable qc : QCAlgorithm.

Lemma for_each_return_invariant {A} (P : PairsTrading -> Prop) (body : A -> M unit)
    (l : list A) (s s' : PairsTrading) :
  (forall x s0 s1, P s0 -> body x s0 = (s1, Return tt) -> P s1) ->
  P s -> for_each body l s = (s', Return tt) -> P s'.
Proof.
  intros Hb. revert s. induction l as [|x l IH]; intros s Hs.
  - intros [= <-]. exact Hs.
  - cbn [for_each]. unfold bind.
    destruct (body x s) as [s1 [[]|e]] eqn:E; [|discriminate].
    apply IH. exact (Hb x s s1 Hs E).
Qed.

Lemma regenerate_selected (data : Update) (s s1 : PairsTrading) (r : Res unit) :
  regenerate cfg lib data s = (s1, r) ->
  _selected_pair s1 = _selected_pair s
  \/ exists s0, _generate_pairs cfg lib data s = (s0, Return (_selected_pair s1)).
Proof.
  rewrite regenerate_spec.
  destruct (_regenerate_time s <? time data)%Z; [|intros [= <- <-]; auto].
  destruct (_generate_pairs cfg lib data s) as [s0 [sel|e]] eqn:E.
  - intros [= <- <-]. right. exists s0. reflexivity.
  - intros [= <- <-]. left.
    destruct (generate_pairs_frame cfg lib data s s0 _ E) as (H & _). exact H.
Qed.

Lemma on_data_bounded (data : Update) (s : PairsTrading) :
  NoDup (_selected_pair s)
  /\ (length (_selected_pair s) <= Pos.to_nat (_pair_num cfg))%nat ->
  let s' := fst (on_data cfg lib qc data s) in
  NoDup (_selected_pair s')
  /\ (length (_selected_pair s') <= Pos.to_nat (_pair_num cfg))%nat.
Proof.
  intros Hs. cbv zeta.
  destruct (on_data_frame cfg lib qc data s) as (-> & _).
  destruct (regenerate cfg lib data s) as [s1 r] eqn:Er. cbn [fst].
  apply regenerate_selected in Er as [->|[s0 Hg]]; [exact Hs|].
  destruct (active_set_order cfg lib data s s0 _ Hg) as (Hnd & Hlen & _).
  split; [exact Hnd|]. rewrite Hlen. lia.
Qed.

Lemma on_data_returns (data : Update) (s s' : PairsTrading) :
  wf s ->
  on_data cfg lib qc data s = (s', Return tt) ->
  exists s1, regenerate cfg lib data s = (s1, Return tt).
Proof.
  intros Hwf E. destruct (on_data_spec cfg lib qc data s Hwf) as (s1 & [[]|e] & Er & _ & H).
  - eauto.
  - rewrite H in E. discriminate.
Qed.

Lemma on_data_positions_active (data : Update) (s s' : PairsTrading) :
  wf s ->
  on_data cfg lib qc data s = (s', Return tt) ->
  forall k, k ∈ open_pairs s' -> k ∈ _selected_pair s'.
Proof.
  intros Hwf E.
  destruct (on_data_returns data s s' Hwf E) as [s1 Er].
  destruct (on_data_transcript cfg lib qc data s s1 Hwf Er)
    as (s'' & pre & post & E' & Hwf1 & _ & _ & _ & _ & K).
  rewrite E in E'. injection E' as <-.
  pose proof (on_data_frame cfg lib qc data s) as Hf. cbv zeta in Hf.
  rewrite E, Er in Hf. cbn [fst] in Hf. destruct Hf as (Hf & _). rewrite Hf.
  intros k Hk. apply K in Hk as [Hk|[Hk _]]; [|exact Hk].
  apply (after_closing_open_pairs cfg data s1 k (wf_book_nodup _ Hwf1)) in Hk
    as (tp & Hin & Hc).
  destruct (wf_book_valid _ Hwf1 k) as [p Hp].
  { apply list_elem_of_fmap. exists (k, tp). auto. }
  unfold closing in Hc. cbn [fst snd] in Hc. rewrite Hp in Hc.
  apply orb_false_iff in Hc as [Hc _]. apply negb_false_iff in Hc.
  apply active_elem_of. exact Hc.
Qed.

(** X6.  Along every run from [initialize], whether it ends normally or by
    an exception, the active set has no pair twice, never has more than
    [_pair_num] members, and each of its members has a fitted model.  When
    the run ends normally every open position belongs to an active pair, so
    that there are never more than [_pair_num] open positions after an
    update. *)
Theorem active_set_bounds (warm_up : Symbol -> SymbolData) (updates : list Update) :
  let out := run cfg lib qc updates (initialize cfg warm_up) in
  NoDup (_selected_pair (fst out))
  /\ (length (_selected_pair (fst out)) <= Pos.to_nat (_pair_num cfg))%nat
  /\ (forall k, k ∈ _selected_pair (fst out) ->
        exists p m, _pair_list (fst out) !! k = Some p /\ model p = Some m)
  /\ (snd out = Return tt ->
      (forall k, k ∈ open_pairs (fst out) -> k ∈ _selected_pair (fst out))
      /\ (length (open_pairs (fst out)) <= Pos.to_nat (_pair_num cfg))%nat).
Proof.
  cbv zeta.
  assert (Hb : NoDup (_selected_pair (fst (run cfg lib qc updates (initialize cfg warm_up))))
               /\ (length (_selected_pair
                             (fst (run cfg lib qc updates (initialize cfg warm_up))))
                   <= Pos.to_nat (_pair_num cfg))%nat).
  { unfold run.
    apply (for_each_invariant
             (fun s => NoDup (_selected_pair s)
                       /\ (length (_selected_pair s) <= Pos.to_nat (_pair_num cfg))%nat)).
    - intros data s. apply on_data_bounded.
    - cbn. split; [apply NoDup_nil_2|lia]. }
  pose proof (run_wf cfg lib qc updates _ (initialize_wf cfg warm_up)) as Hwf.
  destruct Hb as [Hnd Hlen]. split; [exact Hnd|]. split; [exact Hlen|].
  split; [apply Hwf|].
  intros Hret.
  assert (Hsub : forall k,
            k ∈ open_pairs (fst (run cfg lib qc updates (initialize cfg warm_up))) ->
            k ∈ _selected_pair (fst (run cfg lib qc updates (initialize cfg warm_up)))).
  { destruct (run cfg lib qc updates (initialize cfg warm_up)) as [s' r] eqn:E.
    cbn [fst snd] in *. subst r. unfold run in E.
    assert (HP : wf s' /\ forall k, k ∈ open_pairs s' -> k ∈ _selected_pair s').
    { apply (for_each_return_invariant
               (fun s => wf s /\ forall k, k ∈ open_pairs s -> k ∈ _selected_pair s)
               (on_data cfg lib qc) updates (initialize cfg warm_up) s').
      - intros data s0 s1 [Hwf0 _] E1. split.
        + pose proof (on_data_wf cfg lib qc data s0 Hwf0) as H. rewrite E1 in H. exact H.
        + apply (on_data_positions_active data s0 s1 Hwf0 E1).
      - split; [apply initialize_wf|]. cbn. intros k Hk.
        apply elem_of_nil in Hk. contradiction.
      - exact E. }
    apply HP. }
  split; [exact Hsub|].
  etransitivity; [|exact Hlen].
  apply submseteq_length, NoDup_submseteq; [apply Hwf|exact Hsub].
Qed.

End RunInvariants.

(** ** Exceptions *)

Section Exceptions.
Variable cfg : Config.
Variable lib : Statistics.
Variable qc : QCAlgorithm.

Lemma cointegration_test_raise (data : Update) (p p' : Pairs) (e : Exception) :
  cointegration_test lib (buffers data) p = (p', Raise e) -> raised_by lib data p e.
Proof.
  unfold cointegration_test, raised_by.
  destruct (coint lib _ _) as [cv|e0]; [|intros [= _ <-]; auto].
  destruct (Qle_bool 0.05 (snd cv)); [discriminate|].
  destruct (ols_fit lib _) as [fit|e1]; [|intros [= _ <-]; auto].
  destruct (adfuller lib (resid fit)) as [adf|e2] eqn:Ha; [discriminate|].
  intros [= _ <-]. right. right. exists fit. auto.
Qed.

Lemma select_loop_raise (data : Update) (pairs pairs' : list Pairs) (i : nat)
    (acc : list nat) (e : Exception) :
  select_loop cfg lib data i pairs acc = (pairs', Raise e) ->
  exists p, p ∈ pairs /\ raised_by lib data p e.
Proof.
  revert i acc pairs'. induction pairs as [|p pairs IH]; intros i acc pairs';
    cbn [select_loop]; [discriminate|].
  assert (Hrest : forall j acc' rest,
            select_loop cfg lib data j pairs acc' = (rest, Raise e) ->
            exists q, q ∈ p :: pairs /\ raised_by lib data q e).
  { intros j acc' rest H. destruct (IH _ _ _ H) as (q & Hq & Hr).
    exists q. split; [apply elem_of_cons; auto|exact Hr]. }
  destruct (Fltb _ _).
  { destruct (select_loop _ _ _ _ _ _) as [rest r] eqn:E.
    intros [= _ ->]. exact (Hrest _ _ _ E). }
  destruct (cointegration_test lib (buffers data) p) as [p' [[|]|e0]] eqn:Ht.
  - destruct (cointegration_test_true lib data p p' Ht) as [_ [sp Hsp]].
    rewrite Hsp.
    destruct (select_loop _ _ _ _ _ _) as [rest r] eqn:E.
    intros [= _ ->]. exact (Hrest _ _ _ E).
  - destruct (select_loop _ _ _ _ _ _) as [rest r] eqn:E.
    intros [= _ ->]. exact (Hrest _ _ _ E).
  - intros [= _ <-]. exists p. split; [apply elem_of_cons; auto|].
    exact (cointegration_test_raise data p p' e0 Ht).
Qed.

Lemma on_data_raise (data : Update) (s s' : PairsTrading) (e : Exception) :
  wf s ->
  on_data cfg lib qc data s = (s', Raise e) ->
  (exists p, p ∈ _pair_list s /\ raised_by lib data p e)
  /\ (_regenerate_time s < time data)%Z
  /\ _trading_pairs s' = _trading_pairs s
  /\ transcript s' = transcript s
  /\ _selected_pair s' = _selected_pair s
  /\ _regenerate_time s' = _regenerate_time s.
Proof.
  intros Hwf E.
  destruct (on_data_spec cfg lib qc data s Hwf) as (s1 & [[]|e1] & Er & _ & H).
  { destruct H as (s'' & E' & _). rewrite E in E'. discriminate. }
  rewrite H in E. injection E as -> ->.
  rewrite regenerate_spec in Er.
  destruct (_regenerate_time s <? time data)%Z eqn:Hlt; [|discriminate].
  apply Z.ltb_lt in Hlt.
  rewrite generate_pairs_spec in Er.
  destruct (select_loop cfg lib data 0 (_pair_list s) []) as [pairs' [sel|e0]] eqn:Es.
  { destruct (Nat.eqb (length sel) 0); discriminate. }
  injection Er as <- <-. split; [exact (select_loop_raise _ _ _ _ _ _ Es)|].
  cbn. auto.
Qed.

(** X7.  [on_data] has no handler and raises nothing of its own.  From a
    state reached from [initialize], an update raises only if one of the
    statistics routines called by [cointegration_test] raises during a
    regeneration that was due, and the exception is that one; the update
    then stops before the trading loops: no order is sent, the book, the
    active set and the schedule are as before.  In particular no update
    fails on a pair without a model, on a missing key of the book or on the
    sizing variable.  With statistics that never raise, every run ends
    normally. *)
Theorem exceptions_come_from_statistics (warm_up : Symbol -> SymbolData)
    (updates : list Update) :
  (forall data s' e,
     let s := fst (run cfg lib qc updates (initialize cfg warm_up)) in
     on_data cfg lib qc data s = (s', Raise e) ->
     (exists p, p ∈ _pair_list s /\ raised_by lib data p e)
     /\ (_regenerate_time s < time data)%Z
     /\ _trading_pairs s' = _trading_pairs s
     /\ transcript s' = transcript s
     /\ _selected_pair s' = _selected_pair s
     /\ _regenerate_time s' = _regenerate_time s)
  /\ (forall s' e,
        run cfg lib qc updates (initialize cfg warm_up) = (s', Raise e) ->
        exists data p, data ∈ updates /\ p ∈ _pair_list s' /\ raised_by lib data p e)
  /\ (quiet lib ->
      snd (run cfg lib qc updates (initialize cfg warm_up)) = Return tt).
Proof.
  split; [|split].
  - intros data s' e. cbv zeta. apply on_data_raise.
    apply run_wf, initialize_wf.
  - intros s' e. unfold run.
    generalize (initialize_wf cfg warm_up). generalize (initialize cfg warm_up).
    induction updates as [|u us IH]; intros s Hwf; [discriminate|].
    cbn [for_each]. unfold bind.
    destruct (on_data cfg lib qc u s) as [s1 [[]|e1]] eqn:E.
    + intros H. pose proof (on_data_wf cfg lib qc u s Hwf) as Hwf1.
      rewrite E in Hwf1. destruct (IH s1 Hwf1 H) as (data & p & Hd & Hp & Hr).
      exists data, p. split; [apply elem_of_cons; auto|auto].
    + intros [= <- <-].
      destruct (on_data_raise u s s1 e1 Hwf E) as ((p & Hp & Hr) & _).
      assert (Hi : map instruments (_pair_list s1) = map instruments (_pair_list s)).
      { pose proof (on_data_instruments cfg lib qc u s) as H. rewrite E in H. exact H. }
      assert (Hin : instruments p ∈ map instruments (_pair_list s1)).
      { rewrite Hi. apply list_elem_of_fmap. eauto. }
      apply list_elem_of_fmap in Hin as (p1 & Heq & Hp1).
      exists u, p1. split; [apply elem_of_cons; auto|]. split; [exact Hp1|].
      unfold instruments in Heq. injection Heq as Ha Hb.
      unfold raised_by, _data_frame in *. rewrite <- Ha, <- Hb. exact Hr.
  - intros Hq. unfold run.
    generalize (initialize_wf cfg warm_up). generalize (initialize cfg warm_up).
    induction updates as [|u us IH]; intros s Hwf; [reflexivity|].
    cbn [for_each]. unfold bind.
    destruct (on_data_quiet cfg lib qc u s Hwf Hq) as [s1 E]. rewrite E.
    apply IH. pose proof (on_data_wf cfg lib qc u s Hwf) as Hwf1.
    rewrite E in Hwf1. exact Hwf1.
Qed.

End Exceptions.

(** ** Orders and positions balance *)

Lemma Qsum_app (l1 l2 : list Q) : Qsum (l1 ++ l2) == Qsum l1 + Qsum l2.
Proof.
  unfold Qsum. induction l1 as [|x l1 IH]; cbn [app fold_right].
  - ring.
  - rewrite IH. ring.
Qed.

Lemma net_app (sym : Symbol) (e1 e2 : list Event) :
  net sym (e1 ++ e2) == net sym e1 + net sym e2.
Proof. unfold net. rewrite map_app. apply Qsum_app. Qed.

Lemma held_app (sym : Symbol) (d1 d2 : list (nat * TradingPair)) :
  held sym (d1 ++ d2) == held sym d1 + held sym d2.
Proof. unfold held. rewrite map_app. apply Qsum_app. Qed.

Lemma held_cons (sym : Symbol) (it : nat * TradingPair) (d : list (nat * TradingPair)) :
  held sym (it :: d) == position_on sym it + held sym d.
Proof. reflexivity. Qed.

Lemma net_close_events (sym : Symbol) (p : Pairs) (k : nat) (tp : TradingPair) :
  ticket_symbol (ticket_a tp) = a p ->
  ticket_symbol (ticket_b tp) = b p ->
  net sym (close_events p k tp) == - position_on sym (k, tp).
Proof.
  intros Ha Hb. unfold net, close_events, position_on, leg, ordered. cbn.
  rewrite Ha, Hb.
  destruct (String.eqb (a p) sym), (String.eqb (b p) sym); ring.
Qed.

Lemma net_entry_events (sym : Symbol) (side : Side) (p : Pairs) (k : nat)
    (tp : TradingPair) :
  ticket_symbol (ticket_a tp) = a p ->
  ticket_symbol (ticket_b tp) = b p ->
  net sym (entry_events side p tp) == position_on sym (k, tp).
Proof.
  intros Ha Hb. unfold net, entry_events, position_on, leg, ordered. cbn.
  rewrite Ha, Hb.
  destruct (String.eqb (a p) sym), (String.eqb (b p) sym); ring.
Qed.

Section Balance.
Variable cfg : Config.
Variable lib : Statistics.
Variable qc : QCAlgorithm.
Variable data : Update.

Lemma closing_balance (sym : Symbol) (pairs : list Pairs) (sel : list nat)
    (d : list (nat * TradingPair)) :
  tickets_match pairs d ->
  net sym (flat_map (closing_events cfg data pairs sel) d) + held sym d
  == held sym (filter (fun it => closing cfg data pairs sel it = false) d).
Proof.
  induction d as [|[k tp] d IH]; intros Hm.
  - cbn. ring.
  - assert (Hm' : tickets_match pairs d).
    { intros k' tp' p' Hin. apply Hm. apply elem_of_cons. auto. }
    specialize (IH Hm').
    cbn [flat_map]. rewrite net_app, held_cons, filter_cons.
    unfold closing_events at 1. cbn [fst snd].
    destruct (pairs !! k) as [p|] eqn:Hp.
    + destruct (Hm k tp p) as [Ha Hb]; [apply elem_of_cons; auto|exact Hp|].
      destruct (closing cfg data pairs sel (k, tp)) eqn:Hc.
      * destruct (decide (true = false)); [discriminate|].
        rewrite (net_close_events sym p k tp Ha Hb), <- IH. ring.
      * destruct (decide (false = false)); [|congruence].
        rewrite held_cons, <- IH. unfold net at 1. cbn. ring.
    + assert (Hc : closing cfg data pairs sel (k, tp) = false).
      { unfold closing. cbn [fst]. rewrite Hp. reflexivity. }
      rewrite Hc. destruct (decide (false = false)); [|congruence].
      rewrite held_cons, <- IH. unfold net at 1. cbn. ring.
Qed.

(** The two facts carried along the entry loop. *)
Lemma open_position_balance (symbol : option Symbol) (k : nat) (s : PairsTrading) :
  tickets_match (_pair_list s) (_trading_pairs s) ->
  (forall sym, net sym (transcript s) == held sym (_trading_pairs s)) ->
  let s' := fst (open_position cfg qc data symbol k s) in
  tickets_match (_pair_list s') (_trading_pairs s')
  /\ (forall sym, net sym (transcript s') == held sym (_trading_pairs s')).
Proof.
  intros Hm Hb. cbv zeta.
  destruct (_pair_list s !! k) as [p|] eqn:Hp.
  2:{ unfold open_position, bind, deref. rewrite Hp. cbn. auto. }
  destruct (model p) as [m|] eqn:Hmod.
  2:{ unfold open_position, bind, deref, getattr, raise. rewrite Hp, Hmod. cbn. auto. }
  destruct symbol as [sym0|].
  - rewrite (open_position_spec cfg qc data s k p m sym0 Hp Hmod).
    destruct (Py.contains (_trading_pairs s) k) eqn:Hc; [cbn [fst]; split; assumption|].
    destruct (entry_side cfg p (live_error data p m)) as [side|]; [|cbn [fst]; split; assumption].
    assert (Hk : k ∉ map fst (_trading_pairs s)).
    { intros H. apply contains_elem_of in H. congruence. }
    cbv zeta. rewrite (setitem_fresh _ _ _ Hk). cbn [fst update_book _pair_list
      _trading_pairs transcript].
    set (tp := entered cfg qc data sym0 p m side s).
    split.
    + intros k' tp' p' Hin Hp'. apply elem_of_app in Hin as [Hin|Hin].
      * exact (Hm k' tp' p' Hin Hp').
      * apply list_elem_of_singleton in Hin. injection Hin as -> ->.
        assert (p' = p) by congruence. subst p'. split; reflexivity.
    + intros sym. rewrite net_app, held_app, (Hb sym).
      rewrite (net_entry_events sym side p k tp eq_refl eq_refl).
      unfold held. cbn. ring.
  - assert (Hs : fst (open_position cfg qc data None k s) = s).
    { unfold open_position, bind, deref, getattr, get, raise, ret. rewrite Hp, Hmod.
      destruct (negb _); [|reflexivity].
      destruct (Qltb _ _); [reflexivity|].
      destruct (Qltb _ _); reflexivity. }
    rewrite Hs. split; assumption.
Qed.

Lemma open_loop_balance (symbol : option Symbol) (l : list nat) (s : PairsTrading) :
  tickets_match (_pair_list s) (_trading_pairs s) ->
  (forall sym, net sym (transcript s) == held sym (_trading_pairs s)) ->
  let s' := fst (for_each (open_position cfg qc data symbol) l s) in
  tickets_match (_pair_list s') (_trading_pairs s')
  /\ (forall sym, net sym (transcript s') == held sym (_trading_pairs s')).
Proof.
  intros Hm Hb. cbv zeta.
  apply (for_each_invariant
           (fun s0 => tickets_match (_pair_list s0) (_trading_pairs s0)
                      /\ forall sym, net sym (transcript s0) == held sym (_trading_pairs s0))).
  - intros k s0 [Hm0 Hb0]. exact (open_position_balance symbol k s0 Hm0 Hb0).
  - auto.
Qed.

Lemma on_data_balance (s : PairsTrading) :
  wf s ->
  tickets_match (_pair_list s) (_trading_pairs s) ->
  (forall sym, net sym (transcript s) == held sym (_trading_pairs s)) ->
  let s' := fst (on_data cfg lib qc data s) in
  tickets_match (_pair_list s') (_trading_pairs s')
  /\ (forall sym, net sym (transcript s') == held sym (_trading_pairs s')).
Proof.
  intros Hwf Hm Hb. cbv zeta. rewrite on_data_unfold.
  destruct (regenerate cfg lib data s) as [s1 r] eqn:Er.
  pose proof (regenerate_wf cfg lib data s s1 r Hwf Er) as Hwf1.
  pose proof (regenerate_effect cfg lib data s s1 r Er) as (Hbk & _ & Hev & Htr & _).
  assert (Hm1 : tickets_match (_pair_list s1) (_trading_pairs s1)).
  { rewrite Hbk. intros k tp p1 Hin Hp1.
    destruct (Forall2_lookup_r _ _ _ _ _ Hev Hp1) as (p & Hp & He).
    destruct (evolves_instruments lib data p p1 He) as [-> ->].
    exact (Hm k tp p Hin Hp). }
  assert (Hb1 : forall sym, net sym (transcript s1) == held sym (_trading_pairs s1)).
  { intros sym. rewrite Hbk. destruct Htr as [->| ->]; [apply Hb|].
    rewrite net_app, (Hb sym). unfold net at 1. cbn. ring. }
  destruct r as [[]|e]; cbn [fst]; [|auto].
  rewrite (close_positions_spec cfg data s1 (wf_book_nodup _ Hwf1) (wf_book_valid _ Hwf1)).
  fold (after_closing cfg data s1).
  apply open_loop_balance.
  - unfold after_closing, update_book. cbn [_pair_list _trading_pairs].
    intros k tp p Hin Hp. apply list_elem_of_filter in Hin as [_ Hin].
    exact (Hm1 k tp p Hin Hp).
  - intros sym. unfold after_closing, update_book. cbn [transcript _trading_pairs].
    rewrite net_app, (Hb1 sym), <- (closing_balance sym _ _ _ Hm1). ring.
Qed.

End Balance.

(** X8.  No position leaks.  Along every run from [initialize], whether it
    ends normally or by an exception, and for every instrument, the
    quantities of all the market orders sent on that instrument add up to the
    quantities recorded for it in the tickets of the positions that are open:
    every close sends back exactly what its entry sent, on the two
    instruments of the pair.  Whenever the book is empty the orders on every
    instrument add up to zero. *)
Theorem orders_balance_positions (cfg : Config) (lib : Statistics) (qc : QCAlgorithm)
    (warm_up : Symbol -> SymbolData) (updates : list Update) :
  let s' := fst (run cfg lib qc updates (initialize cfg warm_up)) in
  tickets_match (_pair_list s') (_trading_pairs s')
  /\ (forall sym, net sym (transcript s') == held sym (_trading_pairs s'))
  /\ (_trading_pairs s' = [] -> forall sym, net sym (transcript s') == 0).
Proof.
  cbv zeta.
  assert (H : wf (fst (run cfg lib qc updates (initialize cfg warm_up)))
              /\ tickets_match
                   (_pair_list (fst (run cfg lib qc updates (initialize cfg warm_up))))
                   (_trading_pairs (fst (run cfg lib qc updates (initialize cfg warm_up))))
              /\ forall sym,
                   net sym (transcript (fst (run cfg lib qc updates (initialize cfg warm_up))))
                   == held sym (_trading_pairs
                                  (fst (run cfg lib qc updates (initialize cfg warm_up))))).
  { unfold run.
    apply (for_each_invariant
             (fun s => wf s
                       /\ tickets_match (_pair_list s) (_trading_pairs s)
                       /\ forall sym, net sym (transcript s) == held sym (_trading_pairs s))).
    - intros data s (Hwf & Hm & Hb). split; [apply on_data_wf, Hwf|].
      exact (on_data_balance cfg lib qc data s Hwf Hm Hb).
    - split; [apply initialize_wf|]. split.
      + intros k tp p Hin. cbn in Hin. apply elem_of_nil in Hin. contradiction.
      + intros sym. reflexivity. }
  destruct H as (_ & Hm & Hb). split; [exact Hm|]. split; [exact Hb|].
  intros Hnil sym. rewrite (Hb sym), Hnil. reflexivity.
Qed.

(** ** The pair objects after a cycle *)

Section Cycle.
Variable cfg : Config.
Variable lib : Statistics.
Variable data : Update.

Lemma cointegration_test_return (p p' : Pairs) (ok : bool) :
  cointegration_test lib (buffers data) p = (p', Return ok) ->
  exists cv,
    coint lib (series (buffers data (a p))) (series (buffers data (b p))) = Return cv
    /\ ((ok = false /\ 0.05 <= snd cv /\ p' = p)
        \/ (ok = true /\ snd cv < 0.05
            /\ exists fit adf,
                 ols_fit lib (_data_frame (buffers data) p) = Return fit
                 /\ adfuller lib (resid fit) = Return adf
                 /\ p' = fitted lib p fit adf)).
Proof.
  unfold cointegration_test.
  destruct (coint lib _ _) as [cv|]; [|discriminate].
  destruct (Qle_bool 0.05 (snd cv)) eqn:Hp.
  - intros [= <- <-]. exists cv. split; [reflexivity|]. left.
    apply Qle_bool_iff in Hp. auto.
  - destruct (ols_fit lib _) as [fit|]; [|discriminate].
    destruct (adfuller lib (resid fit)) as [adf|] eqn:Ha; [|discriminate].
    intros [= <- <-]. exists cv. split; [reflexivity|]. right.
    split; [reflexivity|]. split.
    + apply Qltb_lt. unfold Qltb. rewrite Hp. reflexivity.
    + exists fit, adf. auto.
Qed.

Lemma select_loop_tests (pairs pairs' : list Pairs) (i : nat) (acc sel : list nat) :
  select_loop cfg lib data i pairs acc = (pairs', Return sel) ->
  forall p, p ∈ pairs ->
    not_below (_min_corr_threshold cfg) (correlation lib (buffers data) p) ->
    exists p' ok, cointegration_test lib (buffers data) p = (p', Return ok).
Proof.
  revert i acc pairs' sel.
  induction pairs as [|q pairs IH]; intros i acc pairs' sel H p Hp Hc.
  - apply elem_of_nil in Hp. contradiction.
  - cbn [select_loop] in H.
    assert (Hrest : forall j acc' rest sel',
              select_loop cfg lib data j pairs acc' = (rest, Return sel') ->
              p ∈ pairs ->
              exists p' ok, cointegration_test lib (buffers data) p = (p', Return ok)).
    { intros j acc' rest sel' H' Hin. exact (IH _ _ _ _ H' p Hin Hc). }
    apply elem_of_cons in Hp as [->|Hp].
    + apply Fltb_not_below in Hc. rewrite Hc in H.
      destruct (cointegration_test lib (buffers data) q) as [q' [ok|e]]; [eauto|].
      discriminate.
    + destruct (Fltb _ _).
      { destruct (select_loop _ _ _ _ _ _) as [rest [sel'|]] eqn:E; [|discriminate].
        exact (Hrest _ _ _ _ E Hp). }
      destruct (cointegration_test lib (buffers data) q) as [q' [[|]|e]];
        [| |discriminate].
      * destruct (stationary_p q'); [|discriminate].
        destruct (select_loop _ _ _ _ _ _) as [rest [sel'|]] eqn:E; [|discriminate].
        exact (Hrest _ _ _ _ E Hp).
      * destruct (select_loop _ _ _ _ _ _) as [rest [sel'|]] eqn:E; [|discriminate].
        exact (Hrest _ _ _ _ E Hp).
Qed.

(** X9.  After a cycle of [_generate_pairs] that returns, every pair object
    is either exactly as before or carries a complete new fit (model,
    mean_error, epsilon and stationary_p of this cycle): none is left half
    updated.  It is as before when its correlation is below the threshold or
    its cointegration p-value is 0.05 or more, so that a pair that fails a
    filter keeps the values of its last successful fit; it is refitted
    otherwise (its correlation is at least the threshold or is NaN, and the
    p-value is below 0.05), also when it is then not selected.  Every
    selected pair is refitted. *)
Theorem pair_objects_after_a_cycle (s s' : PairsTrading) (selected : list nat) :
  _generate_pairs cfg lib data s = (s', Return selected) ->
  length (_pair_list s') = length (_pair_list s)
  /\ forall k p,
       _pair_list s !! k = Some p ->
       exists p',
         _pair_list s' !! k = Some p'
         /\ (forall c,
               correlation lib (buffers data) p = Num c ->
               c < _min_corr_threshold cfg -> p' = p)
         /\ (forall cv,
               coint lib (series (buffers data (a p))) (series (buffers data (b p)))
                 = Return cv ->
               0.05 <= snd cv -> p' = p)
         /\ (forall cv,
               not_below (_min_corr_threshold cfg) (correlation lib (buffers data) p) ->
               coint lib (series (buffers data (a p))) (series (buffers data (b p)))
                 = Return cv ->
               snd cv < 0.05 ->
               exists fit adf,
                 ols_fit lib (_data_frame (buffers data) p) = Return fit
                 /\ adfuller lib (resid fit) = Return adf
                 /\ p' = fitted lib p fit adf)
         /\ (k ∈ selected -> exists fit adf, p' = fitted lib p fit adf).
Proof.
  intros H. rewrite generate_pairs_spec in H.
  destruct (select_loop cfg lib data 0 (_pair_list s) []) as [pairs' [sel|e]] eqn:E;
    [|discriminate].
  pose proof (select_loop_tests _ _ _ _ _ E) as Htests.
  apply select_loop_return in E as [-> ->]. cbn [app] in H.
  assert (Hpl : _pair_list s' = map (tested cfg lib data) (_pair_list s)).
  { destruct (Nat.eqb _ 0); injection H as <- _; reflexivity. }
  assert (Hsel : forall k, k ∈ selected -> k ∈ survivors cfg lib data 0 (_pair_list s)).
  { destruct (Nat.eqb _ 0); injection H as _ <-.
    - intros k Hk. apply elem_of_nil in Hk. contradiction.
    - intros k. apply ranked_subset. }
  split; [rewrite Hpl; apply length_map|].
  intros k p Hp. exists (tested cfg lib data p). split.
  { rewrite Hpl. change (map (tested cfg lib data) (_pair_list s))
      with (tested cfg lib data <$> _pair_list s).
    rewrite list_lookup_fmap, Hp. reflexivity. }
  assert (Hin : p ∈ _pair_list s) by (apply list_elem_of_lookup; eauto).
  split; [|split; [|split]].
  - intros c Hnum Hlt. unfold tested. rewrite Hnum. cbn [Fltb].
    apply Qltb_lt in Hlt. rewrite Hlt. reflexivity.
  - intros cv Hc Hge. unfold tested. destruct (Fltb _ _); [reflexivity|].
    unfold cointegration_test. rewrite Hc. apply Qle_bool_iff in Hge. rewrite Hge.
    reflexivity.
  - intros cv Hcorr Hc Hlt.
    destruct (Htests p Hin Hcorr) as (p' & ok & Ht).
    unfold tested. apply Fltb_not_below in Hcorr. rewrite Hcorr, Ht. cbn [fst].
    destruct (cointegration_test_return p p' ok Ht) as (cv' & Hc' & Hcase).
    assert (cv' = cv) by congruence. subst cv'.
    destruct Hcase as [(_ & Hge & _)|(_ & _ & fit & adf & Ho & Ha & ->)].
    + exfalso. exact (Qlt_not_le _ _ Hlt Hge).
    + exists fit, adf. auto.
  - intros Hk. apply Hsel in Hk. apply survivors_elem in Hk as (q & _ & Hq & Hs).
    rewrite Nat.sub_0_r in Hq. assert (q = p) by congruence. subst q.
    apply survivor_spec in Hs as [Hcorr (p' & sp & Ht & _)].
    unfold tested. apply Fltb_not_below in Hcorr. rewrite Hcorr, Ht. cbn [fst].
    destruct (cointegration_test_return p p' true Ht) as (cv & _ & Hcase).
    destruct Hcase as [(Hf & _)|(_ & _ & fit & adf & _ & _ & ->)]; [discriminate|].
    exists fit, adf. reflexivity.
Qed.

End Cycle.

(** ** The synchronised frame *)

Lemma join_nil_l (y : list (Z * Q)) : pd.dropna (pd.concat [] y) = [].
Proof. cbn. induction y as [|r y IH]; [reflexivity|exact IH]. Qed.

Lemma join_nil_r (x : list (Z * Q)) : pd.dropna (pd.concat x []) = [].
Proof.
  rewrite concat_nil_r. induction x as [|r x IH]; [reflexivity|exact IH].
Qed.

Lemma join_cons (t1 : Z) (v1 : Q) (x : list (Z * Q)) (t2 : Z) (v2 : Q)
    (y : list (Z * Q)) :
  pd.dropna (pd.concat ((t1, v1) :: x) ((t2, v2) :: y))
  = match (t1 ?= t2)%Z with
    | Lt => pd.dropna (pd.concat x ((t2, v2) :: y))
    | Eq => (t1, (v1, v2)) :: pd.dropna (pd.concat x y)
    | Gt => pd.dropna (pd.concat ((t1, v1) :: x) y)
    end.
Proof. cbn [pd.concat]. destruct (t1 ?= t2)%Z; reflexivity. Qed.

Lemma increasing_cons (t : Z) (v : Q) (x : list (Z * Q)) :
  increasing ((t, v) :: x) ->
  increasing x /\ forall r, r ∈ x -> (t < fst r)%Z.
Proof.
  unfold increasing. cbn. intros H. apply StronglySorted_cons in H as [Hall Hs].
  split; [exact Hs|]. intros r Hr. rewrite Forall_forall in Hall.
  apply Hall. apply list_elem_of_fmap. eauto.
Qed.

Lemma join_elem (x y : list (Z * Q)) (t : Z) (u v : Q) :
  increasing x -> increasing y ->
  ((t, (u, v)) ∈ pd.dropna (pd.concat x y) <-> (t, u) ∈ x /\ (t, v) ∈ y).
Proof.
  revert y. induction x as [|[t1 v1] x IHx]; intros y Hx Hy.
  - rewrite join_nil_l. split.
    + intros H. apply elem_of_nil in H. contradiction.
    + intros [H _]. apply elem_of_nil in H. contradiction.
  - destruct (increasing_cons _ _ _ Hx) as [Hx' Hx1].
    induction y as [|[t2 v2] y IHy].
    + rewrite join_nil_r. split.
      * intros H. apply elem_of_nil in H. contradiction.
      * intros [_ H]. apply elem_of_nil in H. contradiction.
    + destruct (increasing_cons _ _ _ Hy) as [Hy' Hy1].
      rewrite join_cons. destruct (Z.compare_spec t1 t2) as [Heq|Hlt|Hgt].
      * subst t2. rewrite elem_of_cons, (IHx y Hx' Hy'), !elem_of_cons. split.
        -- intros [[= -> -> ->]|[H1 H2]]; auto.
        -- intros [[[= -> ->]|H1] [[= <-]|H2]]; auto.
           ++ specialize (Hy1 _ H2). cbn in Hy1. lia.
           ++ specialize (Hx1 _ H1). cbn in Hx1. lia.
      * rewrite (IHx _ Hx' Hy), !elem_of_cons. split.
        -- intros [H1 H2]. auto.
        -- intros [[[= -> ->]|H1] H2]; [|auto]. exfalso.
           destruct H2 as [[= <- _]|H2]; [lia|].
           specialize (Hy1 _ H2). cbn in Hy1. lia.
      * rewrite (IHy Hy'), !elem_of_cons. split.
        -- intros [H1 H2]. auto.
        -- intros [H1 [[= -> ->]|H2]]; [|auto]. exfalso.
           destruct H1 as [[= <- _]|H1]; [lia|].
           specialize (Hx1 _ H1). cbn in Hx1. lia.
Qed.

Lemma join_times (x y : list (Z * Q)) (r : Z * (Q * Q)) :
  r ∈ pd.dropna (pd.concat x y) ->
  fst r ∈ map fst x /\ fst r ∈ map fst y.
Proof.
  revert y. induction x as [|[t1 v1] x IHx]; intros y.
  - rewrite join_nil_l. intros H. apply elem_of_nil in H. contradiction.
  - induction y as [|[t2 v2] y IHy].
    + rewrite join_nil_r. intros H. apply elem_of_nil in H. contradiction.
    + rewrite join_cons. destruct (Z.compare_spec t1 t2) as [Heq|Hlt|Hgt].
      * subst t2. intros H. apply elem_of_cons in H as [->|H].
        -- cbn. split; apply elem_of_cons; auto.
        -- destruct (IHx _ H). cbn. split; apply elem_of_cons; auto.
      * intros H. destruct (IHx _ H). cbn. split; [apply elem_of_cons|]; auto.
      * intros H. destruct (IHy H). cbn. split; [|apply elem_of_cons]; auto.
Qed.

Lemma join_increasing (x y : list (Z * Q)) :
  increasing x -> increasing y ->
  StronglySorted Z.lt (map fst (pd.dropna (pd.concat x y))).
Proof.
  revert y. induction x as [|[t1 v1] x IHx]; intros y Hx Hy.
  - rewrite join_nil_l. constructor.
  - destruct (increasing_cons _ _ _ Hx) as [Hx' Hx1].
    induction y as [|[t2 v2] y IHy].
    + rewrite join_nil_r. constructor.
    + destruct (increasing_cons _ _ _ Hy) as [Hy' Hy1].
      rewrite join_cons. destruct (Z.compare_spec t1 t2) as [Heq|Hlt|Hgt].
      * cbn. apply StronglySorted_cons. split; [|apply IHx; assumption].
        apply Forall_forall. intros t Ht.
        apply list_elem_of_fmap in Ht as (r & -> & Hr).
        destruct (join_times _ _ _ Hr) as [H1 _].
        apply list_elem_of_fmap in H1 as (r1 & -> & Hr1). exact (Hx1 _ Hr1).
      * apply IHx; assumption.
      * apply IHy, Hy'.
Qed.

Lemma join_length (x y : list (Z * Q)) :
  (length (pd.dropna (pd.concat x y)) <= Nat.min (length x) (length y))%nat.
Proof.
  revert y. induction x as [|[t1 v1] x IHx]; intros y.
  - rewrite join_nil_l. cbn. lia.
  - induction y as [|[t2 v2] y IHy].
    + rewrite join_nil_r. cbn. lia.
    + rewrite join_cons. destruct (t1 ?= t2)%Z.
      * specialize (IHx y). cbn [length]. lia.
      * specialize (IHx ((t2, v2) :: y)). cbn [length] in *. lia.
      * cbn [length] in *. lia.
Qed.

(** X10.  For two instruments whose frames are indexed by increasing times,
    [_data_frame] is their overlap: it has a row at time t with values (u, v)
    exactly when instrument A has u at t and instrument B has v at t; the
    rows come by increasing time, and there are no more of them than in the
    shorter frame.  In particular it is empty as soon as one instrument has
    no observation. *)
Theorem data_frame_is_the_overlap (buffers : Symbol -> SymbolData) (self : Pairs) :
  increasing (data_frame (buffers (a self))) ->
  increasing (data_frame (buffers (b self))) ->
  let df := _data_frame buffers self in
  (forall t u v,
     (t, (u, v)) ∈ df
     <-> (t, u) ∈ data_frame (buffers (a self))
         /\ (t, v) ∈ data_frame (buffers (b self)))
  /\ StronglySorted Z.lt (map fst df)
  /\ (length df <= Nat.min (length (data_frame (buffers (a self))))
                     (length (data_frame (buffers (b self)))))%nat.
Proof.
  intros Ha Hb. cbv zeta. unfold _data_frame. split; [|split].
  - intros t u v. apply join_elem; assumption.
  - apply join_increasing; assumption.
  - apply join_length.
Qed.

(** ** Entry band and exit band *)

(** X11.  A position entered at some prices is read back, at the same
    prices, with the error that triggered the entry: the snapshot it froze
    is the live model.  With a platform that sizes along the sign of the
    weight, a positive leverage, a close band no wider than the open band
    and a non-negative deviation, the exit test on that position at those
    prices can only succeed through its stop-loss branch: the entry band
    lies outside the close band. *)
Theorem entry_lies_outside_close_band (cfg : Config) (qc : QCAlgorithm)
    (data : Update) (sym : Symbol) (p : Pairs) (m : OLSResults) (side : Side)
    (s : PairsTrading) :
  sign_faithful qc ->
  0 < _leverage cfg ->
  _close_size cfg <= _open_size cfg ->
  0 <= pair.epsilon p ->
  entry_side cfg p (live_error data p m) = Some side ->
  let tp := entered cfg qc data sym p m side s in
  let error := frozen_error data p tp in
  error = live_error data p m
  /\ (exits cfg tp error = true
      <-> match side with
          | LongSpread =>
              error < pair.mean_error p - _stop_loss_size cfg * pair.epsilon p
          | ShortSpread =>
              pair.mean_error p + _stop_loss_size cfg * pair.epsilon p < error
          end).
Proof.
  intros Hsf Hlev Hband Heps Hside. cbv zeta. split; [reflexivity|].
  assert (Hw : _close_size cfg * pair.epsilon p
               <= _open_size cfg * pair.epsilon p).
  { apply Qmult_le_compat_r; assumption. }
  unfold frozen_error, entered, trading_pair.__init__.
  cbn [model_intercept model_slope].
  change (prices_0_close (buffers data (a p))
          - (fst (params m) + snd (params m) * prices_0_close (buffers data (b p))))
    with (live_error data p m).
  set (error := live_error data p m) in *.
  unfold exits. cbv zeta.
  cbn [trading_pair.mean_error trading_pair.epsilon ticket_a quantity].
  assert (Hin : match side with
                 | LongSpread => enter_long cfg p error
                 | ShortSpread => enter_short cfg p error
                 end).
  { destruct side.
    - apply entry_side_long, Hside.
    - apply entry_side_short, Hside. }
  clear Hside. unfold enter_long, enter_short in Hin.
  set (cl := _close_size cfg * pair.epsilon p) in *.
  set (op := _open_size cfg * pair.epsilon p) in *.
  set (st := _stop_loss_size cfg * pair.epsilon p) in *.
  clearbody cl op st error.
  destruct side.
  - rename Hin into Hside.
    assert (Hq : 0 < calculate_order_quantity qc (transcript s) (buffers data) sym
                       (weight_a cfg LongSpread)).
    { apply Hsf. cbn. apply target_positive, Hlev. }
    rewrite orb_true_iff, !andb_true_iff, !orb_true_iff, !Qltb_lt.
    split.
    + intros [[_ [H|H]]|[H _]]; [lra|exact H|lra].
    + intros H. left. split; [exact Hq|right; exact H].
  - rename Hin into Hside.
    assert (Hq : calculate_order_quantity qc (transcript s) (buffers data) sym
                   (weight_a cfg ShortSpread) < 0).
    { apply Hsf. cbn. apply neg_target_negative, Hlev. }
    rewrite orb_true_iff, !andb_true_iff, !orb_true_iff, !Qltb_lt.
    split.
    + intros [[H _]|[_ [H|H]]]; [lra|lra|exact H].
    + intros H. right. split; [exact Hq|right; exact H].
Qed.

(** ** The further properties on the sample data *)

Lemma sample_qc_sign_faithful : sign_faithful sample.qc.
Proof.
  intros tr quotes i w. cbn. split; intros H; rewrite Qred_correct; lra.
Qed.

Lemma sample_frame_increasing : increasing sample.frame.
Proof. unfold increasing. cbn. repeat constructor. Qed.

(** Two ready tickers give one candidate. *)
Lemma candidates_of_initialize_witness :
  (forall x, x ∈ Py.dict_keys [] (_symbols sample.cfg) ->
     is_ready (sample.quotes 0 0 x) = true)
  /\ (2 * length (_pair_list (initialize sample.cfg (sample.quotes 0 0)))
      = length (Py.dict_keys [] (_symbols sample.cfg))
        * (length (Py.dict_keys [] (_symbols sample.cfg)) - 1))%nat.
Proof.
  assert (H : forall x, x ∈ Py.dict_keys [] (_symbols sample.cfg) ->
                is_ready (sample.quotes 0 0 x) = true) by (intros x _; reflexivity).
  split; [exact H|].
  exact (proj2 (proj2 (proj2 (proj2 (proj2
           (candidates_of_initialize sample.cfg (sample.quotes 0 0)))))) H).
Defined.

(** The first cycle on the sample selects the pair "A:B". *)
Lemma active_set_order_witness :
  let s' := fst (_generate_pairs sample.cfg sample.lib (sample.tick 1 0) sample.start) in
  _generate_pairs sample.cfg sample.lib (sample.tick 1 0) sample.start
  = (s', Return [0%nat])
  /\ StronglySorted (ascending (stationary_p_of (_pair_list s'))) [0%nat].
Proof.
  cbv zeta.
  assert (H : _generate_pairs sample.cfg sample.lib (sample.tick 1 0) sample.start
              = (fst (_generate_pairs sample.cfg sample.lib (sample.tick 1 0)
                        sample.start), Return [0%nat]))
    by (vm_compute; reflexivity).
  split; [exact H|].
  exact (proj1 (proj2 (proj2
           (active_set_order sample.cfg sample.lib (sample.tick 1 0) _ _ _ H)))).
Defined.

(** The first update is after the initial schedule and its cycle returns. *)
Lemma regeneration_schedule_witness :
  (_regenerate_time sample.start < time (sample.tick 1 0))%Z
  /\ _selected_pair (fst (on_data sample.cfg sample.lib sample.qc (sample.tick 1 0)
                            sample.start)) = [0%nat]
  /\ _regenerate_time (fst (on_data sample.cfg sample.lib sample.qc (sample.tick 1 0)
                              sample.start)) = 7201%Z.
Proof.
  assert (Hdue : (_regenerate_time sample.start < time (sample.tick 1 0))%Z)
    by (vm_compute; reflexivity).
  assert (H : _generate_pairs sample.cfg sample.lib (sample.tick 1 0) sample.start
              = (fst (_generate_pairs sample.cfg sample.lib (sample.tick 1 0)
                        sample.start), Return [0%nat]))
    by (vm_compute; reflexivity).
  split; [exact Hdue|].
  pose proof (proj2 (regeneration_schedule sample.cfg sample.lib sample.qc
                       (sample.tick 1 0) sample.start) Hdue _ _ H) as (H1 & _ & H3).
  split; [exact H1|exact H3].
Defined.

(** With unrelated series the cycle logs that nothing was selected. *)
Lemma generate_pairs_side_effects_witness :
  let s' := fst (_generate_pairs sample.cfg sample.lib_unrelated (sample.tick 1 0)
                   sample.start) in
  _generate_pairs sample.cfg sample.lib_unrelated (sample.tick 1 0) sample.start
  = (s', Return [])
  /\ emitted sample.start s' = [Debug No_selected_pair].
Proof.
  cbv zeta.
  assert (H : _generate_pairs sample.cfg sample.lib_unrelated (sample.tick 1 0)
                sample.start
              = (fst (_generate_pairs sample.cfg sample.lib_unrelated (sample.tick 1 0)
                        sample.start), Return []))
    by (vm_compute; reflexivity).
  split; [exact H|].
  pose proof (generate_pairs_side_effects sample.cfg sample.lib_unrelated
                (sample.tick 1 0) _ _ _ H) as (_ & _ & _ & Hnone & _).
  apply Hnone. vm_compute. reflexivity.
Defined.

(** Two updates on the sample end normally. *)
Lemma active_set_bounds_witness :
  let out := run sample.cfg sample.lib sample.qc [sample.tick 1 0; sample.tick 2 1]
               (initialize sample.cfg (sample.quotes 0 0)) in
  snd out = Return tt
  /\ (length (open_pairs (fst out)) <= Pos.to_nat (_pair_num sample.cfg))%nat.
Proof.
  cbv zeta.
  assert (H : snd (run sample.cfg sample.lib sample.qc
                     [sample.tick 1 0; sample.tick 2 1]
                     (initialize sample.cfg (sample.quotes 0 0))) = Return tt)
    by (vm_compute; reflexivity).
  split; [exact H|].
  exact (proj2 (proj2 (proj2 (proj2
           (active_set_bounds sample.cfg sample.lib sample.qc (sample.quotes 0 0)
              [sample.tick 1 0; sample.tick 2 1]))) H)).
Defined.

(** The residual test of the sample raises in the first cycle. *)
Lemma exceptions_come_from_statistics_witness :
  let s := fst (run sample.cfg sample.lib_adf_raises sample.qc []
                  (initialize sample.cfg (sample.quotes 0 0))) in
  let out := on_data sample.cfg sample.lib_adf_raises sample.qc (sample.tick 1 0) s in
  out = (fst out, Raise StatsError)
  /\ (exists p, p ∈ _pair_list s
                /\ raised_by sample.lib_adf_raises (sample.tick 1 0) p StatsError)
  /\ transcript (fst out) = transcript s.
Proof.
  cbv zeta.
  assert (H : on_data sample.cfg sample.lib_adf_raises sample.qc (sample.tick 1 0)
                (fst (run sample.cfg sample.lib_adf_raises sample.qc []
                        (initialize sample.cfg (sample.quotes 0 0))))
              = (fst (on_data sample.cfg sample.lib_adf_raises sample.qc
                        (sample.tick 1 0)
                        (fst (run sample.cfg sample.lib_adf_raises sample.qc []
                                (initialize sample.cfg (sample.quotes 0 0))))),
                 Raise StatsError))
    by (vm_compute; reflexivity).
  split; [exact H|].
  pose proof (proj1 (exceptions_come_from_statistics sample.cfg sample.lib_adf_raises
                       sample.qc (sample.quotes 0 0) []) _ _ _ H)
    as (Hp & _ & _ & Ht & _).
  split; [exact Hp|exact Ht].
Defined.

(** After two quiet updates the book is empty and the orders cancel. *)
Lemma orders_balance_positions_witness :
  let s' := fst (run sample.cfg sample.lib sample.qc [sample.tick 1 0; sample.tick 2 1]
                   (initialize sample.cfg (sample.quotes 0 0))) in
  _trading_pairs s' = [] /\ forall sym, net sym (transcript s') == 0.
Proof.
  cbv zeta.
  assert (H : _trading_pairs
                (fst (run sample.cfg sample.lib sample.qc
                        [sample.tick 1 0; sample.tick 2 1]
                        (initialize sample.cfg (sample.quotes 0 0)))) = [])
    by (vm_compute; reflexivity).
  split; [exact H|].
  exact (proj2 (proj2
           (orders_balance_positions sample.cfg sample.lib sample.qc
              (sample.quotes 0 0) [sample.tick 1 0; sample.tick 2 1])) H).
Defined.

(** The first cycle on the sample keeps the number of pair objects. *)
Lemma pair_objects_after_a_cycle_witness :
  let s' := fst (_generate_pairs sample.cfg sample.lib (sample.tick 1 0) sample.start) in
  _generate_pairs sample.cfg sample.lib (sample.tick 1 0) sample.start
  = (s', Return [0%nat])
  /\ length (_pair_list s') = length (_pair_list sample.start).
Proof.
  cbv zeta.
  assert (H : _generate_pairs sample.cfg sample.lib (sample.tick 1 0) sample.start
              = (fst (_generate_pairs sample.cfg sample.lib (sample.tick 1 0)
                        sample.start), Return [0%nat]))
    by (vm_compute; reflexivity).
  split; [exact H|].
  exact (proj1 (pair_objects_after_a_cycle sample.cfg sample.lib (sample.tick 1 0)
                  _ _ _ H)).
Defined.

(** The frames of the sample instruments are increasing. *)
Lemma data_frame_is_the_overlap_witness :
  increasing (data_frame (sample.quotes 0 0 (a sample.AB)))
  /\ increasing (data_frame (sample.quotes 0 0 (b sample.AB)))
  /\ StronglySorted Z.lt (map fst (_data_frame (sample.quotes 0 0) sample.AB)).
Proof.
  split; [exact sample_frame_increasing|]. split; [exact sample_frame_increasing|].
  exact (proj1 (proj2
           (data_frame_is_the_overlap (sample.quotes 0 0) sample.AB
              sample_frame_increasing sample_frame_increasing))).
Defined.

(** The short entry of the sample, at error 2.5, is inside its stop-loss. *)
Lemma entry_lies_outside_close_band_witness :
  entry_side sample.cfg sample.live
    (live_error (sample.tick 3 2.5) sample.live sample.fit) = Some ShortSpread
  /\ exits sample.cfg
       (entered sample.cfg sample.qc (sample.tick 3 2.5) "B" sample.live sample.fit
          ShortSpread sample.flat)
       (frozen_error (sample.tick 3 2.5) sample.live
          (entered sample.cfg sample.qc (sample.tick 3 2.5) "B" sample.live sample.fit
             ShortSpread sample.flat)) = false.
Proof.
  assert (Hside : entry_side sample.cfg sample.live
                    (live_error (sample.tick 3 2.5) sample.live sample.fit)
                  = Some ShortSpread) by (vm_compute; reflexivity).
  assert (Hlev : 0 < _leverage sample.cfg) by (vm_compute; reflexivity).
  assert (Hband : _close_size sample.cfg <= _open_size sample.cfg)
    by (vm_compute; discriminate).
  assert (Heps : 0 <= pair.epsilon sample.live) by (vm_compute; discriminate).
  split; [exact Hside|].
  pose proof (proj2 (entry_lies_outside_close_band sample.cfg sample.qc
                       (sample.tick 3 2.5) "B" sample.live sample.fit ShortSpread
                       sample.flat sample_qc_sign_faithful Hlev Hband Heps Hside))
    as [Hex _].
  destruct (exits _ _ _) eqn:E; [|reflexivity].
  exfalso. specialize (Hex eq_refl). vm_compute in Hex. discriminate.
Defined.
